(** * mindmapNEU: the graph editing core of the mind-map editor

    A shallow embedding of the editing engine of [src/App.tsx] (the running
    application), of the older copy of the application that the repository
    keeps next to its type declarations (the text that follows
    [src/types/index.ts]; called [V14] below after its storage key
    [mindmap_v14]) and of the extracted module [src/utils/layout.ts].

    Numbers.  JavaScript numbers are modelled exactly, without rounding
    error: box sizes and font sizes, which the code only ever produces by
    integer-valued arithmetic, are rationals ([Q], executable); world
    coordinates and the camera, which go through [Math.cos], [Math.sin],
    [Math.hypot] and [Math.acos], are real numbers ([R]).  Identifiers are
    integers ([Z]).  Labels are strings of 8-bit characters.

    React.  A handler reads the [useState] values of the render that
    created it (its closure) and the refs live; its setters act on the
    pending state in program order.  Handlers are therefore functions of
    two arguments: the render [r] they were created in and the live state
    [s] they update. *)

From Stdlib Require Import ZArith QArith Qround Reals Lra Lia.
From Stdlib Require Import List String Ascii Bool Eqdep_dec DecimalString.
Import ListNotations.

(** ** JavaScript numbers on [Q] *)

Module JsNum.

(** [Math.max] and [Math.min] on two arguments. *)
Definition max (a b : Q) : Q := if Qle_bool a b then b else a.
Definition min (a b : Q) : Q := if Qle_bool a b then a else b.

(** [Math.round]: the nearest integer, halves upwards. *)
Definition round (v : Q) : Q := inject_Z (Qfloor (v + (1 # 2))).

(** [Math.ceil]. *)
Definition ceil (v : Q) : Q := inject_Z (Qceiling v).

(** [clamp] of [src/App.tsx] l.49 and [src/utils/math.ts] l.4. *)
Definition clamp (v a b : Q) : Q := max a (min b v).

Lemma max_l (a b : Q) : a <= max a b.
Proof.
  unfold max. destruct (Qle_bool a b) eqn:E.
  - now apply Qle_bool_iff.
  - apply Qle_refl.
Qed.

Lemma max_r (a b : Q) : b <= max a b.
Proof.
  unfold max. destruct (Qle_bool a b) eqn:E.
  - apply Qle_refl.
  - apply Qlt_le_weak, Qnot_le_lt. intro H.
    apply Qle_bool_iff in H. congruence.
Qed.

Lemma max_cases (a b : Q) : max a b = a \/ max a b = b.
Proof. unfold max. destruct (Qle_bool a b); auto. Qed.

End JsNum.

(** ** Strings the way the layout code uses them *)

Module JsString.

Open Scope string_scope.

(** The characters matched by [\s] among the 8-bit characters: TAB, LF,
    VT, FF, CR, space and the no-break space. *)
Definition is_space (c : ascii) : bool :=
  let n := nat_of_ascii c in
  ((9 <=? n)%nat && (n <=? 13)%nat) || (n =? 32)%nat || (n =? 160)%nat.

(** A non-empty string is truthy. *)
Definition truthy (s : string) : bool :=
  match s with EmptyString => false | String _ _ => true end.

(** [s.split(/\s+/).filter(Boolean)]: the maximal runs of characters
    that are not white space.  [cur] is the run being read. *)
Fixpoint split_ws (cur s : string) : list string :=
  match s with
  | EmptyString => if truthy cur then [cur] else []
  | String c s' =>
      if is_space c
      then (if truthy cur then cur :: split_ws "" s' else split_ws "" s')
      else split_ws (cur ++ String c "") s'
  end.

Definition words (s : string) : list string := split_ws "" s.

(** [s.replace(/\s+/g, " ")]: every maximal run of white space becomes
    one space.  [in_run] tells that the previous character was white
    space. *)
Fixpoint collapse_ws (in_run : bool) (s : string) : string :=
  match s with
  | EmptyString => EmptyString
  | String c s' =>
      if is_space c
      then (if in_run then collapse_ws true s'
            else String " " (collapse_ws true s'))
      else String c (collapse_ws false s')
  end.

Fixpoint trim_start (s : string) : string :=
  match s with
  | EmptyString => EmptyString
  | String c s' => if is_space c then trim_start s' else s
  end.

Fixpoint rev_string (acc s : string) : string :=
  match s with
  | EmptyString => acc
  | String c s' => rev_string (String c acc) s'
  end.

(** [s.trim()]. *)
Definition trim (s : string) : string :=
  rev_string "" (trim_start (rev_string "" (trim_start s))).

End JsString.

(** ** Data model ([src/App.tsx] l.8-38, [src/types/index.ts] l.1-31) *)

(** [MindNode]: the optional [fillColor] and [bold] are absent ([None])
    or set. *)
Record MindNode := mkNode {
  id : Z;
  label : string;
  x : R;
  y : R;
  w : Q;
  h : Q;
  strokeColor : string;
  fillColor : option string;
  bold : option bool
}.

(** [Link]: its [id] and [label] are [link_id] and [link_label] here; the
    optional flags are absent ([None]) or set. *)
Record Link := mkLink {
  link_id : Z;
  source : Z;
  target : Z;
  link_label : option string;
  dashed : option bool;
  arrow : option bool
}.

Record Point := mkPoint { px : R; py : R }.

Record Snapshot := mkSnapshot {
  snap_nodes : list MindNode;
  snap_edges : list Link;
  snap_pan : Point;
  snap_scale : R;
  snap_selectedId : option Z;
  snap_selectedIds : list Z;
  snap_selectedEdgeIds : list Z
}.

Definition BASE_W : Q := 120.
Definition BASE_H : Q := 64.
Definition CHILD_RADIUS : R := 160.
Definition DRAG_THRESHOLD : R := 16.
Definition GOLDEN_ANGLE : R := PI * (3 - sqrt 5).

Definition set_size (n : MindNode) (w' h' : Q) : MindNode :=
  mkNode (id n) (label n) (x n) (y n) w' h' (strokeColor n) (fillColor n) (bold n).

Definition set_label (n : MindNode) (l : string) : MindNode :=
  mkNode (id n) l (x n) (y n) (w n) (h n) (strokeColor n) (fillColor n) (bold n).

Definition set_pos (n : MindNode) (x' y' : R) : MindNode :=
  mkNode (id n) (label n) x' y' (w n) (h n) (strokeColor n) (fillColor n) (bold n).

Definition set_bold (n : MindNode) (b : option bool) : MindNode :=
  mkNode (id n) (label n) (x n) (y n) (w n) (h n) (strokeColor n) (fillColor n) b.

(** ** LabelLayout ([src/App.tsx] l.49-111 and l.433-437,
       [src/utils/layout.ts]) *)

Module Layout.

Import JsString.
Open Scope Q_scope.

Definition maxLines : nat := 3.
Definition paddingX : Q := 16.
Definition paddingY : Q := 12.

Definition qlen (s : string) : Q := inject_Z (Z.of_nat (String.length s)).

(** [approxTextWidth]: [text.length * fontSize * 0.6]. *)
Definition approxTextWidth (text : string) (fontSize : Q) : Q :=
  qlen text * fontSize * (6 # 10).

Record LabelLayout := mkLayout {
  lines : list string;
  width : Q;
  height : Q;
  lineHeight : Q;
  fontSize : Q
}.

(** One turn of the [for (const w of ...)] loop of [rebuild]; the state
    is [(lines, current)]. *)
Definition wrap_word (baseFont width : Q) (st : list string * string)
    (wd : string) : list string * string :=
  let (ls, current) := st in
  let test := if truthy current then (current ++ " " ++ wd)%string else wd in
  if Qle_bool (approxTextWidth test baseFont) (width - paddingX * 2)
  then (ls, test)
  else ((if truthy current then ls ++ [current] else ls)%list, wd).

(** [words.length ? words : [label]]: what [rebuild] puts into lines. *)
Definition items (label : string) : list string :=
  match words label with
  | [] => [label]
  | _ :: _ => words label
  end.

(** The lines [rebuild] computes for the current [width]. *)
Definition wrap (label : string) (baseFont width : Q) : list string :=
  let (ls, current) :=
    fold_left (wrap_word baseFont width) (items label) ([], ""%string) in
  if truthy current then (ls ++ [current])%list else ls.

(** The width [rebuild] moves to when there are more than [maxLines]
    lines. *)
Definition widen (label : string) (baseFont width : Q) : Q :=
  let len := String.length (trim (collapse_ws false label)) in
  let textLen := if (len =? 0)%nat then 1 else inject_Z (Z.of_nat len) in
  let targetCharsPerLine := JsNum.ceil (textLen / inject_Z (Z.of_nat maxLines)) in
  JsNum.max width (JsNum.ceil (targetCharsPerLine * baseFont * (6 # 10) + paddingX * 2)).

(** [for (let i = 0; i < 6; i++) { if (rebuild()) break; }]: [k] counts
    the turns left; the result is the last [lines] and [width]. *)
Fixpoint rebuild_loop (k : nat) (label : string) (baseFont : Q)
    (ls : list string) (width : Q) : list string * Q :=
  match k with
  | O => (ls, width)
  | S k' =>
      let ls' := wrap label baseFont width in
      if (maxLines <? List.length ls')%nat
      then rebuild_loop k' label baseFont ls' (widen label baseFont width)
      else (ls', width)
  end.

Definition max_list (l : list Q) (z : Q) : Q := fold_left JsNum.max l z.

(** The part of [layoutLabel] that [src/App.tsx] and
    [src/utils/layout.ts] share: the lines as wrapped, the width and the
    height. *)
Definition layout_core (label : string) (baseFont minW : Q)
    : list string * Q * Q * Q :=
  let lineHeight := JsNum.round (baseFont * (115 # 100)) in
  let (ls, width0) := rebuild_loop 6 label baseFont [] (JsNum.max minW BASE_W) in
  let textW := max_list (map (fun t => approxTextWidth t baseFont) ls) 0 in
  let width := JsNum.max width0 (JsNum.ceil (textW + paddingX * 2)) in
  let height :=
    JsNum.max BASE_H
      (JsNum.ceil (inject_Z (Z.of_nat (List.length ls)) * lineHeight + paddingY * 2)) in
  (ls, width, height, lineHeight).

(** [layoutLabel] of [src/App.tsx] l.54-111: an empty list of lines is
    returned as one empty line. *)
Definition layoutLabel (label : string) (baseFont minW : Q) : LabelLayout :=
  let '(ls, width, height, lineHeight) := layout_core label baseFont minW in
  mkLayout (match ls with [] => [""%string] | _ => ls end)
           width height lineHeight baseFont.

(** [resizeNodeForLabel] of [src/App.tsx] l.433-437. *)
Definition resize_font (n : MindNode) : Q :=
  JsNum.clamp (JsNum.round (h n * (35 # 100))) 12 20.

Definition resizeNodeForLabel (n : MindNode) : MindNode :=
  let L := layoutLabel (label n) (resize_font n) BASE_W in
  set_size n (width L) (height L).

(** The extracted module [src/utils/layout.ts]: [layoutLabel] returns
    the lines as they are, and [resizeNodeForLabel] (l.65-69) rounds the
    clamped value and passes the width of the node as the minimum. *)
Module Ts.

Definition layoutLabel (label : string) (baseFont minW : Q) : LabelLayout :=
  let '(ls, width, height, lineHeight) := layout_core label baseFont minW in
  mkLayout ls width height lineHeight baseFont.

Definition resize_font (n : MindNode) : Q :=
  JsNum.round (JsNum.max 12 (JsNum.min 20 (h n * (35 # 100)))).

Definition resizeNodeForLabel (n : MindNode) : MindNode :=
  let L := layoutLabel (label n) (resize_font n) (w n) in
  set_size n (width L) (height L).

End Ts.

End Layout.

(** ** [Set<number>]: the members in insertion order, each once *)

Module NumSet.

Definition mem (a : Z) (l : list Z) : bool := existsb (Z.eqb a) l.

Fixpoint nodupb (l : list Z) : bool :=
  match l with
  | [] => true
  | a :: t => negb (mem a t) && nodupb t
  end.

Record t := mk { elems : list Z; elems_nodup : nodupb elems = true }.

Lemma mem_app a l1 l2 : mem a (l1 ++ l2) = mem a l1 || mem a l2.
Proof. unfold mem. apply existsb_app. Qed.

Lemma nodupb_snoc l a : nodupb l = true -> mem a l = false -> nodupb (l ++ [a]) = true.
Proof.
  induction l as [|b l IH]; simpl; intros Hn Hm; [reflexivity|].
  apply andb_true_iff in Hn as [Hb Hl].
  apply orb_false_iff in Hm as [Hab Hm].
  rewrite mem_app, IH by assumption. simpl.
  rewrite orb_false_r, Z.eqb_sym, Hab.
  apply negb_true_iff in Hb. now rewrite Hb.
Qed.

Lemma mem_filter a f l : mem a (filter f l) = mem a l && f a.
Proof.
  induction l as [|b l IH]; simpl; [reflexivity|].
  destruct (f b) eqn:Fb; simpl; rewrite IH.
  - destruct (Z.eqb_spec a b) as [->|]; simpl; [now rewrite Fb|reflexivity].
  - destruct (Z.eqb_spec a b) as [->|]; simpl; [|reflexivity].
    rewrite Fb. now rewrite andb_false_r.
Qed.

Lemma nodupb_filter f l : nodupb l = true -> nodupb (filter f l) = true.
Proof.
  induction l as [|b l IH]; simpl; intros Hn; [reflexivity|].
  apply andb_true_iff in Hn as [Hb Hl].
  destruct (f b); simpl; [|auto].
  rewrite mem_filter, IH by assumption.
  apply negb_true_iff in Hb. now rewrite Hb.
Qed.

(** Two sets with the same members in the same order are equal. *)
Lemma eq_elems (s1 s2 : t) : elems s1 = elems s2 -> s1 = s2.
Proof.
  destruct s1 as [l1 p1], s2 as [l2 p2]; simpl; intros <-.
  f_equal. apply UIP_dec, bool_dec.
Qed.

(** [new Set()]. *)
Definition empty : t := mk [] eq_refl.

Definition has (a : Z) (s : t) : bool := mem a (elems s).

Definition size (s : t) : nat := List.length (elems s).

Definition add_list (a : Z) (l : list Z) : list Z :=
  if mem a l then l else l ++ [a].

Lemma add_list_nodup a l : nodupb l = true -> nodupb (add_list a l) = true.
Proof.
  unfold add_list. intros Hl. destruct (mem a l) eqn:E; [assumption|].
  now apply nodupb_snoc.
Qed.

(** [s.add(a)] and [s.delete(a)] on a copy of [s]. *)
Definition add (a : Z) (s : t) : t :=
  mk (add_list a (elems s)) (add_list_nodup a _ (elems_nodup s)).

Definition delete (a : Z) (s : t) : t :=
  mk (filter (fun b => negb (b =? a)%Z) (elems s))
     (nodupb_filter _ _ (elems_nodup s)).

(** [new Set(array)]. *)
Definition of_list (l : list Z) : t := fold_left (fun s a => add a s) l empty.

(** [Array.from(s)]. *)
Definition to_list (s : t) : list Z := elems s.

Definition singleton (a : Z) : t := of_list [a].

Lemma fold_add_elems l s :
  elems (fold_left (fun s a => add a s) l s) = fold_left (fun acc a => add_list a acc) l (elems s).
Proof. revert s. induction l as [|a l IH]; intros s; simpl; [reflexivity|]. now rewrite IH. Qed.

Lemma fold_add_list_nodup l : forall acc,
  nodupb (acc ++ l) = true ->
  fold_left (fun acc a => add_list a acc) l acc = acc ++ l.
Proof.
  induction l as [|a l IH]; intros acc H; simpl.
  - now rewrite app_nil_r.
  - assert (Hm : mem a acc = false).
    { clear IH. induction acc as [|b acc IHa]; simpl in *; [reflexivity|].
      apply andb_true_iff in H as [Hb Hr].
      rewrite mem_app in Hb. simpl in Hb.
      apply negb_true_iff, orb_false_iff in Hb as [_ Hb].
      apply orb_false_iff in Hb as [Hb _].
      rewrite Z.eqb_sym, Hb. simpl. now apply IHa. }
    unfold add_list at 2. rewrite Hm.
    rewrite IH; rewrite <- app_assoc; simpl; auto.
Qed.

(** Rebuilding a set from its own array gives the set back. *)
Lemma of_list_to_list (s : t) : of_list (to_list s) = s.
Proof.
  apply eq_elems. unfold of_list, to_list. rewrite fold_add_elems. simpl.
  rewrite fold_add_list_nodup; simpl; [reflexivity|apply elems_nodup].
Qed.

Lemma elems_of_list_nodup l : nodupb l = true -> elems (of_list l) = l.
Proof.
  intros H. unfold of_list. rewrite fold_add_elems. simpl.
  now rewrite fold_add_list_nodup.
Qed.

Lemma of_list_nil_iff l : elems (of_list l) = [] <-> l = [].
Proof.
  split; [|intros ->; reflexivity].
  destruct l as [|a l]; [reflexivity|]. intros H. exfalso.
  unfold of_list in H. rewrite fold_add_elems in H. simpl in H.
  assert (G : forall l acc, acc <> [] -> fold_left (fun acc a => add_list a acc) l acc <> []).
  { clear. induction l as [|b l IH]; intros acc Ha; simpl; [assumption|].
    apply IH. unfold add_list. destruct (mem b acc); [assumption|].
    destruct acc; discriminate. }
  apply (G l (add_list a [])); [|assumption]. discriminate.
Qed.

End NumSet.

(** ** The state of the application ([src/App.tsx] l.178-289) *)

Inductive Phase := idle | pending | active.

Record Linking := mkLinking {
  phase : Phase;
  sourceId : option Z;
  link_x : R;
  link_y : R;
  startX : R;
  startY : R
}.

Record Marquee := mkMarquee {
  marquee_active : bool;
  x1 : R;
  y1 : R;
  x2 : R;
  y2 : R
}.

Record Clipboard := mkClipboard {
  clip_nodes : list MindNode;
  clip_edges : list Link
}.

(** The [useState] values of one render: what a handler finds in its
    closure. *)
Record Render := mkRender {
  nodes : list MindNode;
  edges : list Link;
  selectedId : option Z;
  selectedIds : NumSet.t;
  selectedEdgeIds : NumSet.t;
  clipboard : option Clipboard;
  pan : Point;
  scale : R;
  marquee : Marquee;
  editingId : option Z;
  editingText : string;
  linking : Linking
}.

(** The [useRef] cells, read and written live.  The two history stacks
    have their top (the end of the JavaScript array) at the head.  The
    refs of the camera gestures ([panning], [panStart], [panAtStart],
    [activeTouches], [pinchStart]) only feed [setPan] and [setScale] and
    are left out, see [Camera] below. *)
Record Refs := mkRefs {
  undoStack : list Snapshot;
  redoStack : list Snapshot;
  shiftTabPath : option (list Z);
  shiftTabIndex : Z;
  prevSelectedId : option Z;
  draggingNodeId : option Z;
  dragOffset : R * R;
  somethingMoved : bool;
  groupDragging : bool;
  groupStart : Point;
  groupStartPositions : list (Z * (R * R));
  freshTyping : bool
}.

(** [alerts] collects what [alert] has shown to the user, newest first. *)
Record State := mkState {
  ui : Render;
  refs : Refs;
  alerts : list string
}.

Section Setters.

Variable r : Render.

Definition with_nodes v := mkRender v (edges r) (selectedId r) (selectedIds r)
  (selectedEdgeIds r) (clipboard r) (pan r) (scale r) (marquee r) (editingId r)
  (editingText r) (linking r).
Definition with_edges v := mkRender (nodes r) v (selectedId r) (selectedIds r)
  (selectedEdgeIds r) (clipboard r) (pan r) (scale r) (marquee r) (editingId r)
  (editingText r) (linking r).
Definition with_selectedId v := mkRender (nodes r) (edges r) v (selectedIds r)
  (selectedEdgeIds r) (clipboard r) (pan r) (scale r) (marquee r) (editingId r)
  (editingText r) (linking r).
Definition with_selectedIds v := mkRender (nodes r) (edges r) (selectedId r) v
  (selectedEdgeIds r) (clipboard r) (pan r) (scale r) (marquee r) (editingId r)
  (editingText r) (linking r).
Definition with_selectedEdgeIds v := mkRender (nodes r) (edges r) (selectedId r)
  (selectedIds r) v (clipboard r) (pan r) (scale r) (marquee r) (editingId r)
  (editingText r) (linking r).
Definition with_clipboard v := mkRender (nodes r) (edges r) (selectedId r)
  (selectedIds r) (selectedEdgeIds r) v (pan r) (scale r) (marquee r) (editingId r)
  (editingText r) (linking r).
Definition with_pan v := mkRender (nodes r) (edges r) (selectedId r)
  (selectedIds r) (selectedEdgeIds r) (clipboard r) v (scale r) (marquee r)
  (editingId r) (editingText r) (linking r).
Definition with_scale v := mkRender (nodes r) (edges r) (selectedId r)
  (selectedIds r) (selectedEdgeIds r) (clipboard r) (pan r) v (marquee r)
  (editingId r) (editingText r) (linking r).
Definition with_marquee v := mkRender (nodes r) (edges r) (selectedId r)
  (selectedIds r) (selectedEdgeIds r) (clipboard r) (pan r) (scale r) v
  (editingId r) (editingText r) (linking r).
Definition with_editingId v := mkRender (nodes r) (edges r) (selectedId r)
  (selectedIds r) (selectedEdgeIds r) (clipboard r) (pan r) (scale r) (marquee r)
  v (editingText r) (linking r).
Definition with_editingText v := mkRender (nodes r) (edges r) (selectedId r)
  (selectedIds r) (selectedEdgeIds r) (clipboard r) (pan r) (scale r) (marquee r)
  (editingId r) v (linking r).
Definition with_linking v := mkRender (nodes r) (edges r) (selectedId r)
  (selectedIds r) (selectedEdgeIds r) (clipboard r) (pan r) (scale r) (marquee r)
  (editingId r) (editingText r) v.

Variable f : Refs.

Definition with_undoStack v := mkRefs v (redoStack f) (shiftTabPath f)
  (shiftTabIndex f) (prevSelectedId f) (draggingNodeId f) (dragOffset f)
  (somethingMoved f) (groupDragging f) (groupStart f) (groupStartPositions f)
  (freshTyping f).
Definition with_redoStack v := mkRefs (undoStack f) v (shiftTabPath f)
  (shiftTabIndex f) (prevSelectedId f) (draggingNodeId f) (dragOffset f)
  (somethingMoved f) (groupDragging f) (groupStart f) (groupStartPositions f)
  (freshTyping f).
Definition with_shiftTabPath v := mkRefs (undoStack f) (redoStack f) v
  (shiftTabIndex f) (prevSelectedId f) (draggingNodeId f) (dragOffset f)
  (somethingMoved f) (groupDragging f) (groupStart f) (groupStartPositions f)
  (freshTyping f).
Definition with_shiftTabIndex v := mkRefs (undoStack f) (redoStack f)
  (shiftTabPath f) v (prevSelectedId f) (draggingNodeId f) (dragOffset f)
  (somethingMoved f) (groupDragging f) (groupStart f) (groupStartPositions f)
  (freshTyping f).
Definition with_prevSelectedId v := mkRefs (undoStack f) (redoStack f)
  (shiftTabPath f) (shiftTabIndex f) v (draggingNodeId f) (dragOffset f)
  (somethingMoved f) (groupDragging f) (groupStart f) (groupStartPositions f)
  (freshTyping f).
Definition with_draggingNodeId v := mkRefs (undoStack f) (redoStack f)
  (shiftTabPath f) (shiftTabIndex f) (prevSelectedId f) v (dragOffset f)
  (somethingMoved f) (groupDragging f) (groupStart f) (groupStartPositions f)
  (freshTyping f).
Definition with_dragOffset v := mkRefs (undoStack f) (redoStack f)
  (shiftTabPath f) (shiftTabIndex f) (prevSelectedId f) (draggingNodeId f) v
  (somethingMoved f) (groupDragging f) (groupStart f) (groupStartPositions f)
  (freshTyping f).
Definition with_somethingMoved v := mkRefs (undoStack f) (redoStack f)
  (shiftTabPath f) (shiftTabIndex f) (prevSelectedId f) (draggingNodeId f)
  (dragOffset f) v (groupDragging f) (groupStart f) (groupStartPositions f)
  (freshTyping f).
Definition with_groupDragging v := mkRefs (undoStack f) (redoStack f)
  (shiftTabPath f) (shiftTabIndex f) (prevSelectedId f) (draggingNodeId f)
  (dragOffset f) (somethingMoved f) v (groupStart f) (groupStartPositions f)
  (freshTyping f).
Definition with_groupStart v := mkRefs (undoStack f) (redoStack f)
  (shiftTabPath f) (shiftTabIndex f) (prevSelectedId f) (draggingNodeId f)
  (dragOffset f) (somethingMoved f) (groupDragging f) v (groupStartPositions f)
  (freshTyping f).
Definition with_groupStartPositions v := mkRefs (undoStack f) (redoStack f)
  (shiftTabPath f) (shiftTabIndex f) (prevSelectedId f) (draggingNodeId f)
  (dragOffset f) (somethingMoved f) (groupDragging f) (groupStart f) v
  (freshTyping f).
Definition with_freshTyping v := mkRefs (undoStack f) (redoStack f)
  (shiftTabPath f) (shiftTabIndex f) (prevSelectedId f) (draggingNodeId f)
  (dragOffset f) (somethingMoved f) (groupDragging f) (groupStart f)
  (groupStartPositions f) v.

End Setters.

(** The [useState] setters, with a value or with an updater, and the
    assignments to refs, as transformers of the live state. *)
Definition on_ui (g : Render -> Render) (s : State) : State :=
  mkState (g (ui s)) (refs s) (alerts s).
Definition on_refs (g : Refs -> Refs) (s : State) : State :=
  mkState (ui s) (g (refs s)) (alerts s).

Definition setNodes (g : list MindNode -> list MindNode) : State -> State :=
  on_ui (fun r => with_nodes r (g (nodes r))).
Definition setEdges (g : list Link -> list Link) : State -> State :=
  on_ui (fun r => with_edges r (g (edges r))).
Definition setSelectedId (v : option Z) : State -> State :=
  on_ui (fun r => with_selectedId r v).
Definition setSelectedIds (v : NumSet.t) : State -> State :=
  on_ui (fun r => with_selectedIds r v).
Definition setSelectedEdgeIds (v : NumSet.t) : State -> State :=
  on_ui (fun r => with_selectedEdgeIds r v).
Definition setClipboard (v : option Clipboard) : State -> State :=
  on_ui (fun r => with_clipboard r v).
Definition setPan (v : Point) : State -> State := on_ui (fun r => with_pan r v).
Definition setScale (v : R) : State -> State := on_ui (fun r => with_scale r v).
Definition setMarquee (g : Marquee -> Marquee) : State -> State :=
  on_ui (fun r => with_marquee r (g (marquee r))).
Definition setEditingId (v : option Z) : State -> State :=
  on_ui (fun r => with_editingId r v).
Definition setEditingText (v : string) : State -> State :=
  on_ui (fun r => with_editingText r v).
Definition setLinking (g : Linking -> Linking) : State -> State :=
  on_ui (fun r => with_linking r (g (linking r))).
Definition set_freshTyping (b : bool) : State -> State :=
  on_refs (fun f => with_freshTyping f b).
Definition alert (msg : string) (s : State) : State :=
  mkState (ui s) (refs s) (msg :: alerts s).

(** The initial state ([src/App.tsx] l.180-276); the initial camera is
    half of the window. *)
Definition start_node : MindNode :=
  mkNode 1 "Start" 0 0 BASE_W BASE_H "#333" None (Some false).

Definition idle_linking : Linking := mkLinking idle None 0 0 0 0.
Definition no_marquee : Marquee := mkMarquee false 0 0 0 0.

Definition init_state (windowW windowH : R) : State :=
  mkState
    (mkRender [start_node] [] (Some 1%Z) (NumSet.singleton 1) NumSet.empty None
       (mkPoint (windowW / 2) (windowH / 2)) 1 no_marquee None "" idle_linking)
    (mkRefs [] [] None 0 None None (0%R, 0%R) false false (mkPoint 0 0) [] true)
    [].

(** ** Real-number helpers *)

Local Open Scope R_scope.

Definition Rltb (a b : R) : bool := if Rlt_dec a b then true else false.
Definition Rleb (a b : R) : bool := if Rle_dec a b then true else false.
Definition Reqb (a b : R) : bool := if Req_dec_T a b then true else false.

(** [Math.hypot] on two arguments. *)
Definition hypot (a b : R) : R := sqrt (a * a + b * b).

(** A number used as a condition: [0] is falsy. *)
Definition truthy_id (z : Z) : bool := negb (z =? 0)%Z.

(** ** Selection ([src/App.tsx] l.359-381) *)

Definition selectOnly (r : Render) (i : Z) (s : State) : State :=
  let s := on_refs (fun f => with_shiftTabIndex (with_shiftTabPath f None) 0) s in
  let s :=
    match selectedId r with
    | Some old => if (old =? i)%Z then s
                  else on_refs (fun f => with_prevSelectedId f (Some old)) s
    | None => s
    end in
  let s := setSelectedId (Some i) s in
  let s := setSelectedIds (NumSet.of_list [i]) s in
  let s := setSelectedEdgeIds NumSet.empty s in
  set_freshTyping true s.

Definition clearSelection (s : State) : State :=
  let s := setSelectedId None s in
  let s := setSelectedIds NumSet.empty s in
  let s := setSelectedEdgeIds NumSet.empty s in
  set_freshTyping true s.

Definition selectFromArray (ids : list Z) (s : State) : State :=
  let s := setSelectedId (hd_error ids) s in
  let s := setSelectedIds (NumSet.of_list ids) s in
  let s := setSelectedEdgeIds NumSet.empty s in
  set_freshTyping true s.

(** ** Structural queries ([src/App.tsx] l.414-432) *)

Definition find_node (ns : list MindNode) (i : Z) : option MindNode :=
  find (fun n => (id n =? i)%Z) ns.

Definition getParentId (es : list Link) (childId : Z) : option Z :=
  match find (fun ed => (target ed =? childId)%Z) es with
  | Some e => Some (source e)
  | None => None
  end.

Fixpoint insert_sorted (a : Z) (l : list Z) : list Z :=
  match l with
  | [] => [a]
  | b :: t => if (a <=? b)%Z then a :: l else b :: insert_sorted a t
  end.

(** [.sort((a, b) => a - b)]. *)
Definition sort_asc (l : list Z) : list Z := fold_right insert_sorted [] l.

Definition getChildrenOf (es : list Link) (parentId : Z) : list Z :=
  sort_asc (map target (filter (fun e => (source e =? parentId)%Z) es)).

(** The loop of [buildRootPath]:
    [while (cur != null) { up.push(cur); cur = getParentId(cur); }].
    Nothing bounds the number of turns, so the model counts them down from
    [fuel]; [None] means that [fuel] turns were not enough. *)
Fixpoint rootPath_loop (fuel : nat) (es : list Link) (cur : option Z)
    (up : list Z) : option (list Z) :=
  match cur with
  | None => Some up
  | Some c =>
      match fuel with
      | O => None
      | S k => rootPath_loop k es (getParentId es c) (up ++ [c])
      end
  end.

Definition buildRootPath (fuel : nat) (es : list Link) (startId : Z)
    : option (list Z) :=
  option_map (@rev Z) (rootPath_loop fuel es (Some startId) []).

(** ** History ([src/App.tsx] l.449-485) *)

Definition snapshot (r : Render) : Snapshot :=
  mkSnapshot (nodes r) (edges r) (mkPoint (px (pan r)) (py (pan r))) (scale r)
    (selectedId r) (NumSet.to_list (selectedIds r))
    (NumSet.to_list (selectedEdgeIds r)).

(** [cloneSnapshot] copies a value through JSON; values are immutable
    here, so the copy is the value. *)
Definition cloneSnapshot (s : Snapshot) : Snapshot := s.

Definition pushHistory (r : Render) (s : State) : State :=
  on_refs (fun f =>
    with_redoStack (with_undoStack f (cloneSnapshot (snapshot r) :: undoStack f)) []) s.

Definition restore (sn : Snapshot) (s : State) : State :=
  let s := setNodes (fun _ => snap_nodes sn) s in
  let s := setEdges (fun _ => snap_edges sn) s in
  let s := setPan (snap_pan sn) s in
  let s := setScale (snap_scale sn) s in
  let s := setSelectedId (snap_selectedId sn) s in
  let s := setSelectedIds (NumSet.of_list (snap_selectedIds sn)) s in
  setSelectedEdgeIds (NumSet.of_list (snap_selectedEdgeIds sn)) s.

Definition undo (r : Render) (s : State) : State :=
  match undoStack (refs s) with
  | [] => s
  | sn :: rest =>
      let s := on_refs (fun f => with_undoStack f rest) s in
      let s := on_refs (fun f =>
        with_redoStack f (cloneSnapshot (snapshot r) :: redoStack f)) s in
      restore sn s
  end.

Definition redo (r : Render) (s : State) : State :=
  match redoStack (refs s) with
  | [] => s
  | sn :: rest =>
      let s := on_refs (fun f => with_redoStack f rest) s in
      let s := on_refs (fun f =>
        with_undoStack f (cloneSnapshot (snapshot r) :: undoStack f)) s in
      restore sn s
  end.

(** ** Placement ([src/App.tsx] l.125-145 and l.382-401) *)

Definition distPointToSeg (p_x p_y ax ay bx by_ : R) : R :=
  let vx := bx - ax in
  let vy := by_ - ay in
  let wx := p_x - ax in
  let wy := p_y - ay in
  let len2 := if Reqb (vx * vx + vy * vy) 0 then / 1000000 else vx * vx + vy * vy in
  let t := (wx * vx + wy * vy) / len2 in
  let t := Rmax 0 (Rmin 1 t) in
  let cx := ax + t * vx in
  let cy := ay + t * vy in
  hypot (p_x - cx) (p_y - cy).

Definition rectRadius (n : MindNode) : R := Q2R (JsNum.max (w n) (h n)) / 2.

Definition NODE_PADDING : R := 8.
Definition EDGE_PADDING : R := 6.
Definition newR : R := Q2R (JsNum.max BASE_W BASE_H) / 2.

(** [isPositionFree(x, y, parentId?)]; [parentId] is [None] when the
    argument is not given. *)
Definition node_blocks (p_x p_y : R) (parentId : option Z) (n : MindNode) : bool :=
  match parentId with
  | Some p => if (id n =? p)%Z then false
              else Rltb (hypot (x n - p_x) (y n - p_y)) (rectRadius n + newR + NODE_PADDING)
  | None => Rltb (hypot (x n - p_x) (y n - p_y)) (rectRadius n + newR + NODE_PADDING)
  end.

Definition edge_blocks (ns : list MindNode) (p_x p_y : R) (parentId : option Z)
    (e : Link) : bool :=
  let skipped :=
    match parentId with
    | Some p => truthy_id p && ((source e =? p)%Z || (target e =? p)%Z)
    | None => false
    end in
  if skipped then false
  else
    match find_node ns (source e), find_node ns (target e) with
    | Some s, Some t =>
        Rltb (distPointToSeg p_x p_y (x s) (y s) (x t) (y t)) (newR + EDGE_PADDING)
    | _, _ => false
    end.

Definition isPositionFree (ns : list MindNode) (es : list Link) (p_x p_y : R)
    (parentId : option Z) : bool :=
  negb (existsb (node_blocks p_x p_y parentId) ns)
  && negb (existsb (edge_blocks ns p_x p_y parentId) es).

(** [nodes.length ? Math.max(...nodes.map(n => n.id)) + 1 : 1]. *)
Definition max_id (ns : list MindNode) : Z :=
  match map id ns with
  | [] => 0
  | a :: t => fold_left Z.max t a
  end.

Definition next_id (ns : list MindNode) : Z :=
  match ns with
  | [] => 1
  | _ => max_id ns + 1
  end.

(** What an event finds outside the state: the clock ([Date.now()]), the
    size of the drawing surface ([svgRef.current] and its bounding
    rectangle; [None] while the surface is not mounted) and the number of
    turns the two unbounded loops of the code may take. *)
Record Env := mkEnv {
  now : Z;
  svg : option (R * R);
  fuel : nat
}.

(** The golden-angle search of [addChild] ([src/App.tsx] l.557-563):
    [k] turns are left, [i] is the loop counter, [(x0, y0)] the position
    of the parent and [(cx, cy)] the current value of [x] and [y]. *)
Fixpoint child_search (free : R -> R -> bool) (x0 y0 : R) (k i : nat)
    (angle radius cx cy : R) : R * R :=
  match k with
  | O => (cx, cy)
  | S k' =>
      let nx := x0 + cos angle * radius in
      let ny := y0 + sin angle * radius in
      if free nx ny then (nx, ny)
      else child_search free x0 y0 k' (S i) (angle + GOLDEN_ANGLE)
             (if (i mod 8 =? 7)%nat then radius + 24 else radius) nx ny
  end.

Definition between (a b : Z) (ed : Link) : bool :=
  ((source ed =? a)%Z && (target ed =? b)%Z)
  || ((source ed =? b)%Z && (target ed =? a)%Z).

(** ** Documents read by import *)

Local Unset Elimination Schemes.

(** The value [JSON.parse] returns. *)
Inductive json :=
| JNull
| JBool (b : bool)
| JNum (q : Q)
| JStr (s : string)
| JArr (l : list json)
| JObj (fields : list (string * json)).

Local Set Elimination Schemes.

Module Json.

(** [v.k]: [None] is [undefined]; of a key written twice the last
    occurrence counts. *)
Definition get (k : string) (v : json) : option json :=
  match v with
  | JObj fs =>
      match find (fun kv => String.eqb (fst kv) k) (rev fs) with
      | Some kv => Some (snd kv)
      | None => None
      end
  | _ => None
  end.

Definition get' (k : string) (v : option json) : option json :=
  match v with Some o => get k o | None => None end.

(** A value used as a condition. *)
Definition truthy (v : option json) : bool :=
  match v with
  | None | Some JNull => false
  | Some (JBool b) => b
  | Some (JNum q) => negb (Qeq_bool q 0)
  | Some (JStr s) => JsString.truthy s
  | Some (JArr _) | Some (JObj _) => true
  end.

Definition isArray (v : option json) : bool :=
  match v with Some (JArr _) => true | _ => false end.

(** [typeof v === "number"]. *)
Definition isNumber (v : option json) : bool :=
  match v with Some (JNum _) => true | _ => false end.

(** The code casts what it reads to its TypeScript types without a
    check.  The casts are modelled by reading a field of the declared
    type; a field that is absent or of another type, which has no
    counterpart in the typed state, reads as the neutral value of its
    type. *)
Definition as_R (v : option json) : R :=
  match v with Some (JNum q) => Q2R q | _ => 0 end.
Definition as_Q (v : option json) : Q :=
  match v with Some (JNum q) => q | _ => 0%Q end.
Definition as_Z (v : option json) : Z :=
  match v with Some (JNum q) => Qfloor q | _ => 0%Z end.
Definition as_string (v : option json) : string :=
  match v with Some (JStr s) => s | _ => ""%string end.
Definition as_bool (v : option json) : bool :=
  match v with Some (JBool b) => b | _ => false end.
Definition opt_string (v : option json) : option string :=
  match v with Some (JStr s) => Some s | _ => None end.
Definition opt_bool (v : option json) : option bool :=
  match v with Some (JBool b) => Some b | _ => None end.
Definition opt_Z (v : option json) : option Z :=
  match v with Some (JNum q) => Some (Qfloor q) | _ => None end.
Definition as_list (v : option json) : list json :=
  match v with Some (JArr l) => l | _ => [] end.

Definition as_node (v : json) : MindNode :=
  mkNode (as_Z (get "id" v)) (as_string (get "label" v))
    (as_R (get "x" v)) (as_R (get "y" v))
    (as_Q (get "w" v)) (as_Q (get "h" v))
    (as_string (get "strokeColor" v)) (opt_string (get "fillColor" v))
    (opt_bool (get "bold" v)).

Definition as_link (v : json) : Link :=
  mkLink (as_Z (get "id" v)) (as_Z (get "source" v)) (as_Z (get "target" v))
    (opt_string (get "label" v)) (opt_bool (get "dashed" v))
    (opt_bool (get "arrow" v)).

Definition as_point (v : option json) : Point :=
  mkPoint (as_R (get' "x" v)) (as_R (get' "y" v)).

(** [new Set(v ?? [])] on a value of the document: the members, or
    [None] when the constructor throws because the value cannot be
    iterated (a number, a boolean, an object).  [undefined] and [null]
    give way to [[]]; a string is iterated by its characters.  A member
    that is not a number reads as the neutral value, like the casts
    above. *)
Definition set_arg (v : option json) : option (list Z) :=
  match v with
  | None | Some JNull => Some []
  | Some (JArr l) => Some (map (fun j => as_Z (Some j)) l)
  | Some (JStr s) => Some (map (fun _ => 0%Z) (list_ascii_of_string s))
  | Some (JBool _) | Some (JNum _) | Some (JObj _) => None
  end.

End Json.

Module App.

(** [ensureEdge] ([src/App.tsx] l.403-412). *)
Definition ensureEdge (r : Render) (e : Env) (a b : Z) (isArrow : bool)
    (s : State) : State :=
  if (a =? b)%Z then s
  else if existsb (between a b) (edges r) then s
  else setEdges (fun es => es ++ [mkLink (now e) a b None None (Some isArrow)]) s.

(** [addChild] ([src/App.tsx] l.549-572).  The camera nudge it leaves to
    a timer is a later [Camera] event. *)
Definition addChild (r : Render) (e : Env) (parentId : Z) (s : State)
    : State * Z :=
  match find_node (nodes r) parentId with
  | None => (s, parentId)
  | Some parent =>
      let s := pushHistory r s in
      let newId := next_id (nodes r) in
      let angle := INR (List.length (getChildrenOf (edges r) parentId)) * GOLDEN_ANGLE in
      let (cx, cy) :=
        child_search
          (fun a b => isPositionFree (nodes r) (edges r) a b (Some parentId))
          (x parent) (y parent) 96 0 angle CHILD_RADIUS (x parent) (y parent) in
      let child :=
        mkNode newId "" cx cy BASE_W BASE_H (strokeColor parent)
          (fillColor parent) (Some false) in
      let s := setNodes (fun ns => ns ++ [child]) s in
      let s := setEdges
        (fun es => es ++ [mkLink (now e) parentId newId None None (Some false)]) s in
      (s, newId)
  end.

(** The loop [while(!isPositionFree(x,y)) { x+=20; y+=20; }] of
    [addStandalone] ([src/App.tsx] l.540), [k] turns left. *)
Fixpoint diagonal_search (free : R -> R -> bool) (k : nat) (cx cy : R)
    : option (R * R) :=
  if free cx cy then Some (cx, cy)
  else
    match k with
    | O => None
    | S k' => diagonal_search free k' (cx + 20) (cy + 20)
    end.

(** [addStandalone] ([src/App.tsx] l.528-548).  With a point the point
    is taken as it is ("Placement logic omitted"); without one the
    search runs along the diagonal.  [None]: the loop did not end
    within [fuel e] turns. *)
Definition addStandalone (r : Render) (e : Env) (at_ : option Point)
    (s : State) : option (State * Z) :=
  let s := pushHistory r s in
  let newId := next_id (nodes r) in
  let place (cx cy : R) :=
    let node := mkNode newId "" cx cy BASE_W BASE_H "#333" None (Some false) in
    Some (setNodes (fun ns => ns ++ [node]) s, newId) in
  match at_ with
  | Some p => place (px p) (py p)
  | None =>
      match svg e with
      | None => Some (s, 1%Z)
      | Some (width, height) =>
          match diagonal_search
                  (fun a b => isPositionFree (nodes r) (edges r) a b None)
                  (fuel e)
                  ((width / 2 - px (pan r)) / scale r)
                  ((height / 2 - py (pan r)) / scale r) with
          | Some (cx, cy) => place cx cy
          | None => None
          end
      end
  end.

Definition addSiblingOf (r : Render) (e : Env) (nodeId : Z) (s : State)
    : option (State * Z) :=
  match getParentId (edges r) nodeId with
  | Some parentId => Some (addChild r e parentId s)
  | None => addStandalone r e None s
  end.

(** [removeEdges] and [removeNodes] ([src/App.tsx] l.579-593). *)
Definition removeEdges (r : Render) (ids : list Z) (s : State) : State :=
  match ids with
  | [] => s
  | _ =>
      let s := pushHistory r s in
      let del := NumSet.of_list ids in
      let s := setEdges (filter (fun e => negb (NumSet.has (link_id e) del))) s in
      setSelectedEdgeIds NumSet.empty s
  end.

Definition removeNodes (r : Render) (ids : list Z) (s : State) : State :=
  match ids with
  | [] => s
  | _ =>
      let s := pushHistory r s in
      let del := NumSet.of_list ids in
      let s := setNodes (filter (fun n => negb (NumSet.has (id n) del))) s in
      let s := setEdges
        (filter (fun e => negb (NumSet.has (source e) del)
                          && negb (NumSet.has (target e) del))) s in
      clearSelection s
  end.


(** [restore(snap)] on the snapshot that [importFromText] builds from
    the document [raw] ([src/App.tsx] l.457-466 and l.505-509).  The two
    selections are handed to [new Set] as the document has them: when that
    throws, the setters called before it have done their work and the ones
    after it are not reached.  The result says whether it threw. *)
Definition restore_document (raw : json) (s : State) : State * bool :=
  let s := setNodes (fun _ => map Json.as_node (Json.as_list (Json.get "nodes" raw))) s in
  let s := setEdges (fun _ => map Json.as_link (Json.as_list (Json.get "edges" raw))) s in
  let s := setPan (Json.as_point (Json.get "pan" raw)) s in
  let s := setScale (Json.as_R (Json.get "scale" raw)) s in
  let s := setSelectedId (Json.opt_Z (Json.get "selectedId" raw)) s in
  match Json.set_arg (Json.get "selectedIds" raw) with
  | None => (s, true)
  | Some ids =>
      let s := setSelectedIds (NumSet.of_list ids) s in
      match Json.set_arg (Json.get "selectedEdgeIds" raw) with
      | None => (s, true)
      | Some eids => (setSelectedEdgeIds (NumSet.of_list eids) s, false)
      end
  end.

(** [importFromText] ([src/App.tsx] l.501-515).  [parsed] is what
    [JSON.parse(text)] gives: a value, or [None] when it throws.  The
    [catch] is empty, so an exception of [restore] ends the import where
    it is. *)
Definition importFromText (parsed : option json) (s : State) : State :=
  match parsed with
  | None => s
  | Some raw =>
      if negb (Json.truthy (Some raw))
         || negb (Json.isArray (Json.get "nodes" raw))
         || negb (Json.isArray (Json.get "edges" raw))
      then s
      else
        let ns := map Json.as_node (Json.as_list (Json.get "nodes" raw)) in
        let es := map Json.as_link (Json.as_list (Json.get "edges" raw)) in
        if Json.truthy (Json.get "pan" raw) then fst (restore_document raw s)
        else
          let s := setNodes (fun _ => ns) s in
          let s := setEdges (fun _ => es) s in
          let s := setPan (mkPoint 0 0) s in
          let s := setScale 1 s in
          clearSelection s
  end.

(** [bringBoxIntoView] ([src/App.tsx] l.328-350), with [toScreen]
    inlined. *)
Definition bringBoxIntoView (r : Render) (e : Env) (cx cy bw bh : R)
    (s : State) : State :=
  match svg e with
  | None => s
  | Some (width, height) =>
      let margin := 24 in
      let left_x := px (pan r) + (cx - bw / 2) * scale r in
      let left_y := py (pan r) + (cy - bh / 2) * scale r in
      let right_x := px (pan r) + (cx + bw / 2) * scale r in
      let right_y := py (pan r) + (cy + bh / 2) * scale r in
      let newPanX := px (pan r) in
      let newPanY := py (pan r) in
      let newPanX := if Rltb left_x margin then newPanX + (margin - left_x) else newPanX in
      let newPanX := if Rltb (width - margin) right_x
                     then newPanX - (right_x - (width - margin)) else newPanX in
      let newPanY := if Rltb left_y margin then newPanY + (margin - left_y) else newPanY in
      let newPanY := if Rltb (height - margin) right_y
                     then newPanY - (right_y - (height - margin)) else newPanY in
      if negb (Reqb newPanX (px (pan r))) || negb (Reqb newPanY (py (pan r)))
      then setPan (mkPoint newPanX newPanY) s
      else s
  end.

Definition show_node (r : Render) (e : Env) (i : Z) (s : State) : State :=
  match find_node (nodes r) i with
  | Some n => bringBoxIntoView r e (x n) (y n) (Q2R (w n)) (Q2R (h n)) s
  | None => s
  end.

(** [isPointInNode] and [findNodeAt] ([src/App.tsx] l.438-447). *)
Definition isPointInNode (n : MindNode) (p_x p_y : R) : bool :=
  Rleb (Rabs (p_x - x n)) (Q2R (w n) / 2) && Rleb (Rabs (p_y - y n)) (Q2R (h n) / 2).

Definition findNodeAt (ns : list MindNode) (p_x p_y : R) (excludeId : option Z)
    : option Z :=
  let excluded n :=
    match excludeId with
    | Some ex => truthy_id ex && (id n =? ex)%Z
    | None => false
    end in
  match find (fun n => negb (excluded n) && isPointInNode n p_x p_y) ns with
  | Some n => Some (id n)
  | None => None
  end.

(** The modifier keys of an event; [ctrl] is [ctrlKey || metaKey]. *)
Record Mods := mkMods { shift : bool; ctrl : bool; alt : bool }.

Definition is_idle (p : Phase) : bool :=
  match p with idle => true | _ => false end.

Definition some (o : option Z) : bool :=
  match o with Some _ => true | None => false end.

(** The positions [onPointerDownNode] records for a group drag; [None]
    when a selected identifier has no node (the [!] of the code then
    fails). *)
Fixpoint start_positions (ns : list MindNode) (ids : list Z)
    : option (list (Z * (R * R))) :=
  match ids with
  | [] => Some []
  | nid :: rest =>
      match find_node ns nid, start_positions ns rest with
      | Some n, Some ps => Some ((nid, (x n, y n)) :: ps)
      | _, _ => None
      end
  end.

(** [onPointerDownNode] ([src/App.tsx] l.596-660); [(wx, wy)] is the
    pointer in world coordinates ([toWorld]).  Where a [!] of the code
    fails the handler stops with what it has done so far. *)
Definition onPointerDownNode (r : Render) (e : Env) (m : Mods) (wx wy : R)
    (i : Z) (s : State) : State :=
  if some (editingId r) then s
  else if shift m && negb (ctrl m) then
    let start_link (s : State) :=
      let s := selectOnly r i s in
      match find_node (nodes r) i with
      | Some src =>
          setLinking (fun _ => mkLinking pending (Some i) (x src) (y src) (x src) (y src)) s
      | None => s
      end in
    match selectedId r with
    | Some sel =>
        if negb (sel =? i)%Z then
          let s :=
            match find (between sel i) (edges r) with
            | Some existingEdge =>
                removeEdges r [link_id existingEdge] (pushHistory r s)
            | None => ensureEdge r e sel i false (pushHistory r s)
            end in
          selectOnly r i s
        else start_link s
    | None => start_link s
    end
  else if negb (is_idle (phase (linking r))) then s
  else if ctrl m then
    let prev := selectedIds (ui s) in
    let next := if NumSet.has i prev then NumSet.delete i prev else NumSet.add i prev in
    let s := setSelectedId (hd_error (NumSet.to_list next)) s in
    let s := setSelectedEdgeIds NumSet.empty s in
    let s := set_freshTyping true s in
    setSelectedIds next s
  else
    let wasInSelection := NumSet.has i (selectedIds r) in
    let s := set_freshTyping true s in
    let s := if wasInSelection then s else selectOnly r i s in
    if (1 <? NumSet.size (selectedIds r))%nat then
      let s := on_refs (fun f => with_groupDragging f true) s in
      let s := on_refs (fun f => with_groupStart f (mkPoint wx wy)) s in
      match start_positions (nodes r) (NumSet.to_list (selectedIds r)) with
      | Some ps => on_refs (fun f => with_groupStartPositions f ps) s
      | None => s
      end
    else
      let s := on_refs (fun f => with_draggingNodeId f (Some i)) s in
      match find_node (nodes r) i with
      | Some node =>
          let s := on_refs (fun f => with_dragOffset f (x node - wx, y node - wy)) s in
          on_refs (fun f => with_somethingMoved f false) s
      | None => s
      end.

Definition lookup_position (ps : list (Z * (R * R))) (i : Z) : option (R * R) :=
  match find (fun p => (fst p =? i)%Z) (rev ps) with
  | Some p => Some (snd p)
  | None => None
  end.

(** The updater of a group drag ([src/App.tsx] l.698):
    [prev.map(n => selectedIds.has(n.id)
       ? { ...n, x: posMap.get(n.id)!.x + dx, y: posMap.get(n.id)!.y + dy } : n)].
    [None]: a selected node has no entry in [posMap], the [!] fails and the
    updater throws. *)
Fixpoint move_group (sel : NumSet.t) (posMap : list (Z * (R * R))) (dx dy : R)
    (ns : list MindNode) : option (list MindNode) :=
  match ns with
  | [] => Some []
  | n :: rest =>
      let moved :=
        if NumSet.has (id n) sel then
          match lookup_position posMap (id n) with
          | Some (x0, y0) => Some (set_pos n (x0 + dx) (y0 + dy))
          | None => None
          end
        else Some n in
      match moved, move_group sel posMap dx dy rest with
      | Some n', Some rest' => Some (n' :: rest')
      | _, _ => None
      end
  end.

(** [onPointerMoveSvg] ([src/App.tsx] l.675-713) without its camera
    branch.  [None]: the updater of the group drag throws while React
    renders, which ends the application. *)
Definition onPointerMoveSvg (r : Render) (wx wy : R) (s : State) : option State :=
  if marquee_active (marquee r) then
    Some (setMarquee (fun m => mkMarquee (marquee_active m) (x1 m) (y1 m) wx wy) s)
  else if negb (is_idle (phase (linking r))) then
    let thresholdWorld := DRAG_THRESHOLD / scale r in
    let moved :=
      Rltb thresholdWorld
        (hypot (wx - startX (linking r)) (wy - startY (linking r))) in
    match phase (linking r) with
    | pending =>
        if moved
        then Some (setLinking
                     (fun l => mkLinking active (sourceId l) wx wy (startX l) (startY l)) s)
        else Some s
    | _ =>
        Some (setLinking
                (fun l => mkLinking (phase l) (sourceId l) wx wy (startX l) (startY l)) s)
    end
  else if groupDragging (refs s) then
    let s := on_refs (fun f => with_somethingMoved f true) s in
    let dx := wx - px (groupStart (refs s)) in
    let dy := wy - py (groupStart (refs s)) in
    let posMap := groupStartPositions (refs s) in
    match move_group (selectedIds r) posMap dx dy (nodes (ui s)) with
    | Some ns => Some (setNodes (fun _ => ns) s)
    | None => None
    end
  else
    match draggingNodeId (refs s) with
    | Some i =>
        let off := dragOffset (refs s) in
        let s := setNodes
          (map (fun n => if (id n =? i)%Z
                         then set_pos n (wx + fst off) (wy + snd off) else n)) s in
        Some (on_refs (fun f => with_somethingMoved f true) s)
    | None => Some s
    end.

Definition in_marquee (m : Marquee) (n : MindNode) : bool :=
  let minX := Rmin (x1 m) (x2 m) in
  let maxX := Rmax (x1 m) (x2 m) in
  let minY := Rmin (y1 m) (y2 m) in
  let maxY := Rmax (y1 m) (y2 m) in
  Rleb minX (x n) && Rleb (x n) maxX && Rleb minY (y n) && Rleb (y n) maxY.

(** [onPointerUpSvg] ([src/App.tsx] l.715-744), also the handler of
    [onPointerLeave]. *)
Definition onPointerUpSvg (r : Render) (e : Env) (s : State) : State :=
  let s :=
    if marquee_active (marquee r) then
      let ids := map id (filter (in_marquee (marquee r)) (nodes r)) in
      let s := selectFromArray ids s in
      setMarquee (fun _ => no_marquee) s
    else s in
  let s :=
    match phase (linking r), sourceId (linking r) with
    | idle, _ | _, None => s
    | _, Some src =>
        let s :=
          match findNodeAt (nodes r) (link_x (linking r)) (link_y (linking r)) (Some src) with
          | Some targetId =>
              if truthy_id targetId then
                let s :=
                  if existsb (between src targetId) (edges r) then s
                  else
                    let s := pushHistory r s in
                    let isDrag := match phase (linking r) with active => true | _ => false end in
                    setEdges (fun es => es ++ [mkLink (now e) src targetId None None (Some isDrag)]) s in
                selectOnly r targetId s
              else s
          | None => s
          end in
        setLinking (fun _ => idle_linking) s
    end in
  let s := if somethingMoved (refs s) then pushHistory r s else s in
  let s := on_refs (fun f => with_draggingNodeId f None) s in
  let s := on_refs (fun f => with_groupDragging f false) s in
  on_refs (fun f => with_somethingMoved f false) s.

(** [onPointerDownBg] ([src/App.tsx] l.946-954). *)
Definition onPointerDownBg (r : Render) (m : Mods) (wx wy : R) (s : State)
    : State :=
  let s := if some (editingId r) then setEditingId None s else s in
  if negb (is_idle (phase (linking r))) then s
  else if shift m then setMarquee (fun _ => mkMarquee true wx wy wx wy) s
  else set_freshTyping true (clearSelection s).

(** [onEdgePointerDown] and the context menu of an edge
    ([src/App.tsx] l.1046-1056). *)
Definition onEdgePointerDown (m : Mods) (edgeId : Z) (s : State) : State :=
  let s := setSelectedIds NumSet.empty s in
  let s := setSelectedId None s in
  let prev := selectedEdgeIds (ui s) in
  let next :=
    if shift m
    then (if NumSet.has edgeId prev then NumSet.delete edgeId prev
          else NumSet.add edgeId prev)
    else NumSet.add edgeId NumSet.empty in
  let s := setSelectedEdgeIds next s in
  set_freshTyping true s.

Definition onEdgeContextMenu (edgeId : Z) (s : State) : State :=
  let s := setSelectedIds NumSet.empty s in
  let s := setSelectedId None s in
  setSelectedEdgeIds (NumSet.of_list [edgeId]) s.

(** Double click and context menu on a node ([src/App.tsx] l.1085). *)
Definition onDoubleClickNode (r : Render) (i : Z) (s : State) : State :=
  set_freshTyping true (selectOnly r i s).

Definition onNodeContextMenu (r : Render) (i : Z) (s : State) : State :=
  if NumSet.has i (selectedIds r) then s else selectOnly r i s.

(** *** Directional navigation ([src/App.tsx] l.812-852) *)

Record Cand := mkCand { cand_id : Z; dist : R; angle : R }.

Definition DEG : R := PI / 180.

(** The candidate a node contributes, if any. *)
Definition candidate (sel : Z) (cur : MindNode) (ux uy : R) (n : MindNode)
    : option Cand :=
  if (id n =? sel)%Z then None
  else
    let vx := x n - x cur in
    let vy := y n - y cur in
    let dist := hypot vx vy in
    if Reqb dist 0 then None
    else
      let dot := vx * ux + vy * uy in
      if Rleb dot 0 then None
      else
        let cos := dot / dist in
        Some (mkCand (id n) dist (acos (Rmax (-1) (Rmin 1 cos)))).

Definition candidates (ns : list MindNode) (sel : Z) (cur : MindNode)
    (dir_x dir_y : R) : list Cand :=
  let len := if Reqb (hypot dir_x dir_y) 0 then 1 else hypot dir_x dir_y in
  let ux := dir_x / len in
  let uy := dir_y / len in
  flat_map (fun n => match candidate sel cur ux uy n with
                     | Some c => [c]
                     | None => []
                     end) ns.

(** The test by which a candidate replaces the best one so far. *)
Definition beats (c best : Cand) : bool :=
  Rltb (dist c) (dist best - 1 / 1000)
  || (Rleb (Rabs (dist c - dist best)) (1 / 1000) && Rltb (angle c) (angle best)).

Definition pick_step (maxAngleRad : R) (best : option Cand) (c : Cand)
    : option Cand :=
  if Rltb maxAngleRad (angle c) then best
  else
    match best with
    | None => Some c
    | Some b => if beats c b then Some c else best
    end.

Definition pickWithin (cands : list Cand) (maxAngleRad : R) : option Cand :=
  fold_left (pick_step maxAngleRad) cands None.

(** [candidates.reduce((acc, c) => (c.angle < acc.angle ? c : acc))]. *)
Definition smallest_angle (c0 : Cand) (rest : list Cand) : Cand :=
  fold_left (fun acc c => if Rltb (angle c) (angle acc) then c else acc) rest c0.

(** The candidate the arrow key moves to. *)
Definition pick (cands : list Cand) : option Cand :=
  match cands with
  | [] => None
  | c0 :: rest =>
      match pickWithin cands (30 * DEG) with
      | Some b => Some b
      | None =>
          match pickWithin cands (60 * DEG) with
          | Some b => Some b
          | None => Some (smallest_angle c0 rest)
          end
      end
  end.

Inductive Key :=
| KChar (c : ascii)
| ArrowUp | ArrowDown | ArrowLeft | ArrowRight
| Tab | Delete | Backspace | Enter
| KOther.

Definition is_arrow (k : Key) : bool :=
  match k with ArrowUp | ArrowDown | ArrowLeft | ArrowRight => true | _ => false end.

Definition direction (k : Key) : R * R :=
  match k with
  | ArrowUp => (0, -1)
  | ArrowDown => (0, 1)
  | ArrowLeft => (-1, 0)
  | _ => (1, 0)
  end.

(** The node the arrow key [k] selects, if any. *)
Definition nav_target (r : Render) (k : Key) : option Z :=
  match selectedId r with
  | None => None
  | Some sel =>
      match find_node (nodes r) sel with
      | None => None
      | Some cur =>
          let (dx, dy) := direction k in
          option_map cand_id (pick (candidates (nodes r) sel cur dx dy))
      end
  end.

Definition navigate (r : Render) (e : Env) (k : Key) (s : State) : State :=
  match nav_target r k with
  | Some best => show_node r e best (selectOnly r best s)
  | None => s
  end.

(** *** The keyboard ([src/App.tsx] l.751-944) *)

Definition is_char (k : Key) (c1 c2 : string) : bool :=
  match k with
  | KChar c => String.eqb (String c "") c1 || String.eqb (String c "") c2
  | _ => false
  end.

Definition is_key (k1 k2 : Key) : bool :=
  match k1, k2 with
  | Tab, Tab | Delete, Delete | Backspace, Backspace | Enter, Enter => true
  | _, _ => false
  end.

(** [t.slice(0, Math.max(0, t.length - 1))]. *)
Definition drop_last (t : string) : string :=
  substring 0 (String.length t - 1) t.

(** An optional flag used as a condition: absent counts as [false]. *)
Definition flag (o : option bool) : bool :=
  match o with Some b => b | None => false end.

(** [{ ...n, bold: !n.bold }] on the nodes of [ids]. *)
Definition toggle_bold (ids : list Z) (n : MindNode) : MindNode :=
  if NumSet.mem (id n) ids then set_bold n (Some (negb (flag (bold n)))) else n.

Definition with_link_label (ed : Link) (l : option string) : Link :=
  mkLink (link_id ed) (source ed) (target ed) l (dashed ed) (arrow ed).

Definition or_empty (o : option string) : string :=
  match o with
  | Some t => t
  | None => ""
  end.

(** Paste: [stamp k] is the number [Date.now() + Math.random()] drawn
    for the [k]-th edge, read as an identifier.  An end point that the
    identifier map does not hold ([undefined] in the code) reads as
    [0]. *)
Definition map_get (idMap : list (Z * Z)) (i : Z) : Z :=
  match find (fun p => (fst p =? i)%Z) (rev idMap) with
  | Some p => snd p
  | None => 0
  end.

Fixpoint paste_nodes (currentMax : Z) (ns : list MindNode)
    : list MindNode * list (Z * Z) :=
  match ns with
  | [] => ([], [])
  | n :: rest =>
      let newId := (currentMax + 1)%Z in
      let (ns', idMap) := paste_nodes newId rest in
      (mkNode newId (label n) (x n + 20) (y n + 20) (w n) (h n)
         (strokeColor n) (fillColor n) (bold n) :: ns',
       (id n, newId) :: idMap)
  end.

Fixpoint paste_edges (stamp : nat -> Z) (k : nat) (idMap : list (Z * Z))
    (es : list Link) : list Link :=
  match es with
  | [] => []
  | ed :: rest =>
      mkLink (stamp k) (map_get idMap (source ed)) (map_get idMap (target ed))
        (link_label ed) (dashed ed) (arrow ed)
      :: paste_edges stamp (S k) idMap rest
  end.

Definition paste (r : Render) (stamp : nat -> Z) (s : State) : State :=
  match clipboard r with
  | None => s
  | Some clip =>
      let s := pushHistory r s in
      let maxId := match nodes r with [] => 0%Z | _ => max_id (nodes r) end in
      let (newNodes, idMap) := paste_nodes maxId (clip_nodes clip) in
      let newEdges := paste_edges stamp 0 idMap (clip_edges clip) in
      let s := setNodes (fun prev => prev ++ newNodes) s in
      let s := setEdges (fun prev => prev ++ newEdges) s in
      selectFromArray (map id newNodes) s
  end.

Definition copy (r : Render) (s : State) : State :=
  if (0 <? NumSet.size (selectedIds r))%nat then
    setClipboard
      (Some (mkClipboard
         (filter (fun n => NumSet.has (id n) (selectedIds r)) (nodes r))
         (filter (fun ed => NumSet.has (source ed) (selectedIds r)
                            && NumSet.has (target ed) (selectedIds r)) (edges r)))) s
  else s.

(** Shift+Tab ([src/App.tsx] l.855-871); [None]: [buildRootPath] did
    not end within [fuel e] turns. *)
Definition shift_tab (r : Render) (e : Env) (sel : Z) (s : State)
    : option State :=
  let known :=
    match shiftTabPath (refs s) with
    | Some p => NumSet.mem sel p
    | None => false
    end in
  let built :=
    if known then Some s
    else
      match buildRootPath (fuel e) (edges r) sel with
      | Some path =>
          Some (on_refs (fun f =>
            with_shiftTabIndex (with_shiftTabPath f (Some path))
              (Z.of_nat (List.length path) - 1)) s)
      | None => None
      end in
  match built with
  | None => None
  | Some s =>
      let path := match shiftTabPath (refs s) with Some p => p | None => [] end in
      let idx := shiftTabIndex (refs s) in
      let go (idx : Z) :=
        let s := on_refs (fun f => with_shiftTabIndex f idx) s in
        match nth_error path (Z.to_nat idx) with
        | Some nextId => Some (show_node r e nextId (selectOnly r nextId s))
        | None => Some s
        end in
      if (0 <? idx)%Z then go (idx - 1)%Z
      else if (idx <? Z.of_nat (List.length path) - 1)%Z then go (idx + 1)%Z
      else Some s
  end.

Definition tab (r : Render) (e : Env) (sel : Z) (s : State) : State :=
  match prevSelectedId (refs s) with
  | None => s
  | Some prevId =>
      if (prevId =? sel)%Z then s
      else if negb (existsb (fun n => (id n =? prevId)%Z) (nodes r)) then s
      else show_node r e prevId (selectOnly r prevId s)
  end.

Record KeyEvent := mkKey { key : Key; mods : Mods }.

(** The [keydown] handler.  [stamp] feeds paste. *)
Definition onKeyDown (r : Render) (e : Env) (stamp : nat -> Z) (ev : KeyEvent)
    (s : State) : option State :=
  let k := key ev in
  let m := mods ev in
  let hasNodeSel := (0 <? NumSet.size (selectedIds r))%nat in
  let hasEdgeSel := (0 <? NumSet.size (selectedEdgeIds r))%nat in
  let single := some (selectedId r) && (NumSet.size (selectedIds r) =? 1)%nat in
  let sel := match selectedId r with Some i => i | None => 0%Z end in
  if some (editingId r) then Some s
  else if ctrl m && negb (shift m) && is_char k "z" "Z" then Some (undo r s)
  else if ctrl m && (is_char k "y" "y" || (shift m && is_char k "Z" "z")) then
    Some (redo r s)
  else if ctrl m && is_char k "b" "B" then
    let ids := NumSet.to_list (selectedIds r) in
    match ids with
    | [] => Some s
    | _ => Some (setNodes (map (toggle_bold ids)) (pushHistory r s))
    end
  else if ctrl m && is_char k "c" "C" then Some (copy r s)
  else if ctrl m && is_char k "v" "V" then Some (paste r stamp s)
  else if is_arrow k && some (selectedId r) then Some (navigate r e k s)
  else if is_key k Tab && shift m && single then shift_tab r e sel s
  else if is_key k Tab && negb (shift m) && single then Some (tab r e sel s)
  else if is_key k Delete then
    if hasNodeSel then Some (removeNodes r (NumSet.to_list (selectedIds r)) s)
    else if hasEdgeSel then Some (removeEdges r (NumSet.to_list (selectedEdgeIds r)) s)
    else Some s
  else if is_key k Backspace && hasEdgeSel && negb hasNodeSel then
    Some (setEdges
            (map (fun ed =>
                    if NumSet.has (link_id ed) (selectedEdgeIds r)
                    then with_link_label ed (Some (drop_last (or_empty (link_label ed))))
                    else ed))
            (pushHistory r s))
  else if is_key k Backspace && (1 <? NumSet.size (selectedIds r))%nat then
    Some (removeNodes r (NumSet.to_list (selectedIds r)) s)
  else if is_key k Backspace && (NumSet.size (selectedIds r) =? 1)%nat then
    let first := hd 0%Z (NumSet.to_list (selectedIds r)) in
    Some (setNodes
            (map (fun n =>
                    if (id n =? first)%Z
                    then Layout.resizeNodeForLabel (set_label n (drop_last (label n)))
                    else n))
            (pushHistory r s))
  else
    match k with
    | KChar c =>
        if negb (ctrl m) && negb (alt m) && hasEdgeSel then
          let replaceAll := freshTyping (refs s) in
          let s := pushHistory r s in
          let s := setEdges
            (map (fun ed =>
                    if NumSet.has (link_id ed) (selectedEdgeIds r)
                    then with_link_label ed
                           (Some (if replaceAll then String c ""
                                  else (or_empty (link_label ed) ++ String c "")%string))
                    else ed)) s in
          Some (set_freshTyping false s)
        else if negb (ctrl m) && negb (alt m) && hasNodeSel then
          let replaceAll := freshTyping (refs s) in
          let ids := NumSet.to_list (selectedIds r) in
          let s := pushHistory r s in
          let s := setNodes
            (map (fun n =>
                    if NumSet.mem (id n) ids
                    then Layout.resizeNodeForLabel
                           (set_label n (if replaceAll then String c ""
                                         else (label n ++ String c "")%string))
                    else n)) s in
          Some (set_freshTyping false s)
        else Some s
    | Enter =>
        if single then
          if negb (shift m) then
            let (s, newId) := addChild r e sel s in
            Some (set_freshTyping true (selectOnly r newId s))
          else
            match addSiblingOf r e sel s with
            | Some (s, newId) => Some (set_freshTyping true (selectOnly r newId s))
            | None => None
            end
        else Some s
    | _ => Some s
    end.

(** *** The editing field and the context menu
        ([src/App.tsx] l.1095 and l.1107-1132) *)

Definition onEditChange (r : Render) (v : string) (s : State) : State :=
  let s := setEditingText v s in
  match editingId r with
  | Some ed =>
      let s := pushHistory r s in
      setNodes (map (fun nn => if (id nn =? ed)%Z
                               then Layout.resizeNodeForLabel (set_label nn v)
                               else nn)) s
  | None => s
  end.

Definition menuNewNode (r : Render) (e : Env) (at_ : option Point) (s : State)
    : option State :=
  match addStandalone r e at_ s with
  | Some (s, newId) => Some (selectOnly r newId s)
  | None => None
  end.

Definition menuRename (r : Render) (i : Z) (s : State) : State :=
  let s := setEditingId (Some i) s in
  setEditingText (match find_node (nodes r) i with
                  | Some n => label n
                  | None => ""%string
                  end) s.

Definition menuChild (r : Render) (e : Env) (i : Z) (s : State) : State :=
  let (s, newId) := addChild r e i s in
  selectOnly r newId s.

Definition menuHighlight (r : Render) (s : State) : State :=
  let s := pushHistory r s in
  setNodes (map (toggle_bold (NumSet.to_list (selectedIds r)))) s.

Definition menuToggleDashed (r : Render) (edgeId : Z) (s : State) : State :=
  let s := pushHistory r s in
  setEdges (map (fun ed =>
    if (link_id ed =? edgeId)%Z
    then mkLink (link_id ed) (source ed) (target ed) (link_label ed)
           (Some (negb (flag (dashed ed)))) (arrow ed)
    else ed)) s.

Definition menuToggleArrow (r : Render) (edgeId : Z) (s : State) : State :=
  let s := pushHistory r s in
  setEdges (map (fun ed =>
    if (link_id ed =? edgeId)%Z
    then mkLink (link_id ed) (source ed) (target ed) (link_label ed)
           (dashed ed) (Some (negb (flag (arrow ed))))
    else ed)) s.

(** [next] is what the user typed into the prompt. *)
Definition menuRenameEdge (r : Render) (edgeId : Z) (next : string) (s : State)
    : State :=
  let s := pushHistory r s in
  let l := JsString.trim next in
  setEdges (map (fun ed =>
    if (link_id ed =? edgeId)%Z
    then with_link_label ed (if JsString.truthy l then Some l else None)
    else ed)) s.

(** The effect that reads the stored document when the application
    starts ([src/App.tsx] l.292-302). *)
Definition loadStored (parsed : option json) (s : State) : State :=
  match parsed with
  | None => s
  | Some data =>
      if Json.isArray (Json.get "nodes" data) && Json.isArray (Json.get "edges" data)
      then
        let s := setNodes (fun _ => map Json.as_node (Json.as_list (Json.get "nodes" data))) s in
        setEdges (fun _ => map Json.as_link (Json.as_list (Json.get "edges" data))) s
      else s
  end.

(** *** Events *)

(** Every way in which the state changes.  [Camera] stands for the
    wheel, pinch and pan gestures and for the timers that call
    [bringBoxIntoView]: all they do is [setPan] and [setScale].
    Pointer positions are world coordinates. *)
Inductive Op :=
| PointerDownNode (m : Mods) (wx wy : R) (i : Z)
| PointerMove (wx wy : R)
| PointerUp
| PointerDownBg (m : Mods) (wx wy : R)
| EdgePointerDown (m : Mods) (edgeId : Z)
| EdgeContextMenu (edgeId : Z)
| DoubleClickNode (i : Z)
| NodeContextMenu (i : Z)
| KeyDown (closure : Render) (stamp : nat -> Z) (ev : KeyEvent)
| EditChange (v : string)
| EditEnd
| MenuNewNode (at_ : option Point)
| MenuRename (i : Z)
| MenuChild (i : Z)
| MenuHighlight
| MenuDelete (i : Z)
| MenuToggleDashed (edgeId : Z)
| MenuToggleArrow (edgeId : Z)
| MenuRenameEdge (edgeId : Z) (next : string)
| MenuDeleteEdge (edgeId : Z)
| Import (parsed : option json)
| LoadStored (parsed : option json)
| Camera (p : Point) (sc : R).

(** The handlers that JSX attaches are created by every render, so they
    run in the closure of the current one.  The [keydown] handler is
    installed by an effect (l.942-944) and runs in the closure [closure]
    of the render in which the effect last ran.  [None]: a loop of the
    handler did not end within [fuel e] turns, or an updater threw. *)
Definition step (e : Env) (op : Op) (s : State) : option State :=
  let r := ui s in
  match op with
  | PointerDownNode m wx wy i => Some (onPointerDownNode r e m wx wy i s)
  | PointerMove wx wy => onPointerMoveSvg r wx wy s
  | PointerUp => Some (onPointerUpSvg r e s)
  | PointerDownBg m wx wy => Some (onPointerDownBg r m wx wy s)
  | EdgePointerDown m edgeId => Some (onEdgePointerDown m edgeId s)
  | EdgeContextMenu edgeId => Some (onEdgeContextMenu edgeId s)
  | DoubleClickNode i => Some (onDoubleClickNode r i s)
  | NodeContextMenu i => Some (onNodeContextMenu r i s)
  | KeyDown closure stamp ev => onKeyDown closure e stamp ev s
  | EditChange v => Some (onEditChange r v s)
  | EditEnd => Some (setEditingId None s)
  | MenuNewNode at_ => menuNewNode r e at_ s
  | MenuRename i => Some (menuRename r i s)
  | MenuChild i => Some (menuChild r e i s)
  | MenuHighlight => Some (menuHighlight r s)
  | MenuDelete i => Some (removeNodes r [i] s)
  | MenuToggleDashed edgeId => Some (menuToggleDashed r edgeId s)
  | MenuToggleArrow edgeId => Some (menuToggleArrow r edgeId s)
  | MenuRenameEdge edgeId next => Some (menuRenameEdge r edgeId next s)
  | MenuDeleteEdge edgeId => Some (removeEdges r [edgeId] s)
  | Import parsed => Some (importFromText parsed s)
  | LoadStored parsed => Some (loadStored parsed s)
  | Camera p sc => Some (setScale sc (setPan p s))
  end.

(** The effect of the [keydown] handler depends on [selectedId],
    [selectedIds], [selectedEdgeIds], [editingId] and [clipboard] only
    (l.944): the closure of the handler agrees with the current render on
    these, and may be older on everything else. *)
Definition key_closure (s : State) (r : Render) : Prop :=
  selectedId r = selectedId (ui s)
  /\ selectedIds r = selectedIds (ui s)
  /\ selectedEdgeIds r = selectedEdgeIds (ui s)
  /\ editingId r = editingId (ui s)
  /\ clipboard r = clipboard (ui s).

Definition closure_ok (s : State) (op : Op) : Prop :=
  match op with
  | KeyDown closure _ _ => key_closure s closure
  | _ => True
  end.

(** The states the application can be in, started in a window of
    [ww] by [wh], when the events are taken from [allowed]. *)
Inductive reachable (allowed : Op -> Prop) (ww wh : R) : State -> Prop :=
| reach_init : reachable allowed ww wh (init_state ww wh)
| reach_step (s s' : State) (e : Env) (op : Op) :
    reachable allowed ww wh s -> allowed op -> closure_ok s op ->
    step e op s = Some s' ->
    reachable allowed ww wh s'.

Definition any_event (op : Op) : Prop := True.

End App.

(** The copy of the application kept after [src/types/index.ts]. *)
Module V14.

(** The spiral of [addStandalone] (l.618-630 and l.653-665): the point
    found, or [None] after [k] occupied probes. *)
Fixpoint spiral_search (free : R -> R -> bool) (x0 y0 step : R) (k i : nat)
    (angle radius : R) : option (R * R) :=
  match k with
  | O => None
  | S k' =>
      let nx := x0 + cos angle * radius in
      let ny := y0 + sin angle * radius in
      if free nx ny then Some (nx, ny)
      else spiral_search free x0 y0 step k' (S i) (angle + GOLDEN_ANGLE)
             (if (i mod 6 =? 5)%nat then radius + step else radius)
    end.

(** [addStandalone] (l.606-682). *)
Definition addStandalone (r : Render) (e : Env) (at_ : option Point)
    (s : State) : State * Z :=
  let s := pushHistory r s in
  let newId := next_id (nodes r) in
  let free := fun a b => isPositionFree (nodes r) (edges r) a b None in
  let place (cx cy : R) :=
    let node := mkNode newId "" cx cy BASE_W BASE_H "#333" None (Some false) in
    (setNodes (fun ns => ns ++ [node]) s, newId) in
  match at_ with
  | Some p =>
      if free (px p) (py p) then place (px p) (py p)
      else
        match spiral_search free (px p) (py p) 12 60 0 0 12 with
        | Some (nx, ny) => place nx ny
        | None => place (px p) (py p)
        end
  | None =>
      match svg e with
      | None => place 0 0
      | Some (width, height) =>
          let wx := (width / 2 - px (pan r)) / scale r in
          let wy := (height / 2 - py (pan r)) / scale r in
          match spiral_search free wx wy 24 120 0 0 0 with
          | Some (nx, ny) => place nx ny
          | None => place wx wy
          end
      end
  end.

(** [removeNodes] (l.735-763); the camera nudge towards the parent is
    left to a timer. *)
Definition removeNodes (r : Render) (ids : list Z) (s : State) : State :=
  match ids with
  | [] => s
  | _ =>
      let s := pushHistory r s in
      let del := NumSet.of_list ids in
      let nextSelection :=
        match ids with
        | [victim] =>
            match getParentId (edges r) victim with
            | Some parent => if NumSet.has parent del then None else Some parent
            | None => None
            end
        | _ => None
        end in
      let s := setNodes (filter (fun n => negb (NumSet.has (id n) del))) s in
      let s := setEdges
        (filter (fun e => negb (NumSet.has (source e) del)
                          && negb (NumSet.has (target e) del))) s in
      match nextSelection with
      | Some p =>
          let s := setSelectedId (Some p) s in
          let s := setSelectedIds (NumSet.of_list [p]) s in
          setSelectedEdgeIds NumSet.empty s
      | None => clearSelection s
      end
  end.

(** [importFromText] (l.554-590); its [catch] shows the alert of a file
    that cannot be read, also when [restore] throws. *)
Definition importFromText (parsed : option json) (s : State) : State :=
  match parsed with
  | None => alert "Konnte die Datei nicht lesen (kein gültiges JSON)." s
  | Some raw =>
      if negb (Json.truthy (Some raw))
         || negb (Json.isArray (Json.get "nodes" raw))
         || negb (Json.isArray (Json.get "edges" raw))
      then alert "Datei scheint keine gültige Mindmap zu sein." s
      else
        let ns := map Json.as_node (Json.as_list (Json.get "nodes" raw)) in
        let es := map Json.as_link (Json.as_list (Json.get "edges" raw)) in
        if Json.truthy (Json.get "pan" raw)
           && Json.isNumber (Json.get' "x" (Json.get "pan" raw))
           && Json.isNumber (Json.get' "y" (Json.get "pan" raw))
           && Json.isNumber (Json.get "scale" raw)
        then
          let (s, threw) := App.restore_document raw s in
          if threw then alert "Konnte die Datei nicht lesen (kein gültiges JSON)." s
          else s
        else
          let s := setNodes (fun _ => ns) s in
          let s := setEdges (fun _ => es) s in
          let s := setPan (mkPoint 0 0) s in
          let s := setScale 1 s in
          clearSelection s
  end.

End V14.

(** * Properties *)

(** ** Adding a child to a node that does not exist *)

Lemma find_node_none (ns : list MindNode) (i : Z) :
  find_node ns i = None <-> (forall n, In n ns -> id n <> i).
Proof.
  unfold find_node. split.
  - intros H n Hn Heq.
    apply (find_none _ _ H) in Hn. simpl in Hn.
    rewrite Heq, Z.eqb_refl in Hn. discriminate.
  - intros H. destruct (find _ ns) as [n|] eqn:F; [|reflexivity].
    apply find_some in F as [Hin Heq]. apply Z.eqb_eq in Heq.
    now apply H in Hin.
Qed.

(** C10.  [addChild(parentId)] called with an identifier for which
    [nodes.find] finds no node returns [parentId] and leaves the whole
    state as it is: nodes, edges, selection and both history stacks (the
    test comes before [pushHistory]). *)
Theorem addChild_unknown_parent (r : Render) (e : Env) (parentId : Z) (s : State) :
  find_node (nodes r) parentId = None ->
  App.addChild r e parentId s = (s, parentId).
Proof.
  intros H. unfold App.addChild. now rewrite H.
Qed.

Lemma addChild_unknown_parent_witness :
  find_node (nodes (ui (init_state 800 600))) 7 = None
  /\ App.addChild (ui (init_state 800 600)) (mkEnv 0 None 0) 7 (init_state 800 600)
     = (init_state 800 600, 7%Z).
Proof.
  split.
  - reflexivity.
  - apply addChild_unknown_parent. reflexivity.
Defined.

(** A node that exists makes [addChild] push the state onto the undo
    stack, so the test of C10 is the only way past [pushHistory]. *)
Lemma addChild_known_parent_pushes (r : Render) (e : Env) (parentId : Z)
    (s : State) (parent : MindNode) :
  find_node (nodes r) parentId = Some parent ->
  undoStack (refs (fst (App.addChild r e parentId s)))
  = snapshot r :: undoStack (refs s).
Proof.
  intros H. unfold App.addChild. rewrite H.
  destruct (child_search _ _ _ _ _ _ _ _ _) as [cx cy]. reflexivity.
Qed.

(** ** Import of a document without its two arrays *)

Definition bad_document : json :=
  JObj [("nodes"%string, JArr []); ("edges"%string, JStr "x")].

(** Both versions leave the document, the camera, the selection and the
    history alone when [nodes] or [edges] is not an array. *)
Lemma App_import_rejects (raw : json) (s : State) :
  Json.isArray (Json.get "nodes" raw) = false
  \/ Json.isArray (Json.get "edges" raw) = false ->
  App.importFromText (Some raw) s = s.
Proof.
  intros H. unfold App.importFromText.
  destruct H as [-> | ->]; simpl; now rewrite ?orb_true_r.
Qed.

Lemma V14_import_rejects (raw : json) (s : State) :
  Json.isArray (Json.get "nodes" raw) = false
  \/ Json.isArray (Json.get "edges" raw) = false ->
  V14.importFromText (Some raw) s
  = alert "Datei scheint keine gültige Mindmap zu sein." s.
Proof.
  intros H. unfold V14.importFromText.
  destruct H as [-> | ->]; simpl; now rewrite ?orb_true_r.
Qed.

(** C7.  On the document [{nodes:[],edges:"x"}] the import of
    [src/App.tsx] changes nothing at all: the state is kept, and with it
    the list of messages shown to the user, to which nothing is added.
    The older version adds its message to that list. *)
Theorem App_import_is_silent :
  (forall s, App.importFromText (Some bad_document) s = s)
  /\ (forall s, alerts (App.importFromText (Some bad_document) s) = alerts s)
  /\ (forall s, alerts (V14.importFromText (Some bad_document) s)
                = "Datei scheint keine gültige Mindmap zu sein."%string :: alerts s)
  /\ (forall s, ui (V14.importFromText (Some bad_document) s) = ui s
                /\ refs (V14.importFromText (Some bad_document) s) = refs s).
Proof.
  repeat split; reflexivity.
Qed.

(** ** Removing nodes *)

(** What the two versions of [removeNodes] share: the nodes and the edges
    they keep. *)
Definition kept_nodes (ids : list Z) (ns : list MindNode) : list MindNode :=
  filter (fun n => negb (NumSet.has (id n) (NumSet.of_list ids))) ns.

Definition kept_edges (ids : list Z) (es : list Link) : list Link :=
  filter (fun e => negb (NumSet.has (source e) (NumSet.of_list ids))
                   && negb (NumSet.has (target e) (NumSet.of_list ids))) es.

Lemma mem_In (a : Z) (l : list Z) : NumSet.mem a l = true <-> In a l.
Proof.
  unfold NumSet.mem. rewrite existsb_exists. split.
  - intros [b [Hb E]]. apply Z.eqb_eq in E. now subst.
  - intros H. exists a. split; [assumption|apply Z.eqb_refl].
Qed.

Lemma add_list_In (a b : Z) (l : list Z) :
  In b (NumSet.add_list a l) <-> b = a \/ In b l.
Proof.
  unfold NumSet.add_list. destruct (NumSet.mem a l) eqn:E.
  - apply mem_In in E. split; [auto|]. intros [->|H]; assumption.
  - rewrite in_app_iff. simpl. intuition.
Qed.

(** [new Set(ids).has(a)] holds exactly for the members of [ids]. *)
Lemma has_of_list (a : Z) (ids : list Z) :
  NumSet.has a (NumSet.of_list ids) = true <-> In a ids.
Proof.
  unfold NumSet.has, NumSet.of_list. rewrite NumSet.fold_add_elems, mem_In. simpl.
  assert (G : forall l acc, In a (fold_left (fun acc b => NumSet.add_list b acc) l acc)
                            <-> In a acc \/ In a l).
  { induction l as [|b l IH]; intros acc; simpl; [tauto|].
    rewrite IH, add_list_In. intuition. }
  rewrite G. simpl. tauto.
Qed.

Lemma App_removeNodes_nodes (r : Render) (ids : list Z) (s : State) :
  nodes (ui (App.removeNodes r ids s)) = kept_nodes ids (nodes (ui s))
  /\ edges (ui (App.removeNodes r ids s)) = kept_edges ids (edges (ui s)).
Proof.
  destruct ids as [|a ids]; [|split; reflexivity].
  unfold kept_nodes, kept_edges. simpl. split.
  - induction (nodes (ui s)) as [|n ns IH]; simpl; [reflexivity|]. now rewrite <- IH.
  - induction (edges (ui s)) as [|n ns IH]; simpl; [reflexivity|]. now rewrite <- IH.
Qed.

Lemma V14_removeNodes_nodes (r : Render) (ids : list Z) (s : State) :
  nodes (ui (V14.removeNodes r ids s)) = kept_nodes ids (nodes (ui s))
  /\ edges (ui (V14.removeNodes r ids s)) = kept_edges ids (edges (ui s)).
Proof.
  destruct ids as [|a [|b ids]].
  - unfold kept_nodes, kept_edges. simpl. split.
    + induction (nodes (ui s)) as [|n ns IH]; simpl; [reflexivity|]. now rewrite <- IH.
    + induction (edges (ui s)) as [|n ns IH]; simpl; [reflexivity|]. now rewrite <- IH.
  - unfold V14.removeNodes.
    destruct (getParentId (edges r) a) as [p|];
      [destruct (NumSet.has p (NumSet.of_list [a]))|]; split; reflexivity.
  - split; reflexivity.
Qed.

(** The cascade: no node of [ids] and no edge that touches one is left,
    and everything else stays, in its order. *)
Lemma kept_nodes_spec (ids : list Z) (ns : list MindNode) (n : MindNode) :
  In n (kept_nodes ids ns) <-> In n ns /\ ~ In (id n) ids.
Proof.
  unfold kept_nodes. rewrite filter_In, negb_true_iff.
  rewrite <- has_of_list. destruct (NumSet.has _ _); intuition congruence.
Qed.

Lemma kept_edges_spec (ids : list Z) (es : list Link) (e : Link) :
  In e (kept_edges ids es)
  <-> In e es /\ ~ In (source e) ids /\ ~ In (target e) ids.
Proof.
  unfold kept_edges. rewrite filter_In, andb_true_iff, !negb_true_iff.
  rewrite <- !has_of_list.
  destruct (NumSet.has (source e) _), (NumSet.has (target e) _); intuition congruence.
Qed.

(** The older version keeps the user at the parent: when one identifier
    is removed and [getParentId] gives a parent other than the victim
    itself, the parent becomes the only selected node and no edge is
    selected; otherwise the selection is emptied. *)
Lemma V14_removeNodes_selects_parent (r : Render) (victim parent : Z) (s : State) :
  getParentId (edges r) victim = Some parent -> parent <> victim ->
  let s' := V14.removeNodes r [victim] s in
  selectedId (ui s') = Some parent
  /\ NumSet.elems (selectedIds (ui s')) = [parent]
  /\ NumSet.elems (selectedEdgeIds (ui s')) = [].
Proof.
  intros Hp Hne. unfold V14.removeNodes. rewrite Hp.
  replace (NumSet.has parent (NumSet.of_list [victim])) with false.
  - repeat split; reflexivity.
  - symmetry. unfold NumSet.has. simpl.
    apply Z.eqb_neq in Hne. now rewrite Hne.
Qed.

Lemma V14_removeNodes_clears_otherwise (r : Render) (ids : list Z) (s : State) :
  ids <> [] ->
  (forall victim, ids = [victim] ->
     getParentId (edges r) victim = None
     \/ getParentId (edges r) victim = Some victim) ->
  let s' := V14.removeNodes r ids s in
  selectedId (ui s') = None
  /\ NumSet.elems (selectedIds (ui s')) = []
  /\ NumSet.elems (selectedEdgeIds (ui s')) = [].
Proof.
  intros Hne H. destruct ids as [|a [|b ids]]; [congruence| |repeat split; reflexivity].
  unfold V14.removeNodes.
  destruct (H a eq_refl) as [-> | ->]; [repeat split; reflexivity|].
  replace (NumSet.has a (NumSet.of_list [a])) with true.
  - repeat split; reflexivity.
  - unfold NumSet.has. simpl. now rewrite Z.eqb_refl.
Qed.

(** [removeNodes] of [src/App.tsx] ends in [clearSelection()] whatever is
    removed. *)
Lemma App_removeNodes_clears (r : Render) (ids : list Z) (s : State) :
  ids <> [] ->
  let s' := App.removeNodes r ids s in
  selectedId (ui s') = None
  /\ NumSet.elems (selectedIds (ui s')) = []
  /\ NumSet.elems (selectedEdgeIds (ui s')) = [].
Proof.
  intros H. destruct ids; [congruence|]. repeat split; reflexivity.
Qed.

(** A parent and its child, the child selected. *)
Definition parent_and_child : State :=
  let child := mkNode 2 "" 160 0 BASE_W BASE_H "#333" None (Some false) in
  let s := init_state 800 600 in
  let s := setNodes (fun ns => ns ++ [child]) s in
  let s := setEdges (fun es => es ++ [mkLink 1700000000000 1 2 None None (Some false)]) s in
  selectOnly (ui s) 2 s.

(** C2.  Removing the child of [parent_and_child], whose parent stays:
    [src/App.tsx] removes the node and its edge and leaves nothing
    selected, where the older version selects the parent, node 1. *)
Theorem App_removeNodes_forgets_parent :
  let r := ui parent_and_child in
  getParentId (edges r) 2 = Some 1%Z
  /\ map id (nodes (ui (App.removeNodes r [2%Z] parent_and_child))) = [1%Z]
  /\ edges (ui (App.removeNodes r [2%Z] parent_and_child)) = []
  /\ selectedId (ui (App.removeNodes r [2%Z] parent_and_child)) = None
  /\ NumSet.elems (selectedIds (ui (App.removeNodes r [2%Z] parent_and_child))) = []
  /\ selectedId (ui (V14.removeNodes r [2%Z] parent_and_child)) = Some 1%Z
  /\ NumSet.elems (selectedIds (ui (V14.removeNodes r [2%Z] parent_and_child))) = [1%Z].
Proof.
  repeat split; reflexivity.
Qed.

(** ** The size of a box after [resizeNodeForLabel] *)

Module LayoutFacts.

Import Layout.
Local Open Scope Q_scope.

Definition pending_line (current : string) : nat :=
  if JsString.truthy current then 1 else 0.

Lemma wrap_word_count (baseFont width : Q) (st : list string * string) (wd : string) :
  (List.length (fst (wrap_word baseFont width st wd))
   + pending_line (snd (wrap_word baseFont width st wd))
   <= List.length (fst st) + pending_line (snd st) + 1)%nat.
Proof.
  destruct st as [ls current]. unfold wrap_word, pending_line. simpl.
  destruct (Qle_bool _ _); simpl.
  - destruct (JsString.truthy current) eqn:T; simpl.
    + destruct current; [discriminate|]. simpl. lia.
    + destruct (JsString.truthy wd); lia.
  - destruct (JsString.truthy current); simpl;
      rewrite ?length_app; simpl; destruct (JsString.truthy wd); lia.
Qed.

Lemma wrap_fold_count (baseFont width : Q) (ws : list string) :
  forall st,
  (List.length (fst (fold_left (wrap_word baseFont width) ws st))
   + pending_line (snd (fold_left (wrap_word baseFont width) ws st))
   <= List.length (fst st) + pending_line (snd st) + List.length ws)%nat.
Proof.
  induction ws as [|wd ws IH]; intros st; simpl; [lia|].
  specialize (IH (wrap_word baseFont width st wd)).
  pose proof (wrap_word_count baseFont width st wd). lia.
Qed.

(** A pass of [rebuild] never makes more lines than there are items. *)
Lemma wrap_length (label : string) (baseFont width : Q) :
  (List.length (wrap label baseFont width) <= List.length (items label))%nat.
Proof.
  unfold wrap.
  pose proof (wrap_fold_count baseFont width (items label) ([], ""%string)) as H.
  destruct (fold_left _ _ _) as [ls current]. simpl in H.
  unfold pending_line in H.
  destruct (JsString.truthy current); rewrite ?length_app; simpl; lia.
Qed.

Lemma widen_ge (label : string) (baseFont width : Q) :
  width <= widen label baseFont width.
Proof. unfold widen. apply JsNum.max_l. Qed.

Lemma rebuild_loop_width (k : nat) (label : string) (baseFont : Q) :
  forall ls width, width <= snd (rebuild_loop k label baseFont ls width).
Proof.
  induction k as [|k IH]; intros ls width; simpl; [apply Qle_refl|].
  destruct (_ <? _)%nat; simpl; [|apply Qle_refl].
  eapply Qle_trans; [apply widen_ge|apply IH].
Qed.

Lemma rebuild_loop_lines (k : nat) (label : string) (baseFont : Q) :
  forall ls width,
  (List.length (fst (rebuild_loop k label baseFont ls width))
   <= Nat.max (List.length ls) (List.length (items label)))%nat.
Proof.
  induction k as [|k IH]; intros ls width; simpl; [lia|].
  pose proof (wrap_length label baseFont width) as W.
  destruct (_ <? _)%nat; simpl; [|lia].
  specialize (IH (wrap label baseFont width) (widen label baseFont width)). lia.
Qed.

(** The three bounds of [layout_core]: the width is at least the minimum
    asked for and at least [BASE_W], the height at least [BASE_H], and
    there are at most as many lines as items. *)
Lemma layout_core_bounds (label : string) (baseFont minW : Q) :
  let '(ls, width, height, _) := layout_core label baseFont minW in
  minW <= width /\ BASE_W <= width /\ BASE_H <= height
  /\ (List.length ls <= List.length (items label))%nat.
Proof.
  unfold layout_core.
  pose proof (rebuild_loop_width 6 label baseFont [] (JsNum.max minW BASE_W)) as Hw.
  pose proof (rebuild_loop_lines 6 label baseFont [] (JsNum.max minW BASE_W)) as Hl.
  destruct (rebuild_loop 6 label baseFont [] (JsNum.max minW BASE_W)) as [ls width0].
  simpl in Hw, Hl.
  assert (H0 : JsNum.max minW BASE_W <= JsNum.max width0
                 (JsNum.ceil (max_list (map (fun t => approxTextWidth t baseFont) ls) 0
                              + paddingX * 2))).
  { eapply Qle_trans; [exact Hw|apply JsNum.max_l]. }
  repeat split.
  - eapply Qle_trans; [apply JsNum.max_l|exact H0].
  - eapply Qle_trans; [apply JsNum.max_r|exact H0].
  - apply JsNum.max_l.
  - lia.
Qed.






End LayoutFacts.


(** The scenario of the specification: ten words of one letter at font
    size 14 and minimum width 120 are packed into two lines. *)
Lemma ten_words_fit :
  let L := Layout.layoutLabel "a b c d e f g h i j" 14 120 in
  Layout.lines L = ["a b c d e"%string; "f g h i j"%string]
  /\ (120 <= Layout.width L)%Q /\ (64 <= Layout.height L)%Q.
Proof.
  cbv zeta. split; [vm_compute; reflexivity|].
  split; apply Qle_bool_iff; vm_compute; reflexivity.
Qed.


(** ** The width after [resizeNodeForLabel] *)

Module ResizeFacts.

Local Open Scope Q_scope.

Lemma Qle_bool_false (a b : Q) : Qle_bool a b = false -> b < a.
Proof.
  intros H. apply Qnot_le_lt. intro L. apply Qle_bool_iff in L. congruence.
Qed.

Lemma floor_half_ge (v : Q) (z : Z) : inject_Z z <= v -> (z <= Qfloor (v + (1 # 2)))%Z.
Proof.
  intros H. rewrite <- (Qfloor_Z z). apply Qfloor_resp_le.
  eapply Qle_trans; [exact H|].
  rewrite <- (Qplus_0_r v) at 1. apply Qplus_le_r. discriminate.
Qed.

Lemma floor_half_le (v : Q) (z : Z) : v < inject_Z z -> (Qfloor (v + (1 # 2)) <= z)%Z.
Proof.
  intros H.
  assert (L : (Qfloor (v + (1 # 2)) <= Qfloor (inject_Z z + (1 # 2)))%Z).
  { apply Qfloor_resp_le. apply Qplus_le_l. now apply Qlt_le_weak. }
  assert (E : Qfloor (inject_Z z + (1 # 2)) = z).
  { symmetry. apply Zle_antisym.
    - now apply floor_half_ge, Qle_refl.
    - apply Z.lt_succ_r. rewrite Zlt_Qlt.
      eapply Qle_lt_trans; [apply Qfloor_le|].
      unfold Z.succ. rewrite inject_Z_plus. apply Qplus_lt_r. reflexivity. }
  now rewrite E in L.
Qed.

Lemma le_inject (a b : Z) : (a <= b)%Z -> Qle_bool (inject_Z a) (inject_Z b) = true.
Proof. intros H. apply Qle_bool_iff. now rewrite <- Zle_Qle. Qed.

Lemma gt_inject (a b : Z) : (b < a)%Z -> Qle_bool (inject_Z a) (inject_Z b) = false.
Proof.
  intros H. destruct (Qle_bool _ _) eqn:E; [|reflexivity].
  apply Qle_bool_iff in E. rewrite <- Zle_Qle in E. lia.
Qed.

(** Rounding the clamped value ([src/utils/layout.ts] l.66) and clamping
    the rounded value ([src/App.tsx] l.434) give the same font size. *)
Lemma round_clamp (v : Q) :
  JsNum.round (JsNum.max 12 (JsNum.min 20 v)) = JsNum.clamp (JsNum.round v) 12 20.
Proof.
  unfold JsNum.clamp, JsNum.round.
  set (z := Qfloor (v + (1 # 2))).
  unfold JsNum.min at 1.
  destruct (Qle_bool 20 v) eqn:E20.
  - apply Qle_bool_iff in E20.
    assert (Hz : (20 <= z)%Z) by (apply floor_half_ge; exact E20).
    unfold JsNum.min. change 20 with (inject_Z 20). rewrite (le_inject _ _ Hz).
    reflexivity.
  - apply Qle_bool_false in E20.
    assert (Hz : (z <= 20)%Z) by (apply floor_half_le; exact E20).
    unfold JsNum.max at 1.
    destruct (Qle_bool 12 v) eqn:E12.
    + apply Qle_bool_iff in E12.
      assert (Hz' : (12 <= z)%Z) by (apply floor_half_ge; exact E12).
      fold z. unfold JsNum.min, JsNum.max.
      change 20 with (inject_Z 20). change 12 with (inject_Z 12).
      destruct (Z.eq_dec z 20) as [->|Hne]; [reflexivity|].
      rewrite (gt_inject 20 z) by lia. now rewrite (le_inject 12 z).
    + apply Qle_bool_false in E12.
      assert (Hz' : (z <= 12)%Z) by (apply floor_half_le; exact E12).
      unfold JsNum.min, JsNum.max.
      change 20 with (inject_Z 20). change 12 with (inject_Z 12).
      rewrite (gt_inject 20 z) by lia.
      destruct (Z.eq_dec z 12) as [->|Hne]; [reflexivity|].
      rewrite (gt_inject 12 z) by lia. reflexivity.
Qed.

(** The extracted [resizeNodeForLabel] uses the font size of the claim
    and never makes a box narrower. *)
Lemma Ts_resize_font (n : MindNode) :
  Layout.Ts.resize_font n = JsNum.clamp (JsNum.round (h n * (35 # 100))) 12 20.
Proof. apply round_clamp. Qed.

Lemma Ts_resize_keeps_width (n : MindNode) :
  w n <= w (Layout.Ts.resizeNodeForLabel n).
Proof.
  unfold Layout.Ts.resizeNodeForLabel, Layout.Ts.layoutLabel.
  pose proof (LayoutFacts.layout_core_bounds (label n) (Layout.Ts.resize_font n) (w n)) as H.
  destruct (Layout.layout_core _ _ _) as [[[ls width] height] lineHeight].
  simpl. tauto.
Qed.

(** A box as a label of 25 letters leaves it, now holding one letter. *)
Definition wide_box : MindNode :=
  mkNode 1 "a" 0 0 332 64 "#333" None (Some false).

End ResizeFacts.

(** C8.  [resizeNodeForLabel] of [src/App.tsx] lays the label out with
    [BASE_W] as the minimum width, not with the width of the node: the box
    of 332 pixels that holds the label ["a"] comes back 120 pixels wide.
    The function of the same name in [src/utils/layout.ts] passes the
    width of the node and returns the box as wide as it was. *)
Theorem App_resize_shrinks :
  let n := ResizeFacts.wide_box in
  w n = 332%Q
  /\ w (Layout.resizeNodeForLabel n) = 120%Q
  /\ (w (Layout.resizeNodeForLabel n) < w n)%Q
  /\ w (Layout.Ts.resizeNodeForLabel n) = 332%Q.
Proof.
  repeat split.
Qed.

(** ** The path to the root *)

Module RootPath.

(** [ancestors es c n]: following [getParentId] from [c] reaches a node
    without parent after [n] steps. *)
Inductive ancestors (es : list Link) : Z -> nat -> Prop :=
| at_root (c : Z) : getParentId es c = None -> ancestors es c 0
| below (c p : Z) (n : nat) :
    getParentId es c = Some p -> ancestors es p n -> ancestors es c (S n).

(** Two nodes linked in a circle: 1 -> 2 and 2 -> 1. *)
Definition circle : list Link :=
  [mkLink 11 1 2 None None None; mkLink 12 2 1 None None None].

(** A chain 1 -> 2 -> 3. *)
Definition chain3 : list Link :=
  [mkLink 11 1 2 None None None; mkLink 12 2 3 None None None].

Lemma loop_done (fuel : nat) (es : list Link) (up : list Z) :
  rootPath_loop fuel es None up = Some up.
Proof. destruct fuel; reflexivity. Qed.

Lemma last_default (l : list Z) : forall a d d', last (a :: l) d = last (a :: l) d'.
Proof.
  induction l as [|b l IH]; intros a d d'; [reflexivity|].
  change (last (b :: l) d = last (b :: l) d'). apply IH.
Qed.

Lemma loop_spec (es : list Link) (n : nat) :
  forall c up, ancestors es c n ->
  forall fuel, (n < fuel)%nat ->
  exists path, rootPath_loop fuel es (Some c) up = Some (up ++ path)
    /\ List.length path = S n
    /\ hd_error path = Some c
    /\ (exists top, last path c = top /\ getParentId es top = None).
Proof.
  induction n as [|n IH]; intros c up A fuel Hf.
  - inversion A as [c' Hc|]; subst.
    destruct fuel as [|fuel]; [lia|]. simpl. rewrite Hc, loop_done.
    exists [c]. split; [reflexivity|]. split; [reflexivity|]. split; [reflexivity|].
    exists c. split; [reflexivity|assumption].
  - inversion A as [|c' p n' Hc Hp]; subst.
    destruct fuel as [|fuel]; [lia|]. simpl. rewrite Hc.
    destruct (IH p (up ++ [c]) Hp fuel) as (path & E & L & Hh & top & Ht & Hr); [lia|].
    exists (c :: path). rewrite E, <- app_assoc. simpl.
    split; [reflexivity|]. split; [now rewrite L|]. split; [reflexivity|].
    exists top. split; [|assumption].
    destruct path as [|q path]; [discriminate|].
    simpl in Hh. injection Hh as ->.
    rewrite <- Ht. change (last (c :: p :: path) c) with (last (p :: path) c).
    apply last_default.
Qed.

Lemma loop_returns (es : list Link) (fuel : nat) :
  forall c up res, rootPath_loop fuel es (Some c) up = Some res ->
  exists n, ancestors es c n /\ (n < fuel)%nat.
Proof.
  induction fuel as [|fuel IH]; intros c up res H; [discriminate|].
  simpl in H. destruct (getParentId es c) as [p|] eqn:Hc.
  - destruct (IH p _ _ H) as (n & A & L).
    exists (S n). split; [econstructor; eassumption|lia].
  - exists 0%nat. split; [now constructor|lia].
Qed.

Lemma ancestors_unique (es : list Link) (c : Z) (n m : nat) :
  ancestors es c n -> ancestors es c m -> n = m.
Proof.
  intros A. revert m. induction A as [c Hc|c p n Hc A IH]; intros m B;
    inversion B; subst; try congruence.
  f_equal. apply IH. congruence.
Qed.

Lemma circle_has_no_root (c : Z) (n : nat) :
  c = 1%Z \/ c = 2%Z -> ~ ancestors circle c n.
Proof.
  revert c. induction n as [|n IH]; intros c Hc A.
  - inversion A as [c' H|]; subst. destruct Hc; subst; discriminate.
  - inversion A as [|c' p n' H Hp]; subst.
    apply (IH p); [|assumption].
    destruct Hc; subst; simpl in H; injection H as <-; auto.
Qed.

End RootPath.

(** C9, the claim as the specification states it, fails: on the circle
    1 -> 2 -> 1 the loop of [buildRootPath(1)] finds a parent at every
    turn, so no number of turns makes it return. *)
Lemma rootPath_circle_never_returns :
  ~ (exists fuel path, buildRootPath fuel RootPath.circle 1 = Some path).
Proof.
  intros (fuel & path & H). unfold buildRootPath in H.
  destruct (rootPath_loop fuel RootPath.circle (Some 1%Z) []) as [res|] eqn:E;
    [|discriminate].
  apply RootPath.loop_returns in E as (n & A & _).
  now apply (RootPath.circle_has_no_root 1 n (or_introl eq_refl)).
Qed.

(** C9, amended.  When following [getParentId] from [nodeId] reaches a
    node without parent after [n] steps (as in every tree),
    [buildRootPath(nodeId)] returns after [n + 1] turns of its loop,
    whatever larger bound is put on them; the path has [n + 1] elements,
    its last element is [nodeId] and its first element has no parent.
    The loop returns in no other case. *)
Theorem rootPath_of_tree (es : list Link) (nodeId : Z) (n : nat) :
  RootPath.ancestors es nodeId n ->
  (forall fuel, (n < fuel)%nat ->
     exists path, buildRootPath fuel es nodeId = Some path
       /\ List.length path = S n
       /\ last path nodeId = nodeId
       /\ (exists root, hd_error path = Some root /\ getParentId es root = None))
  /\ (forall fuel path, buildRootPath fuel es nodeId = Some path -> (n < fuel)%nat).
Proof.
  intros A. split.
  - intros fuel Hf.
    destruct (RootPath.loop_spec es n nodeId [] A fuel Hf) as (up & E & L & Hh & top & Ht & Hr).
    unfold buildRootPath. rewrite E. simpl.
    exists (rev up). rewrite length_rev. split; [reflexivity|]. split; [assumption|].
    destruct up as [|c up]; [discriminate|]. simpl in Hh. injection Hh as ->.
    split.
    + simpl. now rewrite last_last.
    + exists top. split; [|assumption].
      rewrite <- Ht. clear.
      assert (G : forall (l : list Z) (d : Z), l <> [] -> hd_error (rev l) = Some (last l d)).
      { induction l as [|a l IH]; intros d Hl; [congruence|].
        destruct l as [|b l]; [reflexivity|].
        change (rev (a :: b :: l)) with (rev (b :: l) ++ [a]).
        specialize (IH d ltac:(discriminate)).
        destruct (rev (b :: l)) as [|q ql] eqn:R; [discriminate|].
        simpl in *. exact IH. }
      apply G. discriminate.
  - intros fuel path H. unfold buildRootPath in H.
    destruct (rootPath_loop fuel es (Some nodeId) []) as [res|] eqn:E; [|discriminate].
    apply RootPath.loop_returns in E as (m & B & L).
    now rewrite (RootPath.ancestors_unique es nodeId n m A B).
Qed.

Lemma rootPath_of_tree_witness :
  RootPath.ancestors RootPath.chain3 3 2
  /\ exists path, buildRootPath 3 RootPath.chain3 3 = Some path
       /\ List.length path = 3%nat
       /\ last path 3%Z = 3%Z
       /\ (exists root, hd_error path = Some root
                        /\ getParentId RootPath.chain3 root = None).
Proof.
  assert (A : RootPath.ancestors RootPath.chain3 3 2).
  { apply (RootPath.below RootPath.chain3 3 2); [reflexivity|].
    apply (RootPath.below RootPath.chain3 2 1); [reflexivity|].
    apply RootPath.at_root. reflexivity. }
  split; [exact A|].
  exact (proj1 (rootPath_of_tree RootPath.chain3 3 2 A) 3%nat (Nat.lt_succ_diag_r 2)).
Defined.

(** ** Undo and redo *)

Module History.

(** [undo] and [redo] in the closure of the current render, which is
    the closure of the [keydown] handler when the last change has set the
    selection. *)
Definition live_undo (s : State) : State := undo (ui s) s.
Definition live_redo (s : State) : State := redo (ui s) s.


(** [recorded s s']: the step from [s] to [s'] has pushed the state it
    started from, and nothing else, onto the undo stack and has emptied the
    redo stack, as a handler does that calls [pushHistory()] once before it
    changes anything.  What the step does to the document, the selection
    and the camera is left open. *)
Definition recorded (s s' : State) : Prop :=
  undoStack (refs s') = snapshot (ui s) :: undoStack (refs s)
  /\ redoStack (refs s') = [].

















End History.



Lemma removeEdges_recorded (ids : list Z) (s : State) :
  ids <> [] -> History.recorded s (App.removeEdges (ui s) ids s).
Proof. intros H. destruct ids; [congruence|]. split; reflexivity. Qed.

Lemma menuHighlight_recorded (s : State) :
  History.recorded s (App.menuHighlight (ui s) s).
Proof. split; reflexivity. Qed.

Lemma menuToggleDashed_recorded (edgeId : Z) (s : State) :
  History.recorded s (App.menuToggleDashed (ui s) edgeId s).
Proof. split; reflexivity. Qed.

Lemma menuToggleArrow_recorded (edgeId : Z) (s : State) :
  History.recorded s (App.menuToggleArrow (ui s) edgeId s).
Proof. split; reflexivity. Qed.

Lemma menuRenameEdge_recorded (edgeId : Z) (next : string) (s : State) :
  History.recorded s (App.menuRenameEdge (ui s) edgeId next s).
Proof. split; reflexivity. Qed.

Lemma onEditChange_recorded (v : string) (s : State) (i : Z) :
  editingId (ui s) = Some i -> History.recorded s (App.onEditChange (ui s) v s).
Proof. intros H. unfold App.onEditChange. rewrite H. split; reflexivity. Qed.

(** Paste comes from the keyboard: its step is recorded when the
    closure of the [keydown] handler is that of the state. *)
Lemma paste_recorded (stamp : nat -> Z) (r : Render) (s : State) (clip : Clipboard) :
  clipboard r = Some clip -> snapshot r = snapshot (ui s) ->
  History.recorded s (App.paste r stamp s).
Proof.
  intros H E. unfold History.recorded, App.paste. rewrite H.
  destruct (App.paste_nodes _ _) as [newNodes idMap]. cbv zeta.
  split; [|reflexivity].
  change (cloneSnapshot (snapshot r) :: undoStack (refs s)
          = snapshot (ui s) :: undoStack (refs s)).
  unfold cloneSnapshot. now rewrite E.
Qed.





(** Three handlers of [src/App.tsx] whose steps are not recorded in this
    way. *)

Definition no_mods : App.Mods := App.mkMods false false false.

(** A drag pushes its snapshot in [onPointerUpSvg], after the moves: node
    1 dragged from [0] to [50] stays at [50] after [undo()]. *)
Lemma drag_is_recorded_after_the_move :
  let e := mkEnv 0 (Some (800, 600)) 0 in
  let s0 := init_state 800 600 in
  let s1 := App.onPointerDownNode (ui s0) e no_mods 0 0 1 s0 in
  exists s2,
    App.onPointerMoveSvg (ui s1) 50 0 s1 = Some s2
    /\ let s3 := App.onPointerUpSvg (ui s2) e s2 in
       map x (nodes (ui s0)) = [0]
       /\ map x (nodes (ui s3)) = [50]
       /\ List.length (undoStack (refs s3)) = 1%nat
       /\ map x (nodes (ui (History.live_undo s3))) = [50].
Proof.
  assert (E : 50 + (0 - 0) = 50) by lra.
  cbv zeta. eexists. split; [lazy; reflexivity|].
  split; [lazy; reflexivity|].
  split; [transitivity [50 + (0 - 0)]; [lazy; reflexivity|now rewrite E]|].
  split; [lazy; reflexivity|].
  transitivity [50 + (0 - 0)]; [lazy; reflexivity|now rewrite E].
Qed.

(** Shift+click on the other end of an existing edge pushes the same
    snapshot twice ([pushHistory(); removeEdges(...)], l.609-610). *)
Lemma shift_click_removal_pushes_twice :
  let e := mkEnv 0 (Some (800, 600)) 0 in
  let s0 := selectOnly (ui parent_and_child) 1 parent_and_child in
  let s1 := App.onPointerDownNode (ui s0) e (App.mkMods true false false) 160 0 2 s0 in
  edges (ui s1) = []
  /\ undoStack (refs s1) = [snapshot (ui s0); snapshot (ui s0)].
Proof.
  cbv zeta. split; lazy; reflexivity.
Qed.

(** The [keydown] handler keeps the closure of the render in which the
    selection last changed.  Typing ["a"] into the selected node of the
    initial state and undoing it in that closure puts the label before the
    edit, not the label ["a"], onto the redo stack, so [redo()] does not
    bring the edit back. *)
Lemma stale_closure_loses_redo :
  let e := mkEnv 0 (Some (800, 600)) 0 in
  let stamp := fun _ : nat => 0%Z in
  let s0 := init_state 800 600 in
  let r0 := ui s0 in
  exists s1 s2 s3,
    App.onKeyDown r0 e stamp (App.mkKey (App.KChar "a") no_mods) s0 = Some s1
    /\ map label (nodes (ui s1)) = ["a"%string]
    /\ App.key_closure s1 r0
    /\ App.onKeyDown r0 e stamp
         (App.mkKey (App.KChar "z") (App.mkMods false true false)) s1 = Some s2
    /\ map label (nodes (ui s2)) = ["Start"%string]
    /\ App.onKeyDown (ui s2) e stamp
         (App.mkKey (App.KChar "y") (App.mkMods false true false)) s2 = Some s3
    /\ map label (nodes (ui s3)) = ["Start"%string].
Proof.
  cbv zeta. eexists. eexists. eexists.
  split; [lazy; reflexivity|]. split; [lazy; reflexivity|].
  split; [unfold App.key_closure; repeat split; lazy; reflexivity|].
  split; [lazy; reflexivity|]. split; [lazy; reflexivity|].
  split; lazy; reflexivity.
Qed.

(** ** The two selections exclude each other *)

Module Exclusive.

(** Not both selections are non-empty. *)
Definition exclusive (r : Render) : Prop :=
  NumSet.elems (selectedIds r) = [] \/ NumSet.elems (selectedEdgeIds r) = [].

Definition snap_exclusive (sn : Snapshot) : Prop :=
  snap_selectedIds sn = [] \/ snap_selectedEdgeIds sn = [].

(** The invariant: it also covers the snapshots on the two stacks, which
    [undo] and [redo] bring back. *)
Definition inv (s : State) : Prop :=
  exclusive (ui s)
  /\ Forall snap_exclusive (undoStack (refs s))
  /\ Forall snap_exclusive (redoStack (refs s)).

Lemma inv_frame (s s' : State) :
  selectedIds (ui s') = selectedIds (ui s) ->
  selectedEdgeIds (ui s') = selectedEdgeIds (ui s) ->
  undoStack (refs s') = undoStack (refs s) ->
  redoStack (refs s') = redoStack (refs s) ->
  inv s -> inv s'.
Proof.
  unfold inv, exclusive. intros -> -> -> ->. trivial.
Qed.

Lemma inv_edges_empty (s s' : State) :
  NumSet.elems (selectedEdgeIds (ui s')) = [] ->
  undoStack (refs s') = undoStack (refs s) ->
  redoStack (refs s') = redoStack (refs s) ->
  inv s -> inv s'.
Proof.
  unfold inv, exclusive. intros E -> ->. intros (_ & U & V). auto.
Qed.

Lemma inv_nodes_empty (s s' : State) :
  NumSet.elems (selectedIds (ui s')) = [] ->
  undoStack (refs s') = undoStack (refs s) ->
  redoStack (refs s') = redoStack (refs s) ->
  inv s -> inv s'.
Proof.
  unfold inv, exclusive. intros E -> ->. intros (_ & U & V). auto.
Qed.

Lemma inv_selectOnly r i s : inv s -> inv (selectOnly r i s).
Proof.
  apply inv_edges_empty; unfold selectOnly;
    destruct (selectedId r) as [old|]; try destruct (old =? i)%Z; reflexivity.
Qed.

Lemma inv_clearSelection s : inv s -> inv (clearSelection s).
Proof. apply inv_edges_empty; reflexivity. Qed.

Lemma inv_selectFromArray ids s : inv s -> inv (selectFromArray ids s).
Proof. apply inv_edges_empty; reflexivity. Qed.

Lemma snapshot_exclusive r : exclusive r -> snap_exclusive (snapshot r).
Proof. trivial. Qed.

Lemma inv_pushHistory r s : exclusive r -> inv s -> inv (pushHistory r s).
Proof.
  intros Hr (E & U & V). split; [exact E|]. split; [|constructor].
  constructor; [now apply snapshot_exclusive|exact U].
Qed.

Lemma inv_restore sn s : snap_exclusive sn -> inv s -> inv (restore sn s).
Proof.
  intros [H|H] (E & U & V); (split; [|split; assumption]).
  - left. simpl. now rewrite H.
  - right. simpl. now rewrite H.
Qed.

Lemma inv_undo r s : exclusive r -> inv s -> inv (undo r s).
Proof.
  intros Hr (E & U & V). unfold undo.
  destruct (undoStack (refs s)) as [|sn rest] eqn:Hs; [now repeat split; rewrite ?Hs|].
  inversion U as [|? ? Hsn Hrest]; subst.
  apply inv_restore; [assumption|].
  split; [exact E|]. split; [exact Hrest|].
  constructor; [now apply snapshot_exclusive|exact V].
Qed.

Lemma inv_redo r s : exclusive r -> inv s -> inv (redo r s).
Proof.
  intros Hr (E & U & V). unfold redo.
  destruct (redoStack (refs s)) as [|sn rest] eqn:Hs; [now repeat split; rewrite ?Hs|].
  inversion V as [|? ? Hsn Hrest]; subst.
  apply inv_restore; [assumption|].
  split; [exact E|]. split; [|exact Hrest].
  constructor; [now apply snapshot_exclusive|exact U].
Qed.

Lemma inv_removeEdges r ids s : exclusive r -> inv s -> inv (App.removeEdges r ids s).
Proof.
  intros Hr Hs. unfold App.removeEdges. destruct ids; [assumption|].
  cbv beta zeta.
  apply (inv_edges_empty (pushHistory r s)); [reflexivity..|].
  now apply inv_pushHistory.
Qed.

Lemma inv_removeNodes r ids s : exclusive r -> inv s -> inv (App.removeNodes r ids s).
Proof.
  intros Hr Hs. unfold App.removeNodes. destruct ids; [assumption|].
  cbv beta zeta. apply inv_clearSelection.
  apply (inv_frame (pushHistory r s)); [reflexivity..|].
  now apply inv_pushHistory.
Qed.

Lemma inv_ensureEdge r e a b f s : inv s -> inv (App.ensureEdge r e a b f s).
Proof.
  intros Hs. unfold App.ensureEdge.
  destruct (a =? b)%Z; [assumption|]. destruct (existsb _ _); [assumption|].
  now apply (inv_frame s).
Qed.

Ltac by_projections :=
  match goal with
  | Hs : inv _ |- inv _ =>
      let E := fresh in let U := fresh in let V := fresh in
      destruct Hs as (E & U & V);
      split; [first [left; reflexivity | right; reflexivity] | split; assumption]
  end.

(** One layer of a handler: a unit that keeps the invariant, a case
    distinction, or a setter that leaves the selections and the stacks
    alone. *)
Ltac inv_step :=
  lazymatch goal with
  | |- inv (selectOnly _ _ _) => apply inv_selectOnly
  | |- inv (clearSelection _) => apply inv_clearSelection
  | |- inv (selectFromArray _ _) => apply inv_selectFromArray
  | |- inv (pushHistory _ _) => apply inv_pushHistory; [assumption|]
  | |- inv (undo _ _) => apply inv_undo; [assumption|]
  | |- inv (redo _ _) => apply inv_redo; [assumption|]
  | |- inv (App.removeEdges _ _ _) => apply inv_removeEdges; [assumption|]
  | |- inv (App.removeNodes _ _ _) => apply inv_removeNodes; [assumption|]
  | |- inv (App.ensureEdge _ _ _ _ _ _) => apply inv_ensureEdge
  | |- inv (match ?c with _ => _ end) => destruct c
  | |- inv (?f ?s) =>
      first [ assumption
            | apply (inv_frame s); [reflexivity | reflexivity | reflexivity | reflexivity | ]
            | by_projections ]
  | |- inv _ => assumption
  end.

Ltac inv_auto := cbv beta zeta; repeat inv_step.

Lemma inv_addChild r e i s : exclusive r -> inv s -> inv (fst (App.addChild r e i s)).
Proof.
  intros Hr Hs. unfold App.addChild.
  destruct (find_node (nodes r) i); [|assumption].
  destruct (child_search _ _ _ _ _ _ _ _ _) as [cx cy]. simpl. inv_auto.
Qed.

Definition inv_opt (o : option State) : Prop :=
  match o with
  | Some s => inv s
  | None => True
  end.

Ltac opt_step :=
  lazymatch goal with
  | |- inv_opt (Some _) => change inv_opt with (fun o => match o with Some s => inv s | None => True end); cbv beta iota
  | |- inv_opt None => exact I
  | |- inv_opt (match ?c with _ => _ end) => destruct c
  end.

Lemma inv_addStandalone r e at_ s :
  exclusive r -> inv s ->
  inv_opt (option_map fst (App.addStandalone r e at_ s)).
Proof.
  intros Hr Hs. unfold App.addStandalone. cbv beta zeta.
  destruct at_ as [p|]; simpl; [inv_auto|].
  destruct (svg e) as [[width height]|]; simpl; [|inv_auto].
  destruct (App.diagonal_search _ _ _ _) as [[cx cy]|]; simpl; [inv_auto|exact I].
Qed.

Lemma inv_addSiblingOf r e i s :
  exclusive r -> inv s ->
  inv_opt (option_map fst (App.addSiblingOf r e i s)).
Proof.
  intros Hr Hs. unfold App.addSiblingOf.
  destruct (getParentId (edges r) i); [|now apply inv_addStandalone].
  simpl. now apply inv_addChild.
Qed.

Lemma inv_show_node r e i s : inv s -> inv (App.show_node r e i s).
Proof. intros Hs. unfold App.show_node, App.bringBoxIntoView. inv_auto. Qed.

Lemma inv_navigate r e k s : inv s -> inv (App.navigate r e k s).
Proof.
  intros Hs. unfold App.navigate.
  destruct (App.nav_target r k); [|assumption].
  now apply inv_show_node, inv_selectOnly.
Qed.

Lemma inv_tab r e sel s : inv s -> inv (App.tab r e sel s).
Proof.
  intros Hs. unfold App.tab.
  destruct (prevSelectedId (refs s)) as [p|]; [|assumption].
  destruct (p =? sel)%Z; [assumption|].
  destruct (negb _); [assumption|].
  now apply inv_show_node, inv_selectOnly.
Qed.

Lemma inv_shift_tab r e sel s : inv s -> inv_opt (App.shift_tab r e sel s).
Proof.
  intros Hs. unfold App.shift_tab. cbv beta zeta.
  assert (G : forall s1 path idx, inv s1 ->
            inv_opt (match nth_error path (Z.to_nat idx) with
                     | Some nextId =>
                         Some (App.show_node r e nextId
                                 (selectOnly r nextId
                                    (on_refs (fun f => with_shiftTabIndex f idx) s1)))
                     | None => Some (on_refs (fun f => with_shiftTabIndex f idx) s1)
                     end)).
  { intros s1 path idx H1.
    assert (H2 : inv (on_refs (fun f => with_shiftTabIndex f idx) s1))
      by now apply (inv_frame s1).
    destruct (nth_error path (Z.to_nat idx)); simpl; [|assumption].
    now apply inv_show_node, inv_selectOnly. }
  destruct (match shiftTabPath (refs s) with Some p => NumSet.mem sel p | None => false end).
  - destruct (0 <? _)%Z; [now apply G|].
    destruct (_ <? _)%Z; [now apply G|assumption].
  - destruct (buildRootPath (fuel e) (edges r) sel) as [path|]; [|exact I].
    set (s1 := on_refs _ s).
    assert (H1 : inv s1) by now apply (inv_frame s).
    destruct (0 <? _)%Z; [now apply G|].
    destruct (_ <? _)%Z; [now apply G|assumption].
Qed.

Lemma inv_copy r s : inv s -> inv (App.copy r s).
Proof. intros Hs. unfold App.copy. inv_auto. Qed.

Lemma inv_paste r stamp s : exclusive r -> inv s -> inv (App.paste r stamp s).
Proof.
  intros Hr Hs. unfold App.paste. destruct (clipboard r); [|assumption].
  cbv beta zeta. destruct (App.paste_nodes _ _) as [newNodes idMap]. inv_auto.
Qed.

Lemma inv_onKeyDown r e stamp ev s :
  exclusive r -> inv s -> inv_opt (App.onKeyDown r e stamp ev s).
Proof.
  intros Hr Hs. unfold App.onKeyDown. cbv beta zeta.
  repeat lazymatch goal with
  | |- inv_opt (if ?c then _ else _) => destruct c
  | |- inv_opt (Some (App.copy _ _)) => now apply inv_copy
  | |- inv_opt (Some (App.paste _ _ _)) => now apply inv_paste
  | |- inv_opt (Some (App.navigate _ _ _ _)) => now apply inv_navigate
  | |- inv_opt (Some (App.tab _ _ _ _)) => now apply inv_tab
  | |- inv_opt (App.shift_tab _ _ _ _) => now apply inv_shift_tab
  | |- inv_opt (Some _) => simpl; solve [inv_auto]
  end.
  destruct (App.key ev); try (simpl; assumption).
  - repeat lazymatch goal with
    | |- inv_opt (if ?c then _ else _) => destruct c
    | |- inv_opt (Some _) => simpl; solve [inv_auto]
    end.
  - destruct (App.some (selectedId r) && _); [|simpl; assumption].
    destruct (negb _).
    + pose proof (inv_addChild r e (match selectedId r with Some i => i | None => 0%Z end) s Hr Hs) as H.
      destruct (App.addChild _ _ _ _) as [s1 newId]. simpl in *. inv_auto.
    + pose proof (inv_addSiblingOf r e (match selectedId r with Some i => i | None => 0%Z end) s Hr Hs) as H.
      destruct (App.addSiblingOf _ _ _ _) as [[s1 newId]|]; simpl in *; [inv_auto|exact I].
Qed.

Lemma inv_onPointerDownNode r e m wx wy i s :
  exclusive r -> inv s -> inv (App.onPointerDownNode r e m wx wy i s).
Proof. intros Hr Hs. unfold App.onPointerDownNode. inv_auto. Qed.

Lemma inv_onPointerMoveSvg r wx wy s :
  inv s -> inv_opt (App.onPointerMoveSvg r wx wy s).
Proof.
  intros Hs. unfold App.onPointerMoveSvg. cbv beta zeta.
  repeat lazymatch goal with
  | |- inv_opt (if ?c then _ else _) => destruct c
  | |- inv_opt (match ?c with _ => _ end) => destruct c
  | |- inv_opt (Some _) => simpl; solve [inv_auto]
  | |- inv_opt None => exact I
  end.
Qed.

Lemma inv_onPointerUpSvg r e s : exclusive r -> inv s -> inv (App.onPointerUpSvg r e s).
Proof. intros Hr Hs. unfold App.onPointerUpSvg. inv_auto. Qed.

Lemma inv_onPointerDownBg r m wx wy s : inv s -> inv (App.onPointerDownBg r m wx wy s).
Proof. intros Hs. unfold App.onPointerDownBg. inv_auto. Qed.

Lemma inv_onEdgePointerDown m edgeId s : inv s -> inv (App.onEdgePointerDown m edgeId s).
Proof. intros Hs. unfold App.onEdgePointerDown. cbv beta zeta. by_projections. Qed.

Lemma inv_onEdgeContextMenu edgeId s : inv s -> inv (App.onEdgeContextMenu edgeId s).
Proof. intros Hs. unfold App.onEdgeContextMenu. cbv beta zeta. by_projections. Qed.

(** What the amended claim asks of an imported document: when it is
    restored as a full snapshot (it has a [pan]) and its [selectedIds]
    gives a set with a member, its [selectedEdgeIds] gives the empty set.
    A [selectedEdgeIds] on which [new Set] throws is not asked for: the
    edge selection of the state before the import then stays. *)
Definition doc_exclusive (raw : json) : Prop :=
  Json.truthy (Json.get "pan" raw) = true ->
  match Json.set_arg (Json.get "selectedIds" raw) with
  | Some (_ :: _) => Json.set_arg (Json.get "selectedEdgeIds" raw) = Some []
  | _ => True
  end.

Lemma inv_importFromText raw s :
  doc_exclusive raw -> inv s -> inv (App.importFromText (Some raw) s).
Proof.
  intros Hd Hs. unfold App.importFromText.
  destruct (_ || _); [assumption|]. cbv beta zeta.
  unfold doc_exclusive in Hd.
  destruct (Json.truthy (Json.get "pan" raw)); [|inv_auto].
  specialize (Hd eq_refl). unfold App.restore_document. cbv beta zeta.
  destruct (Json.set_arg (Json.get "selectedIds" raw)) as [[|i ids]|].
  - destruct (Json.set_arg (Json.get "selectedEdgeIds" raw)) as [eids|];
      cbn [fst]; destruct Hs as (_ & U & V);
      (split; [left; reflexivity|split; assumption]).
  - rewrite Hd. cbn [fst]. destruct Hs as (_ & U & V).
    split; [right; reflexivity|split; assumption].
  - cbn [fst]. inv_auto.
Qed.

Lemma inv_loadStored parsed s : inv s -> inv (App.loadStored parsed s).
Proof. intros Hs. unfold App.loadStored. inv_auto. Qed.

Definition tidy_import (op : App.Op) : Prop :=
  match op with
  | App.Import (Some raw) => doc_exclusive raw
  | _ => True
  end.

Lemma inv_opt_some s : inv s -> inv_opt (Some s).
Proof. trivial. Qed.

Lemma inv_step_ok e op s s' :
  tidy_import op -> App.closure_ok s op -> inv s ->
  App.step e op s = Some s' -> inv s'.
Proof.
  intros Ht Hc Hs H.
  assert (Hr : exclusive (ui s)) by apply Hs.
  assert (G : inv_opt (App.step e op s)); [|now rewrite H in G].
  clear H. destruct op; unfold App.step; cbv beta iota zeta;
    try apply inv_opt_some.
  - now apply inv_onPointerDownNode.
  - now apply inv_onPointerMoveSvg.
  - now apply inv_onPointerUpSvg.
  - now apply inv_onPointerDownBg.
  - now apply inv_onEdgePointerDown.
  - now apply inv_onEdgeContextMenu.
  - unfold App.onDoubleClickNode. inv_auto.
  - unfold App.onNodeContextMenu. inv_auto.
  - apply inv_onKeyDown; [|assumption].
    destruct Hc as (_ & E1 & E2 & _). unfold exclusive. rewrite E1, E2. exact Hr.
  - unfold App.onEditChange. inv_auto.
  - inv_auto.
  - unfold App.menuNewNode.
    pose proof (inv_addStandalone (ui s) e at_ s Hr Hs) as H.
    destruct (App.addStandalone _ _ _ _) as [[s1 newId]|]; simpl in *; [inv_auto|exact I].
  - unfold App.menuRename. inv_auto.
  - unfold App.menuChild.
    pose proof (inv_addChild (ui s) e i s Hr Hs) as H.
    destruct (App.addChild _ _ _ _) as [s1 newId]. simpl in *. inv_auto.
  - unfold App.menuHighlight. inv_auto.
  - now apply inv_removeNodes.
  - unfold App.menuToggleDashed. inv_auto.
  - unfold App.menuToggleArrow. inv_auto.
  - unfold App.menuRenameEdge. inv_auto.
  - now apply inv_removeEdges.
  - destruct parsed as [raw|]; [now apply inv_importFromText|assumption].
  - now apply inv_loadStored.
  - inv_auto.
Qed.

End Exclusive.

(** A full snapshot that selects node 1 and edge 2. *)
Definition both_selected : json :=
  JObj [("nodes"%string, JArr []);
        ("edges"%string, JArr []);
        ("pan"%string, JObj [("x"%string, JNum 0); ("y"%string, JNum 0)]);
        ("scale"%string, JNum 1);
        ("selectedIds"%string, JArr [JNum 1]);
        ("selectedEdgeIds"%string, JArr [JNum 2])].

(** C3, the claim as the specification states it, fails: import restores
    the selection of a full snapshot as the document gives it.  After the
    import of [both_selected] into the initial state both selections have a
    member. *)
Lemma import_selects_both :
  let s := App.importFromText (Some both_selected) (init_state 800 600) in
  App.reachable App.any_event 800 600 s
  /\ NumSet.elems (selectedIds (ui s)) = [1%Z]
  /\ NumSet.elems (selectedEdgeIds (ui s)) = [2%Z]
  /\ ~ Exclusive.exclusive (ui s).
Proof.
  cbv zeta.
  assert (E1 : NumSet.elems (selectedIds (ui (App.importFromText (Some both_selected)
                 (init_state 800 600)))) = [1%Z]) by (lazy; reflexivity).
  assert (E2 : NumSet.elems (selectedEdgeIds (ui (App.importFromText (Some both_selected)
                 (init_state 800 600)))) = [2%Z]) by (lazy; reflexivity).
  split; [|split; [exact E1|split; [exact E2|]]].
  - apply (App.reach_step App.any_event 800 600 (init_state 800 600) _
             (mkEnv 0 None 0) (App.Import (Some both_selected))).
    + apply App.reach_init.
    + exact I.
    + exact I.
    + reflexivity.
  - unfold Exclusive.exclusive. rewrite E1, E2. intros [H|H]; discriminate H.
Qed.

(** A full snapshot that selects node 1 and whose [selectedEdgeIds] is
    a number. *)
Definition edge_selection_broken : json :=
  JObj [("nodes"%string, JArr []);
        ("edges"%string, JArr []);
        ("pan"%string, JObj [("x"%string, JNum 0); ("y"%string, JNum 0)]);
        ("scale"%string, JNum 1);
        ("selectedIds"%string, JArr [JNum 1]);
        ("selectedEdgeIds"%string, JNum 5)].

(** With edge 5 selected, the import of [edge_selection_broken] selects
    node 1 and then throws in [new Set(5)]; the empty [catch] leaves the
    edge selection as it was, so both selections have a member.  The
    amended claim does not admit this document. *)
Lemma import_fault_keeps_edge_selection :
  let s0 := App.onEdgePointerDown no_mods 5 (init_state 800 600) in
  let s := App.importFromText (Some edge_selection_broken) s0 in
  NumSet.elems (selectedIds (ui s)) = [1%Z]
  /\ NumSet.elems (selectedEdgeIds (ui s)) = [5%Z]
  /\ ~ Exclusive.doc_exclusive edge_selection_broken.
Proof.
  cbv zeta. split; [lazy; reflexivity|]. split; [lazy; reflexivity|].
  intros H. specialize (H eq_refl). discriminate H.
Qed.

(** C3, amended.  In every state reachable from the initial state by the
    events of the application (pointer, keyboard, context menu, editing
    field, import, stored document, camera), where no document imported as
    a full snapshot gives a [selectedIds] with a member together with a
    [selectedEdgeIds] that has a member or on which [new Set] throws, the
    two selections are never both non-empty; the same holds of every
    snapshot on the undo and redo stacks. *)
Theorem selection_exclusive (ww wh : R) (s : State) :
  App.reachable Exclusive.tidy_import ww wh s ->
  Exclusive.exclusive (ui s)
  /\ Forall Exclusive.snap_exclusive (undoStack (refs s))
  /\ Forall Exclusive.snap_exclusive (redoStack (refs s)).
Proof.
  induction 1 as [|s s' e op _ IH Ht Hc Hstep].
  - split; [right; reflexivity|split; constructor].
  - exact (Exclusive.inv_step_ok e op s s' Ht Hc IH Hstep).
Qed.

(** Node 1 is selected at the start; a click on edge 5 selects the edge
    and empties the node selection. *)
Lemma selection_exclusive_witness :
  let s := App.onEdgePointerDown no_mods 5 (init_state 800 600) in
  App.reachable Exclusive.tidy_import 800 600 s
  /\ NumSet.elems (selectedIds (ui s)) = []
  /\ NumSet.elems (selectedEdgeIds (ui s)) = [5%Z]
  /\ Exclusive.exclusive (ui s).
Proof.
  cbv zeta.
  assert (H : App.reachable Exclusive.tidy_import 800 600
                (App.onEdgePointerDown no_mods 5 (init_state 800 600))).
  { apply (App.reach_step Exclusive.tidy_import 800 600 (init_state 800 600) _
             (mkEnv 0 None 0) (App.EdgePointerDown no_mods 5)).
    - apply App.reach_init.
    - exact I.
    - exact I.
    - reflexivity. }
  split; [exact H|]. split; [reflexivity|]. split; [reflexivity|].
  exact (proj1 (selection_exclusive 800 600 _ H)).
Defined.

(** ** Placing a node that stands alone *)

Module Placement.

Lemma Rltb_true (a b : R) : a < b -> Rltb a b = true.
Proof. intros H. unfold Rltb. destruct (Rlt_dec a b); [reflexivity|contradiction]. Qed.

Lemma Rltb_false (a b : R) : b <= a -> Rltb a b = false.
Proof. intros H. unfold Rltb. destruct (Rlt_dec a b); [lra|reflexivity]. Qed.

Lemma hypot_lt (a b c : R) : 0 <= c -> a * a + b * b < c * c -> hypot a b < c.
Proof.
  intros Hc H. unfold hypot. rewrite <- (sqrt_square c Hc).
  apply sqrt_lt_1_alt. split; [nra|exact H].
Qed.

(** The probes of the spiral of [V14.addStandalone], whether free or
    not, in the order in which the loop tries them. *)
Fixpoint spiral_probes (x0 y0 step : R) (k i : nat) (angle radius : R)
    : list (R * R) :=
  match k with
  | O => []
  | S k' =>
      (x0 + cos angle * radius, y0 + sin angle * radius)
      :: spiral_probes x0 y0 step k' (S i) (angle + GOLDEN_ANGLE)
           (if (i mod 6 =? 5)%nat then radius + step else radius)
  end.

(** The search returns the first free probe, and [None] when no probe
    is free. *)
Lemma spiral_search_spec (free : R -> R -> bool) (x0 y0 step : R) (k : nat) :
  forall i angle radius,
  match V14.spiral_search free x0 y0 step k i angle radius with
  | Some p =>
      exists before after,
        spiral_probes x0 y0 step k i angle radius = before ++ p :: after
        /\ free (fst p) (snd p) = true
        /\ (forall q, In q before -> free (fst q) (snd q) = false)
  | None =>
      forall q, In q (spiral_probes x0 y0 step k i angle radius) ->
                free (fst q) (snd q) = false
  end.
Proof.
  induction k as [|k IH]; intros i angle radius;
    cbn [V14.spiral_search spiral_probes In]; [tauto|].
  destruct (free _ _) eqn:F.
  - exists [], (spiral_probes x0 y0 step k (S i) (angle + GOLDEN_ANGLE)
                 (if (i mod 6 =? 5)%nat then radius + step else radius)).
    split; [reflexivity|]. split; [exact F|]. intros q [].
  - specialize (IH (S i) (angle + GOLDEN_ANGLE)
                   (if (i mod 6 =? 5)%nat then radius + step else radius)).
    destruct (V14.spiral_search _ _ _ _ _ _ _ _) as [p|].
    + destruct IH as (before & after & E & Fp & Fb).
      exists ((x0 + cos angle * radius, y0 + sin angle * radius) :: before), after.
      rewrite E. split; [reflexivity|]. split; [assumption|].
      intros q [<-|Hq]; [exact F|now apply Fb].
    + intros q [<-|Hq]; [exact F|now apply IH].
Qed.

(** With a radius that starts positive and a step that is not negative,
    every probe lies at a positive distance from the centre and within
    the largest radius. *)
Lemma spiral_probes_off_centre (x0 y0 step : R) (k : nat) :
  0 <= step ->
  forall i angle radius q, 0 < radius ->
  In q (spiral_probes x0 y0 step k i angle radius) ->
  q <> (x0, y0)
  /\ x0 - (radius + step * INR k) <= fst q <= x0 + (radius + step * INR k)
  /\ y0 - (radius + step * INR k) <= snd q <= y0 + (radius + step * INR k).
Proof.
  intros Hs. induction k as [|k IH]; intros i angle radius q Hr Hq; [destruct Hq|].
  rewrite S_INR. pose proof (pos_INR k) as Hk.
  cbn [spiral_probes In] in Hq.
  destruct Hq as [<-|Hq].
  - cbn [fst snd]. pose proof (COS_bound angle) as [C1 C2]. pose proof (SIN_bound angle) as [S1 S2].
    pose proof (sin2_cos2 angle) as SC. unfold Rsqr in SC.
    split; [|split].
    + intros E. injection E as E1 E2.
      assert (Z1 : cos angle * radius = 0) by lra.
      assert (Z2 : sin angle * radius = 0) by lra.
      apply Rmult_integral in Z1 as [Z1|Z1]; [|lra].
      apply Rmult_integral in Z2 as [Z2|Z2]; [|lra].
      rewrite Z1, Z2 in SC. lra.
    + split; nra.
    + split; nra.
  - apply IH in Hq; [|destruct (_ =? _)%nat; lra].
    destruct Hq as (N & A & B). split; [exact N|].
    destruct (i mod 6 =? 5)%nat; split; split; nra.
Qed.

(** A box 4000 wide at the origin. *)
Definition wide_node : MindNode :=
  mkNode 1 "Start" 0 0 4000 64 "#333" None (Some false).

Definition beside_wide_node : State :=
  setNodes (fun _ => [wide_node]) (init_state 800 600).

Lemma rectRadius_wide : rectRadius wide_node = 2000.
Proof.
  unfold rectRadius.
  replace (JsNum.max (w wide_node) (h wide_node)) with 4000%Q by (vm_compute; reflexivity).
  unfold Q2R. simpl. lra.
Qed.

Lemma newR_60 : newR = 60.
Proof.
  unfold newR.
  replace (JsNum.max BASE_W BASE_H) with 120%Q by (vm_compute; reflexivity).
  unfold Q2R. simpl. lra.
Qed.

(** Every point within 900 of the origin in both coordinates is
    occupied. *)
Lemma near_wide_node_occupied (p_x p_y : R) :
  -900 <= p_x <= 900 -> -900 <= p_y <= 900 ->
  isPositionFree [wide_node] [] p_x p_y None = false.
Proof.
  intros Hx Hy. unfold isPositionFree. simpl.
  rewrite rectRadius_wide, newR_60. unfold NODE_PADDING.
  rewrite Rltb_true; [reflexivity|].
  apply hypot_lt; nra.
Qed.

Lemma last_In (l : list (R * R)) (d : R * R) : l <> [] -> In (last l d) l.
Proof.
  induction l as [|a l IH]; intros H; [congruence|].
  destruct l as [|b l]; [left; reflexivity|].
  right. apply IH. discriminate.
Qed.

Lemma probes_length (x0 y0 step : R) (k : nat) :
  forall i angle radius, List.length (spiral_probes x0 y0 step k i angle radius) = k.
Proof.
  induction k as [|k IH]; intros i angle radius; cbn [spiral_probes List.length];
    [reflexivity|]. now rewrite IH.
Qed.

(** What the search leaves in [(x, y)]: the first free probe, or the
    point the search started from when every probe is occupied. *)
Definition first_free (free : R -> R -> bool) (probes : list (R * R))
    (start q : R * R) : Prop :=
  (exists before after,
     probes = before ++ q :: after
     /\ free (fst q) (snd q) = true
     /\ forall q', In q' before -> free (fst q') (snd q') = false)
  \/ ((forall q', In q' probes -> free (fst q') (snd q') = false) /\ q = start).

Lemma spiral_search_first_free (free : R -> R -> bool) (x0 y0 step : R)
    (k i : nat) (angle radius : R) :
  first_free free (Placement.spiral_probes x0 y0 step k i angle radius) (x0, y0)
    match V14.spiral_search free x0 y0 step k i angle radius with
    | Some p => p
    | None => (x0, y0)
    end.
Proof.
  pose proof (Placement.spiral_search_spec free x0 y0 step k i angle radius) as H.
  destruct (V14.spiral_search free x0 y0 step k i angle radius) as [p|].
  - left. exact H.
  - right. split; [exact H|reflexivity].
Qed.

End Placement.

(** C4, counterexample.  A box 4000 wide sits at the origin and a new node is asked for
    at [(0, 100)], below the box and inside the circle that
    [isPositionFree] draws around it.  [addStandalone] of [src/App.tsx]
    makes no search ("Placement logic omitted") and puts the node on the
    occupied point.  The older version tries the 60 probes of its spiral,
    finds all of them occupied and puts the node on the requested point
    too, which is not the last point it tried. *)
Theorem addStandalone_keeps_requested_point :
  let s := Placement.beside_wide_node in
  let r := ui s in
  let e := mkEnv 0 (Some (800, 600)) 0 in
  let free := fun a b => isPositionFree (nodes r) (edges r) a b None in
  let probes := Placement.spiral_probes 0 100 12 60 0 0 12 in
  let where_ := fun s' : State => map (fun n => (id n, (x n, y n))) (nodes (ui s')) in
  free 0 100 = false
  /\ option_map (fun p => where_ (fst p)) (App.addStandalone r e (Some (mkPoint 0 100)) s)
     = Some [(1%Z, (0, 0)); (2%Z, (0, 100))]
  /\ List.length probes = 60%nat
  /\ V14.spiral_search free 0 100 12 60 0 0 12 = None
  /\ where_ (fst (V14.addStandalone r e (Some (mkPoint 0 100)) s))
     = [(1%Z, (0, 0)); (2%Z, (0, 100))]
  /\ last probes (0, 0) <> (0, 100).
Proof.
  cbv zeta.
  assert (Hfree : isPositionFree (nodes (ui Placement.beside_wide_node))
                    (edges (ui Placement.beside_wide_node)) 0 100 None = false).
  { apply Placement.near_wide_node_occupied; lra. }
  assert (Hin : forall q, In q (Placement.spiral_probes 0 100 12 60 0 0 12) ->
                q <> (0, 100) /\ -900 <= fst q <= 900 /\ -900 <= snd q <= 900).
  { intros q Hq.
    apply Placement.spiral_probes_off_centre in Hq; [|lra..].
    replace (INR 60) with 60 in Hq by (rewrite INR_IZR_INZ; reflexivity).
    destruct Hq as (N & A & B). split; [exact N|]. lra. }
  assert (Hsearch : V14.spiral_search
            (fun a b => isPositionFree (nodes (ui Placement.beside_wide_node))
                          (edges (ui Placement.beside_wide_node)) a b None)
            0 100 12 60 0 0 12 = None).
  { pose proof (Placement.spiral_search_spec
                  (fun a b => isPositionFree (nodes (ui Placement.beside_wide_node))
                                (edges (ui Placement.beside_wide_node)) a b None)
                  0 100 12 60 0 0 12) as H.
    destruct (V14.spiral_search _ _ _ _ _ _ _ _) as [p|]; [|reflexivity].
    destruct H as (before & after & E & Fp & _).
    assert (Hp : In p (Placement.spiral_probes 0 100 12 60 0 0 12))
      by (rewrite E; apply in_elt).
    apply Hin in Hp as (_ & A & B).
    change (isPositionFree [Placement.wide_node] [] (fst p) (snd p) None = true) in Fp.
    rewrite Placement.near_wide_node_occupied in Fp; [discriminate|assumption..]. }
  split; [exact Hfree|].
  split; [lazy; reflexivity|].
  split; [apply Placement.probes_length|].
  split; [exact Hsearch|].
  split.
  - unfold V14.addStandalone. cbv beta zeta. cbn [px py].
    rewrite Hfree, Hsearch. lazy. reflexivity.
  - apply Hin. apply Placement.last_In.
    intros E. apply (f_equal (@List.length _)) in E.
    rewrite Placement.probes_length in E. discriminate.
Qed.

(** The older version places exactly one node on every path, with the
    next identifier. *)
Lemma V14_addStandalone_adds_one (r : Render) (e : Env) (at_ : option Point)
    (s : State) :
  exists n,
    nodes (ui (fst (V14.addStandalone r e at_ s))) = nodes (ui s) ++ [n]
    /\ id n = next_id (nodes r)
    /\ snd (V14.addStandalone r e at_ s) = next_id (nodes r).
Proof.
  unfold V14.addStandalone. cbv beta zeta.
  destruct at_ as [p|].
  - destruct (isPositionFree _ _ _ _ _); [eexists; repeat split|].
    destruct (V14.spiral_search _ _ _ _ _ _ _ _) as [[nx ny]|]; eexists; repeat split.
  - destruct (svg e) as [[width height]|]; [|eexists; repeat split].
    destruct (V14.spiral_search _ _ _ _ _ _ _ _) as [[nx ny]|]; eexists; repeat split.
Qed.

(** C4, amended.  [addStandalone] of the version that searches pushes the
    history, adds exactly one node with the next identifier and returns the
    identifier.  The node sits on the requested point when that is free;
    otherwise on the first free probe of a spiral of 60 probes around it
    (radius 12, grown by 12 after every sixth probe), or of 120 probes
    around the centre of the view when no point is given (radius 0, grown
    by 24); when every probe is occupied it sits on the requested point,
    or on the centre of the view. *)
Theorem V14_addStandalone_searches (r : Render) (e : Env) (at_ : option Point)
    (s : State) :
  let free := fun a b => isPositionFree (nodes r) (edges r) a b None in
  exists q : R * R,
    V14.addStandalone r e at_ s
    = (setNodes (fun ns => ns ++ [mkNode (next_id (nodes r)) "" (fst q) (snd q)
                                    BASE_W BASE_H "#333" None (Some false)])
         (pushHistory r s),
       next_id (nodes r))
    /\ nodes (ui (fst (V14.addStandalone r e at_ s)))
       = nodes (ui s) ++ [mkNode (next_id (nodes r)) "" (fst q) (snd q)
                            BASE_W BASE_H "#333" None (Some false)]
    /\ match at_ with
       | Some p =>
           if free (px p) (py p) then q = (px p, py p)
           else
             List.length (Placement.spiral_probes (px p) (py p) 12 60 0 0 12) = 60%nat
             /\ Placement.first_free free
                  (Placement.spiral_probes (px p) (py p) 12 60 0 0 12) (px p, py p) q
       | None =>
           match svg e with
           | None => q = (0, 0)
           | Some (width, height) =>
               let wx := (width / 2 - px (pan r)) / scale r in
               let wy := (height / 2 - py (pan r)) / scale r in
               List.length (Placement.spiral_probes wx wy 24 120 0 0 0) = 120%nat
               /\ Placement.first_free free (Placement.spiral_probes wx wy 24 120 0 0 0) (wx, wy) q
           end
       end.
Proof.
  cbv zeta. unfold V14.addStandalone. cbv zeta.
  destruct at_ as [p|].
  - destruct (isPositionFree (nodes r) (edges r) (px p) (py p) None) eqn:F.
    + exists (px p, py p). cbn [fst snd]. split; [reflexivity|]. split; reflexivity.
    + pose proof (Placement.spiral_search_first_free
                    (fun a b => isPositionFree (nodes r) (edges r) a b None)
                    (px p) (py p) 12 60 0 0 12) as H.
      destruct (V14.spiral_search _ (px p) (py p) 12 60 0 0 12) as [[nx ny]|].
      * exists (nx, ny). cbn [fst snd]. split; [reflexivity|]. split; [reflexivity|].
        split; [apply Placement.probes_length|exact H].
      * exists (px p, py p). cbn [fst snd]. split; [reflexivity|]. split; [reflexivity|].
        split; [apply Placement.probes_length|exact H].
  - destruct (svg e) as [[width height]|].
    + pose proof (Placement.spiral_search_first_free
                    (fun a b => isPositionFree (nodes r) (edges r) a b None)
                    ((width / 2 - px (pan r)) / scale r)
                    ((height / 2 - py (pan r)) / scale r) 24 120 0 0 0) as H.
      destruct (V14.spiral_search _ _ _ 24 120 0 0 0) as [[nx ny]|].
      * exists (nx, ny). cbn [fst snd]. split; [reflexivity|]. split; [reflexivity|].
        split; [apply Placement.probes_length|exact H].
      * eexists (_, _). cbn [fst snd]. split; [reflexivity|]. split; [reflexivity|].
        split; [apply Placement.probes_length|exact H].
    + exists (0, 0). cbn [fst snd]. split; [reflexivity|]. split; reflexivity.
Qed.

(** [addStandalone()] of [src/App.tsx] without a drawing surface pushes
    the history, adds no node and returns 1. *)
Lemma App_addStandalone_unmounted (r : Render) (e : Env) (s : State) :
  svg e = None ->
  App.addStandalone r e None s = Some (pushHistory r s, 1%Z).
Proof. intros H. unfold App.addStandalone. now rewrite H. Qed.

(** ** Directional navigation (C6)

    The arrow keys of [src/App.tsx] l.812-852: the candidates are the
    nodes ahead of the selected one, and the choice goes by cones. *)

Module Navigation.

Import App.


Lemma Rltb_ge (a b : R) : Rltb a b = false <-> b <= a.
Proof. unfold Rltb. destruct (Rlt_dec a b); split; intros; try (reflexivity || discriminate); lra. Qed.

Lemma Rleb_le (a b : R) : Rleb a b = true <-> a <= b.
Proof. unfold Rleb. destruct (Rle_dec a b); split; intros; (assumption || reflexivity || discriminate || contradiction). Qed.

Lemma Rleb_gt (a b : R) : Rleb a b = false <-> b < a.
Proof. unfold Rleb. destruct (Rle_dec a b); split; intros; try (reflexivity || discriminate); lra. Qed.

Lemma Reqb_eq (a b : R) : Reqb a b = true <-> a = b.
Proof. unfold Reqb. destruct (Req_dec_T a b); split; intros; (assumption || reflexivity || discriminate || contradiction). Qed.

Lemma Reqb_neq (a b : R) : Reqb a b = false <-> a <> b.
Proof. unfold Reqb. destruct (Req_dec_T a b); split; intros; try (reflexivity || discriminate || assumption); contradiction. Qed.

Lemma hypot_zero (a b : R) : hypot a b = 0 -> a = 0 /\ b = 0.
Proof.
  unfold hypot. intros H. apply sqrt_eq_0 in H; [|nra]. split; nra.
Qed.

(** The displacement of [n] from [cur] along [(ux, uy)]. *)
Definition along (cur : MindNode) (ux uy : R) (n : MindNode) : R :=
  (x n - x cur) * ux + (y n - y cur) * uy.

(** [n] lies ahead of [cur]: it is another node and its displacement has
    a positive dot product with the direction. *)
Definition forward (sel : Z) (cur : MindNode) (ux uy : R) (n : MindNode) : Prop :=
  id n <> sel /\ 0 < along cur ux uy n.

(** The candidate of a node ahead. *)
Definition cand_of (cur : MindNode) (ux uy : R) (n : MindNode) : Cand :=
  let d := hypot (x n - x cur) (y n - y cur) in
  mkCand (id n) d (acos (Rmax (-1) (Rmin 1 (along cur ux uy n / d)))).

Lemma candidate_spec (sel : Z) (cur : MindNode) (ux uy : R) (n : MindNode) (c : Cand) :
  candidate sel cur ux uy n = Some c
  <-> forward sel cur ux uy n /\ c = cand_of cur ux uy n.
Proof.
  unfold candidate, forward, cand_of, along. cbv zeta.
  destruct (Z.eqb_spec (id n) sel) as [E|E].
  - split; [discriminate|]. intros [[H _] _]. contradiction.
  - destruct (Reqb _ 0) eqn:D.
    + apply Reqb_eq, hypot_zero in D as [D1 D2].
      split; [discriminate|]. intros [[_ H] _]. rewrite D1, D2 in H. lra.
    + destruct (Rleb _ 0) eqn:L.
      * apply Rleb_le in L. split; [discriminate|]. intros [[_ H] _]. lra.
      * apply Rleb_gt in L. split.
        -- intros H. injection H as <-. auto.
        -- intros [_ ->]. reflexivity.
Qed.

Lemma direction_unit (k : Key) :
  hypot (fst (direction k)) (snd (direction k)) = 1.
Proof.
  unfold hypot.
  destruct k; simpl;
    match goal with |- sqrt ?a = 1 => replace a with 1 by ring end; apply sqrt_1.
Qed.











(** One turn of the scan on a candidate of the cone. *)
Definition replace_best (best : option Cand) (c : Cand) : option Cand :=
  match best with
  | None => Some c
  | Some b => if beats c b then Some c else Some b
  end.

Lemma pick_step_in (a : R) (best : option Cand) (c : Cand) :
  angle c <= a -> pick_step a best c = replace_best best c.
Proof.
  intros H. unfold pick_step, replace_best.
  replace (Rltb a (angle c)) with false by (symmetry; now apply Rltb_ge).
  destruct best as [b|]; [destruct (beats c b)|]; reflexivity.
Qed.










Lemma nav_target_eq (r : Render) (k : Key) (sel : Z) (cur : MindNode) :
  selectedId r = Some sel -> find_node (nodes r) sel = Some cur ->
  nav_target r k
  = option_map cand_id
      (pick (candidates (nodes r) sel cur (fst (direction k)) (snd (direction k)))).
Proof.
  intros H1 H2. unfold nav_target. rewrite H1, H2.
  destruct (direction k) as [dx dy]. reflexivity.
Qed.

(** The arrow key selects its target and nothing else; without a target
    it changes nothing. *)
Lemma navigate_selects (r : Render) (e : Env) (k : Key) (s : State) :
  match nav_target r k with
  | Some i =>
      selectedId (ui (navigate r e k s)) = Some i
      /\ NumSet.elems (selectedIds (ui (navigate r e k s))) = [i]
  | None => navigate r e k s = s
  end.
Proof.
  unfold navigate. destruct (nav_target r k) as [i|]; [|reflexivity].
  assert (G : forall s', selectedId (ui (show_node r e i s')) = selectedId (ui s')
                         /\ selectedIds (ui (show_node r e i s')) = selectedIds (ui s')).
  { intros s'. unfold show_node, bringBoxIntoView.
    destruct (find_node (nodes r) i); [|split; reflexivity].
    destruct (svg e) as [[width height]|]; [|split; reflexivity].
    cbv zeta. destruct (_ || _); split; reflexivity. }
  destruct (G (selectOnly r i s)) as [-> ->].
  unfold selectOnly. destruct (selectedId r) as [old|]; [destruct (old =? i)%Z|];
    split; reflexivity.
Qed.


(** The start node selected, node 2 straight to the right at distance
    400, node 3 nearer and a little below the axis. *)
Definition far_node : MindNode :=
  mkNode 2 "far" 400 0 BASE_W BASE_H "#333" None (Some false).


Lemma far_node_candidate :
  dist (cand_of start_node 1 0 far_node) = 400
  /\ angle (cand_of start_node 1 0 far_node) = 0.
Proof.
  unfold cand_of, along, far_node, start_node. cbv zeta. cbn [x y dist angle].
  assert (H : hypot (400 - 0) (0 - 0) = 400).
  { unfold hypot. replace ((400 - 0) * (400 - 0) + (0 - 0) * (0 - 0)) with (400 * 400) by ring.
    apply sqrt_square. lra. }
  rewrite H. split; [reflexivity|].
  replace (((400 - 0) * 1 + (0 - 0) * 0) / 400) with 1 by field.
  rewrite Rmin_left by lra. rewrite Rmax_right by lra. apply acos_1.
Qed.


(** One candidate inside the cone is the choice. *)
Lemma pick_one (a : Cand) : angle a <= 30 * DEG -> pick [a] = Some a.
Proof.
  intros Ha. unfold pick, pickWithin. cbn [fold_left].
  rewrite pick_step_in by exact Ha. reflexivity.
Qed.

(** The start node and node 2 to its right, as a render held the
    selection of the start node. *)
Definition one_ahead : State :=
  setNodes (fun _ => [start_node; far_node]) (init_state 800 600).

Lemma one_ahead_target : nav_target (ui one_ahead) ArrowRight = Some 2%Z.
Proof.
  rewrite (nav_target_eq (ui one_ahead) ArrowRight 1 start_node eq_refl eq_refl).
  change (fst (direction ArrowRight)) with 1.
  change (snd (direction ArrowRight)) with 0.
  assert (C : candidates (nodes (ui one_ahead)) 1 start_node 1 0
              = [cand_of start_node 1 0 far_node]).
  { unfold candidates.
    change (hypot 1 0) with (hypot (fst (direction ArrowRight)) (snd (direction ArrowRight))).
    rewrite direction_unit.
    replace (Reqb 1 0) with false by (symmetry; apply Reqb_neq; lra).
    replace (1 / 1) with 1 by field. replace (0 / 1) with 0 by field.
    assert (E1 : candidate 1 start_node 1 0 start_node = None) by reflexivity.
    assert (E2 : candidate 1 start_node 1 0 far_node
                 = Some (cand_of start_node 1 0 far_node)).
    { apply candidate_spec. split; [|reflexivity]. split; [discriminate|].
      unfold along, far_node, start_node. cbn [x y]. lra. }
    change (nodes (ui one_ahead)) with [start_node; far_node].
    cbn [flat_map]. rewrite E1, E2. reflexivity. }
  rewrite C, pick_one; [reflexivity|].
  destruct far_node_candidate as [_ ->]. unfold DEG. pose proof PI_RGT_0. lra.
Qed.

End Navigation.


(** The positions are those of the closure.  With the start node
    selected and node 2 at 400 to its right, the start node is dragged to
    600: no selection changes, so the [keydown] handler stays as it is, and
    the key ArrowRight selects node 2, which now lies to the left of the
    selected node. *)
Lemma arrow_key_goes_by_closure_positions :
  let e := mkEnv 0 (Some (800, 600)) 0 in
  let s0 := Navigation.one_ahead in
  let r0 := ui s0 in
  let s1 := App.onPointerDownNode r0 e (App.mkMods false false false) 0 0 1 s0 in
  exists s2,
    App.onPointerMoveSvg (ui s1) 600 0 s1 = Some s2
    /\ let s3 := App.onPointerUpSvg (ui s2) e s2 in
       App.key_closure s3 r0
       /\ map id (nodes (ui s3)) = [1%Z; 2%Z]
       /\ map x (nodes (ui s3)) = [600; 400]
       /\ App.nav_target r0 App.ArrowRight = Some 2%Z
       /\ selectedId (ui (App.navigate r0 e App.ArrowRight s3)) = Some 2%Z.
Proof.
  assert (E : 600 + (0 - 0) = 600) by lra.
  cbv zeta. eexists. split; [lazy; reflexivity|].
  split; [unfold App.key_closure; repeat split; lazy; reflexivity|].
  split; [lazy; reflexivity|].
  split; [transitivity [600 + (0 - 0); 400]; [lazy; reflexivity|now rewrite E]|].
  split; [exact Navigation.one_ahead_target|].
  pose proof (Navigation.navigate_selects (ui Navigation.one_ahead)
                (mkEnv 0 (Some (800, 600)) 0) App.ArrowRight) as G.
  rewrite Navigation.one_ahead_target in G. apply G.
Qed.



(** * Further properties of the editing core

    What follows covers the functions around the ones above: the geometry
    of placement, the camera, the layout of labels, the document as a graph
    and the gestures of pointer and keyboard. *)

(** ** Geometry of placement ([src/App.tsx] l.49 and l.125-145) *)

Module Geometry.

Lemma hypot_le (a b c d : R) :
  a * a + b * b <= c * c + d * d -> hypot a b <= hypot c d.
Proof. intros H. unfold hypot. apply sqrt_le_1_alt. exact H. Qed.

(** The parameter [distPointToSeg] settles on. *)
Definition seg_param (p_x p_y ax ay bx by_ : R) : R :=
  let vx := bx - ax in
  let vy := by_ - ay in
  let len2 := if Reqb (vx * vx + vy * vy) 0 then / 1000000 else vx * vx + vy * vy in
  Rmax 0 (Rmin 1 (((p_x - ax) * vx + (p_y - ay) * vy) / len2)).

Lemma seg_param_range (p_x p_y ax ay bx by_ : R) :
  0 <= seg_param p_x p_y ax ay bx by_ <= 1.
Proof.
  unfold seg_param. cbv zeta. split.
  - apply Rmax_l.
  - apply Rmax_lub; [lra|apply Rmin_l].
Qed.

Lemma distPointToSeg_param (p_x p_y ax ay bx by_ : R) :
  distPointToSeg p_x p_y ax ay bx by_
  = hypot (p_x - (ax + seg_param p_x p_y ax ay bx by_ * (bx - ax)))
          (p_y - (ay + seg_param p_x p_y ax ay bx by_ * (by_ - ay))).
Proof. reflexivity. Qed.

(** The clamped minimiser of a parabola [t |-> c - 2 t d + t^2 l] with
    [l > 0] is its least point on [[0, 1]]. *)
Lemma clamped_least (l d t0 u : R) :
  0 < l -> t0 * l = d -> 0 <= u <= 1 ->
  let t := Rmax 0 (Rmin 1 t0) in
  t * t * l - 2 * t * d <= u * u * l - 2 * u * d.
Proof.
  intros Hl Ht Hu. cbv zeta. subst d.
  assert (K : forall t, (t = t0 \/ (t = 0 /\ t0 <= 0) \/ (t = 1 /\ 1 <= t0)) ->
              t * t * l - 2 * t * (t0 * l) <= u * u * l - 2 * u * (t0 * l)).
  { intros t [->|[[-> H]|[-> H]]].
    - assert (0 <= (u - t0) * (u - t0)) by (apply Rle_0_sqr).
      assert (0 <= (u - t0) * (u - t0) * l) by (apply Rmult_le_pos; lra). lra.
    - assert (0 <= u * (u - 2 * t0)) by (apply Rmult_le_pos; lra).
      assert (0 <= u * (u - 2 * t0) * l) by (apply Rmult_le_pos; lra). lra.
    - assert (0 <= (1 - u) * (2 * t0 - u - 1)) by (apply Rmult_le_pos; lra).
      assert (0 <= (1 - u) * (2 * t0 - u - 1) * l) by (apply Rmult_le_pos; lra). lra. }
  apply K. unfold Rmax, Rmin.
  destruct (Rle_dec 1 t0); destruct (Rle_dec 0 _); lra.
Qed.

End Geometry.

(** [distPointToSeg] returns the distance from the point to the nearest
    point of the segment: the distance to a point of the segment, and not
    more than the distance to any other point of it.  A segment of length
    zero counts as its end point. *)
Theorem distPointToSeg_nearest (p_x p_y ax ay bx by_ : R) :
  (exists t, 0 <= t <= 1
     /\ distPointToSeg p_x p_y ax ay bx by_
        = hypot (p_x - (ax + t * (bx - ax))) (p_y - (ay + t * (by_ - ay))))
  /\ forall u, 0 <= u <= 1 ->
       distPointToSeg p_x p_y ax ay bx by_
       <= hypot (p_x - (ax + u * (bx - ax))) (p_y - (ay + u * (by_ - ay))).
Proof.
  split.
  - exists (Geometry.seg_param p_x p_y ax ay bx by_).
    split; [apply Geometry.seg_param_range|apply Geometry.distPointToSeg_param].
  - intros u Hu. rewrite Geometry.distPointToSeg_param.
    apply Geometry.hypot_le.
    set (t := Geometry.seg_param p_x p_y ax ay bx by_).
    destruct (Req_dec_T ((bx - ax) * (bx - ax) + (by_ - ay) * (by_ - ay)) 0) as [Z|NZ].
    + destruct (Rplus_sqr_eq_0 (bx - ax) (by_ - ay) Z) as [Z1 Z2].
      replace (bx - ax) with 0 by lra. replace (by_ - ay) with 0 by lra. lra.
    + assert (Hl : 0 < (bx - ax) * (bx - ax) + (by_ - ay) * (by_ - ay)).
      { pose proof (Rle_0_sqr (bx - ax)). pose proof (Rle_0_sqr (by_ - ay)).
        unfold Rsqr in *. lra. }
      pose proof (Geometry.clamped_least
                    ((bx - ax) * (bx - ax) + (by_ - ay) * (by_ - ay))
                    ((p_x - ax) * (bx - ax) + (p_y - ay) * (by_ - ay))
                    (((p_x - ax) * (bx - ax) + (p_y - ay) * (by_ - ay))
                     / ((bx - ax) * (bx - ax) + (by_ - ay) * (by_ - ay)))
                    u Hl) as K.
      cbv zeta in K.
      assert (E : t = Rmax 0 (Rmin 1
                    (((p_x - ax) * (bx - ax) + (p_y - ay) * (by_ - ay))
                     / ((bx - ax) * (bx - ax) + (by_ - ay) * (by_ - ay))))).
      { unfold t, Geometry.seg_param. cbv zeta.
        replace (Reqb ((bx - ax) * (bx - ax) + (by_ - ay) * (by_ - ay)) 0) with false;
          [reflexivity|].
        unfold Reqb. destruct (Req_dec_T _ 0); [contradiction|reflexivity]. }
      rewrite <- E in K.
      assert (K' := K ltac:(field; lra) Hu).
      lra.
Qed.

Module ChildRing.

(** The radius of the [i]-th probe of [addChild]: it starts at
    [CHILD_RADIUS] and grows by 24 after every eighth probe. *)
Definition probe_radius (i : nat) : R := CHILD_RADIUS + 24 * INR (i / 8).

Lemma probe_radius_next (i : nat) :
  (if (i mod 8 =? 7)%nat then probe_radius i + 24 else probe_radius i)
  = probe_radius (S i).
Proof.
  unfold probe_radius.
  destruct (Nat.eqb_spec (i mod 8) 7) as [E|E].
  - replace (S i / 8)%nat with (S (i / 8)).
    + rewrite S_INR. ring.
    + pose proof (Nat.div_mod_eq i 8). pose proof (Nat.div_mod_eq (S i) 8).
      pose proof (Nat.mod_upper_bound (S i) 8). lia.
  - replace (S i / 8)%nat with (i / 8)%nat; [reflexivity|].
    pose proof (Nat.div_mod_eq i 8). pose proof (Nat.div_mod_eq (S i) 8).
    pose proof (Nat.mod_upper_bound (S i) 8). pose proof (Nat.mod_upper_bound i 8). lia.
Qed.

Lemma on_circle (x0 y0 a rad : R) :
  0 <= rad -> hypot (x0 + cos a * rad - x0) (y0 + sin a * rad - y0) = rad.
Proof.
  intros H. unfold hypot.
  replace ((x0 + cos a * rad - x0) * (x0 + cos a * rad - x0)
           + (y0 + sin a * rad - y0) * (y0 + sin a * rad - y0))
    with (rad * rad * (Rsqr (sin a) + Rsqr (cos a))) by (unfold Rsqr; ring).
  rewrite sin2_cos2, Rmult_1_r. now apply sqrt_square.
Qed.

(** The search returns one of its probes: a point on the circle of the
    probe's radius around the parent. *)
Lemma child_search_probe (free : R -> R -> bool) (x0 y0 : R) (k : nat) :
  forall i angle cx cy,
  (0 < k)%nat ->
  exists j a,
    (i <= j < i + k)%nat
    /\ child_search free x0 y0 k i angle (probe_radius i) cx cy
       = (x0 + cos a * probe_radius j, y0 + sin a * probe_radius j).
Proof.
  induction k as [|k IH]; intros i angle cx cy Hk; [lia|].
  cbn [child_search]. cbv zeta.
  destruct (free _ _).
  - exists i, angle. split; [lia|reflexivity].
  - rewrite probe_radius_next.
    destruct k as [|k'].
    + exists i, angle. split; [lia|reflexivity].
    + destruct (IH (S i) (angle + GOLDEN_ANGLE)
                  (x0 + cos angle * probe_radius i) (y0 + sin angle * probe_radius i))
        as (j & a & Hj & E); [lia|].
      exists j, a. split; [lia|exact E].
Qed.

Lemma probe_radius_bounds (j : nat) :
  (j < 96)%nat -> 160 <= probe_radius j <= 424.
Proof.
  intros H. unfold probe_radius, CHILD_RADIUS.
  assert (D : (j / 8 <= 11)%nat).
  { pose proof (Nat.div_mod_eq j 8). pose proof (Nat.mod_upper_bound j 8). lia. }
  apply le_INR in D. pose proof (pos_INR (j / 8)).
  replace (INR 11) with 11 in D by (simpl; ring). lra.
Qed.

End ChildRing.

(** [addChild] on a node that exists adds one node, with the next
    identifier and the colours of the parent, and one plain edge from the
    parent to it.  The child sits on a circle around the parent whose
    radius is between 160 and 424, whether the search found a free place
    or used its last probe. *)
Theorem addChild_places_child_in_ring (r : Render) (e : Env) (parentId : Z)
    (s : State) (parent : MindNode) :
  find_node (nodes r) parentId = Some parent ->
  exists child,
    nodes (ui (fst (App.addChild r e parentId s))) = nodes (ui s) ++ [child]
    /\ edges (ui (fst (App.addChild r e parentId s)))
       = edges (ui s) ++ [mkLink (now e) parentId (id child) None None (Some false)]
    /\ snd (App.addChild r e parentId s) = id child
    /\ id child = next_id (nodes r)
    /\ strokeColor child = strokeColor parent
    /\ fillColor child = fillColor parent
    /\ 160 <= hypot (x child - x parent) (y child - y parent) <= 424.
Proof.
  intros Hp. unfold App.addChild. rewrite Hp. cbv zeta.
  destruct (ChildRing.child_search_probe
              (fun a b => isPositionFree (nodes r) (edges r) a b (Some parentId))
              (x parent) (y parent) 96 0
              (INR (List.length (getChildrenOf (edges r) parentId)) * GOLDEN_ANGLE)
              (x parent) (y parent)) as (j & a & Hj & E); [lia|].
  change (ChildRing.probe_radius 0) with (CHILD_RADIUS + 24 * INR (0 / 8)) in E.
  replace (CHILD_RADIUS + 24 * INR (0 / 8)) with CHILD_RADIUS in E
    by (cbn [Nat.div Nat.divmod fst INR]; ring).
  rewrite E.
  eexists. split; [reflexivity|]. split; [reflexivity|]. split; [reflexivity|].
  split; [reflexivity|]. split; [reflexivity|]. split; [reflexivity|].
  cbn [x y].
  pose proof (ChildRing.probe_radius_bounds j ltac:(lia)) as B.
  rewrite ChildRing.on_circle by lra. exact B.
Qed.

Lemma addChild_places_child_in_ring_witness :
  find_node (nodes (ui (init_state 800 600))) 1 = Some start_node
  /\ exists child,
       nodes (ui (fst (App.addChild (ui (init_state 800 600)) (mkEnv 7 None 0) 1
                         (init_state 800 600))))
       = [start_node; child]
       /\ 160 <= hypot (x child - x start_node) (y child - y start_node) <= 424.
Proof.
  split; [reflexivity|].
  destruct (addChild_places_child_in_ring (ui (init_state 800 600)) (mkEnv 7 None 0) 1
              (init_state 800 600) start_node eq_refl)
    as (child & Hn & _ & _ & _ & _ & _ & Hd).
  exists child. split; [exact Hn|exact Hd].
Defined.

Module Probes.

(** The points [addChild] tries, in the order in which it tries them. *)
Fixpoint child_probes (x0 y0 : R) (k i : nat) (angle radius : R) : list (R * R) :=
  match k with
  | O => []
  | S k' =>
      (x0 + cos angle * radius, y0 + sin angle * radius)
      :: child_probes x0 y0 k' (S i) (angle + GOLDEN_ANGLE)
           (if (i mod 8 =? 7)%nat then radius + 24 else radius)
  end.

Lemma child_probes_length (x0 y0 : R) (k : nat) :
  forall i angle radius, List.length (child_probes x0 y0 k i angle radius) = k.
Proof.
  induction k as [|k IH]; intros i angle radius; cbn [child_probes List.length];
    [reflexivity|]. now rewrite IH.
Qed.

Lemma last_any (l : list (R * R)) :
  forall a d d', last (a :: l) d = last (a :: l) d'.
Proof.
  induction l as [|b l IH]; intros a d d'; [reflexivity|].
  change (last (b :: l) d = last (b :: l) d'). apply IH.
Qed.

(** The search stops at the first free probe; when none is free it ends
    on the last one. *)
Lemma child_search_first_free (free : R -> R -> bool) (x0 y0 : R) (k : nat) :
  forall i angle radius cx cy,
  let q := child_search free x0 y0 k i angle radius cx cy in
  (exists before after,
     child_probes x0 y0 k i angle radius = before ++ q :: after
     /\ free (fst q) (snd q) = true
     /\ forall q', In q' before -> free (fst q') (snd q') = false)
  \/ ((forall q', In q' (child_probes x0 y0 k i angle radius) ->
         free (fst q') (snd q') = false)
      /\ q = last (child_probes x0 y0 k i angle radius) (cx, cy)).
Proof.
  induction k as [|k IH]; intros i angle radius cx cy; cbv zeta.
  - right. split; [intros q' []|reflexivity].
  - cbn [child_search child_probes]. cbv zeta.
    destruct (free (x0 + cos angle * radius) (y0 + sin angle * radius)) eqn:F.
    + left. exists [], (child_probes x0 y0 k (S i) (angle + GOLDEN_ANGLE)
                         (if (i mod 8 =? 7)%nat then radius + 24 else radius)).
      split; [reflexivity|]. split; [exact F|intros q' []].
    + specialize (IH (S i) (angle + GOLDEN_ANGLE)
                     (if (i mod 8 =? 7)%nat then radius + 24 else radius)
                     (x0 + cos angle * radius) (y0 + sin angle * radius)).
      cbv zeta in IH.
      destruct IH as [(before & after & E & Fq & Fb)|[Fa El]].
      * left. exists ((x0 + cos angle * radius, y0 + sin angle * radius) :: before), after.
        rewrite E. split; [reflexivity|]. split; [exact Fq|].
        intros q' [<-|Hq]; [exact F|now apply Fb].
      * right. split; [intros q' [<-|Hq]; [exact F|now apply Fa]|].
        rewrite El.
        destruct (child_probes x0 y0 k (S i) (angle + GOLDEN_ANGLE)
                    (if (i mod 8 =? 7)%nat then radius + 24 else radius)) as [|p l];
          [reflexivity|].
        change (last (p :: l) (x0 + cos angle * radius, y0 + sin angle * radius)
                = last (p :: l) (cx, cy)).
        apply last_any.
Qed.

(** The diagonal walk of [addStandalone()] stops at the first free point
    of the diagonal. *)
Lemma diagonal_search_first_free (free : R -> R -> bool) (k : nat) :
  forall cx cy,
  match App.diagonal_search free k cx cy with
  | Some q =>
      exists j, (j <= k)%nat
        /\ q = (cx + 20 * INR j, cy + 20 * INR j)
        /\ free (fst q) (snd q) = true
        /\ forall j', (j' < j)%nat -> free (cx + 20 * INR j') (cy + 20 * INR j') = false
  | None =>
      forall j, (j <= k)%nat -> free (cx + 20 * INR j) (cy + 20 * INR j) = false
  end.
Proof.
  induction k as [|k IH]; intros cx cy; cbn [App.diagonal_search].
  - destruct (free cx cy) eqn:F.
    + exists 0%nat. cbn [INR]. rewrite !Rmult_0_r, !Rplus_0_r.
      split; [lia|]. split; [reflexivity|]. split; [exact F|]. intros j' Hj. lia.
    + intros j Hj. replace j with 0%nat by lia. cbn [INR].
      now rewrite !Rmult_0_r, !Rplus_0_r.
  - destruct (free cx cy) eqn:F.
    + exists 0%nat. cbn [INR]. rewrite !Rmult_0_r, !Rplus_0_r.
      split; [lia|]. split; [reflexivity|]. split; [exact F|]. intros j' Hj. lia.
    + specialize (IH (cx + 20) (cy + 20)).
      assert (S : forall j, cx + 20 + 20 * INR j = cx + 20 * INR (S j)
                            /\ cy + 20 + 20 * INR j = cy + 20 * INR (S j)).
      { intros j. rewrite S_INR. split; ring. }
      destruct (App.diagonal_search free k (cx + 20) (cy + 20)) as [q|].
      * destruct IH as (j & Hj & -> & Fq & Fb).
        exists (Datatypes.S j). destruct (S j) as [S1 S2].
        split; [lia|]. split; [now rewrite S1, S2|]. split; [exact Fq|].
        intros j' Hj'. destruct j' as [|j'].
        -- cbn [INR]. now rewrite !Rmult_0_r, !Rplus_0_r.
        -- destruct (S j') as [S1' S2']. rewrite <- S1', <- S2'. apply Fb. lia.
      * intros j Hj. destruct j as [|j].
        -- cbn [INR]. now rewrite !Rmult_0_r, !Rplus_0_r.
        -- destruct (S j) as [S1 S2]. rewrite <- S1, <- S2. apply IH. lia.
Qed.

(** Around the start node alone, a point of the diagonal through it is
    occupied up to [(80, 80)] and free from [(100, 100)] on: the two boxes
    and the padding ask for a distance of 128. *)
Lemma start_diagonal_near (a b : R) :
  a = b -> 0 <= a <= 80 -> isPositionFree [start_node] [] a b None = false.
Proof.
  intros <- H. unfold isPositionFree. cbn [existsb]. unfold node_blocks.
  change (rectRadius start_node) with newR. rewrite Placement.newR_60.
  unfold NODE_PADDING. cbn [x y start_node].
  rewrite Placement.Rltb_true; [reflexivity|].
  replace (60 + 60 + 8) with 128 by lra.
  apply Placement.hypot_lt; [lra|]. nra.
Qed.

Lemma start_diagonal_far (a b : R) :
  a = b -> 100 <= a -> isPositionFree [start_node] [] a b None = true.
Proof.
  intros <- H. unfold isPositionFree. cbn [existsb]. unfold node_blocks.
  change (rectRadius start_node) with newR. rewrite Placement.newR_60.
  unfold NODE_PADDING. cbn [x y start_node].
  rewrite Placement.Rltb_false; [reflexivity|].
  replace (60 + 60 + 8) with 128 by lra.
  unfold hypot. rewrite <- (sqrt_square 128) at 1 by lra.
  apply sqrt_le_1_alt. nra.
Qed.

End Probes.

(** [addChild] tries 96 points around the parent, the first at the
    golden angle times the number of children, and puts the child on the
    first one that [isPositionFree] accepts (the parent and its edges do not
    count); when none is free the child goes on the last point tried. *)
Theorem addChild_takes_first_free_probe (r : Render) (e : Env) (parentId : Z)
    (s : State) (parent : MindNode) :
  find_node (nodes r) parentId = Some parent ->
  let free := fun a b => isPositionFree (nodes r) (edges r) a b (Some parentId) in
  let probes :=
    Probes.child_probes (x parent) (y parent) 96 0
      (INR (List.length (getChildrenOf (edges r) parentId)) * GOLDEN_ANGLE)
      CHILD_RADIUS in
  exists child,
    nodes (ui (fst (App.addChild r e parentId s))) = nodes (ui s) ++ [child]
    /\ List.length probes = 96%nat
    /\ ((exists before after,
           probes = before ++ (x child, y child) :: after
           /\ free (x child) (y child) = true
           /\ forall q, In q before -> free (fst q) (snd q) = false)
        \/ ((forall q, In q probes -> free (fst q) (snd q) = false)
            /\ (x child, y child) = last probes (x parent, y parent))).
Proof.
  intros Hp. cbv zeta. unfold App.addChild. rewrite Hp. cbv zeta.
  pose proof (Probes.child_search_first_free
                (fun a b => isPositionFree (nodes r) (edges r) a b (Some parentId))
                (x parent) (y parent) 96 0
                (INR (List.length (getChildrenOf (edges r) parentId)) * GOLDEN_ANGLE)
                CHILD_RADIUS (x parent) (y parent)) as H.
  cbv zeta in H.
  destruct (child_search _ (x parent) (y parent) 96 0 _ CHILD_RADIUS (x parent) (y parent))
    as [cx cy].
  eexists. split; [reflexivity|]. split; [apply Probes.child_probes_length|].
  cbn [x y]. exact H.
Qed.

Lemma addChild_takes_first_free_probe_witness :
  find_node (nodes (ui (init_state 800 600))) 1 = Some start_node
  /\ exists child,
       nodes (ui (fst (App.addChild (ui (init_state 800 600)) (mkEnv 7 None 0) 1
                         (init_state 800 600))))
       = nodes (ui (init_state 800 600)) ++ [child].
Proof.
  split; [reflexivity|].
  destruct (addChild_takes_first_free_probe (ui (init_state 800 600)) (mkEnv 7 None 0) 1
              (init_state 800 600) start_node eq_refl) as (child & H & _).
  exists child. exact H.
Defined.

(** [addStandalone()] without a point, on a mounted surface: the node
    goes on the first free point of the diagonal that starts at the centre
    of the view and advances by 20 in both directions; the call returns
    exactly when one of the first [fuel + 1] points is free. *)
Theorem addStandalone_walks_diagonal (r : Render) (e : Env) (s : State)
    (width height : R) :
  svg e = Some (width, height) ->
  let free := fun a b => isPositionFree (nodes r) (edges r) a b None in
  let wx := (width / 2 - px (pan r)) / scale r in
  let wy := (height / 2 - py (pan r)) / scale r in
  match App.addStandalone r e None s with
  | Some (s', newId) =>
      exists j,
        (j <= fuel e)%nat
        /\ nodes (ui s')
           = nodes (ui s)
             ++ [mkNode (next_id (nodes r)) "" (wx + 20 * INR j) (wy + 20 * INR j)
                   BASE_W BASE_H "#333" None (Some false)]
        /\ newId = next_id (nodes r)
        /\ free (wx + 20 * INR j) (wy + 20 * INR j) = true
        /\ forall j', (j' < j)%nat -> free (wx + 20 * INR j') (wy + 20 * INR j') = false
  | None =>
      forall j, (j <= fuel e)%nat -> free (wx + 20 * INR j) (wy + 20 * INR j) = false
  end.
Proof.
  intros Hsvg. cbv zeta. unfold App.addStandalone. rewrite Hsvg. cbv zeta.
  pose proof (Probes.diagonal_search_first_free
                (fun a b => isPositionFree (nodes r) (edges r) a b None) (fuel e)
                ((width / 2 - px (pan r)) / scale r)
                ((height / 2 - py (pan r)) / scale r)) as H.
  destruct (App.diagonal_search _ (fuel e) _ _) as [[cx cy]|]; [|exact H].
  destruct H as (j & Hj & E & Fq & Fb). injection E as -> ->.
  exists j. split; [exact Hj|]. split; [reflexivity|]. split; [reflexivity|].
  split; [exact Fq|exact Fb].
Qed.

(** In the initial state the centre of the view is the place of the
    start node: the walk passes five occupied points and puts node 2 on
    [(100, 100)]. *)
Lemma addStandalone_walks_diagonal_witness :
  let e := mkEnv 0 (Some (800, 600)) 5 in
  let s0 := init_state 800 600 in
  svg e = Some (800, 600)
  /\ exists s' node,
       App.addStandalone (ui s0) e None s0 = Some (s', 2%Z)
       /\ nodes (ui s') = [start_node; node]
       /\ id node = 2%Z /\ x node = 100 /\ y node = 100.
Proof.
  cbv zeta. split; [reflexivity|].
  pose proof (addStandalone_walks_diagonal (ui (init_state 800 600))
                (mkEnv 0 (Some (800, 600)) 5) (init_state 800 600) 800 600 eq_refl) as H.
  cbv zeta in H. cbn [fuel pan scale px py ui init_state nodes edges] in H.
  assert (W : (800 / 2 - 800 / 2) / 1 = 0) by field.
  assert (V : (600 / 2 - 600 / 2) / 1 = 0) by field.
  rewrite W, V in H.
  destruct (App.addStandalone _ _ None _) as [[s' newId]|].
  - destruct H as (j & Hj & Hn & Hid & Hfree & _).
    assert (J : j = 5%nat).
    { destruct (Nat.eq_dec j 5) as [J|J]; [exact J|]. exfalso.
      rewrite Probes.start_diagonal_near in Hfree; [discriminate|reflexivity|].
      assert (K : (j <= 4)%nat) by lia. clear - K.
      do 5 (destruct j as [|j]; [cbn [INR]; lra|]). lia. }
    subst j. cbn [INR] in Hn.
    eexists s', _. split; [now rewrite Hid|]. split; [exact Hn|].
    split; [reflexivity|]. cbn [x y]. split; lra.
  - exfalso. specialize (H 5%nat (Nat.le_refl 5)).
    rewrite Probes.start_diagonal_far in H; [discriminate|reflexivity|].
    cbn [INR]. lra.
Defined.

(** ** The camera ([src/App.tsx] l.312-350 and l.955-965) *)

Module Camera.

(** [clamp] on the numbers of the camera. *)
Definition clamp (v a b : R) : R := Rmax a (Rmin b v).

(** [toWorld] and [toScreen] ([src/App.tsx] l.312-327).  [rect] is the
    bounding rectangle of the drawing surface, [(rleft, rtop)] its corner;
    [None]: the surface is not mounted. *)
Definition toWorld (r : Render) (rect : option (R * R)) (clientX clientY : R)
    : R * R :=
  match rect with
  | None => (0, 0)
  | Some (rleft, rtop) =>
      ((clientX - rleft - px (pan r)) / scale r,
       (clientY - rtop - py (pan r)) / scale r)
  end.

Definition toScreen (r : Render) (wx wy : R) : R * R :=
  (px (pan r) + wx * scale r, py (pan r) + wy * scale r).

(** [onWheelSvg] ([src/App.tsx] l.955-965).  [(mx, my)] is the pointer
    relative to the drawing surface ([e.clientX - rect.left],
    [e.clientY - rect.top]).  With shift the wheel pans, by an update of
    the current [pan]. *)
Definition onWheelSvg (r : Render) (shiftKey : bool) (deltaX deltaY mx my : R)
    (s : State) : State :=
  if negb shiftKey then
    let zoomIntensity := 15 / 10000 in
    let factor := exp (- deltaY * zoomIntensity) in
    let newScale := clamp (scale r * factor) (3 / 10) 3 in
    let wx := (mx - px (pan r)) / scale r in
    let wy := (my - py (pan r)) / scale r in
    setScale newScale (setPan (mkPoint (mx - wx * newScale) (my - wy * newScale)) s)
  else
    setPan (mkPoint (px (pan (ui s)) - deltaX) (py (pan (ui s)) - deltaY)) s.

Lemma clamp_in_range (v a b : R) : a <= b -> a <= clamp v a b <= b.
Proof.
  intros H. unfold clamp. split; [apply Rmax_l|].
  apply Rmax_lub; [exact H|apply Rmin_l].
Qed.

Lemma Rltb_cases (a b : R) :
  (Rltb a b = true /\ a < b) \/ (Rltb a b = false /\ b <= a).
Proof. unfold Rltb. destruct (Rlt_dec a b); [left|right]; split; auto; lra. Qed.

(** The box with centre [(cx, cy)] and size [bw] by [bh] lies between
    the margins of 24 pixels of a surface [width] by [height], seen with the
    pan [p] and the scale [sc]. *)
Definition inside (p : Point) (sc width height cx cy bw bh : R) : Prop :=
  24 <= px p + (cx - bw / 2) * sc
  /\ px p + (cx + bw / 2) * sc <= width - 24
  /\ 24 <= py p + (cy - bh / 2) * sc
  /\ py p + (cy + bh / 2) * sc <= height - 24.

End Camera.

(** Zooming with the wheel keeps the scale between 0.3 and 3 and leaves
    the world point under the pointer where it is on the screen. *)
Theorem wheel_zoom_keeps_pointer (r : Render) (deltaX deltaY mx my : R)
    (s : State) :
  scale r <> 0 ->
  let s' := Camera.onWheelSvg r false deltaX deltaY mx my s in
  3 / 10 <= scale (ui s') <= 3
  /\ (mx - px (pan (ui s'))) / scale (ui s') = (mx - px (pan r)) / scale r
  /\ (my - py (pan (ui s'))) / scale (ui s') = (my - py (pan r)) / scale r
  /\ nodes (ui s') = nodes (ui s) /\ edges (ui s') = edges (ui s).
Proof.
  intros H. cbv zeta. unfold Camera.onWheelSvg. cbn [negb]. cbv zeta.
  set (ns := Camera.clamp (scale r * exp (- deltaY * (15 / 10000))) (3 / 10) 3).
  assert (B : 3 / 10 <= ns <= 3) by (apply Camera.clamp_in_range; lra).
  change (scale (ui (setScale ns (setPan (mkPoint
            (mx - (mx - px (pan r)) / scale r * ns)
            (my - (my - py (pan r)) / scale r * ns)) s)))) with ns.
  change (pan (ui (setScale ns (setPan (mkPoint
            (mx - (mx - px (pan r)) / scale r * ns)
            (my - (my - py (pan r)) / scale r * ns)) s))))
    with (mkPoint (mx - (mx - px (pan r)) / scale r * ns)
                  (my - (my - py (pan r)) / scale r * ns)).
  cbn [px py].
  split; [exact B|]. split; [field; lra|]. split; [field; lra|].
  split; reflexivity.
Qed.

Lemma wheel_zoom_keeps_pointer_witness :
  scale (ui (init_state 800 600)) <> 0
  /\ 3 / 10 <= scale (ui (Camera.onWheelSvg (ui (init_state 800 600)) false 0 100
                           10 20 (init_state 800 600))) <= 3.
Proof.
  assert (H : scale (ui (init_state 800 600)) <> 0).
  { change (scale (ui (init_state 800 600))) with 1. lra. }
  split; [exact H|].
  exact (proj1 (wheel_zoom_keeps_pointer (ui (init_state 800 600)) 0 100 10 20
                  (init_state 800 600) H)).
Defined.

(** [toScreen] undoes [toWorld] up to the corner of the drawing surface,
    and [toWorld] undoes [toScreen]. *)
Theorem toWorld_toScreen (r : Render) (rleft rtop cx cy : R) :
  scale r <> 0 ->
  Camera.toScreen r (fst (Camera.toWorld r (Some (rleft, rtop)) cx cy))
                    (snd (Camera.toWorld r (Some (rleft, rtop)) cx cy))
  = (cx - rleft, cy - rtop)
  /\ Camera.toWorld r (Some (rleft, rtop))
       (fst (Camera.toScreen r cx cy) + rleft) (snd (Camera.toScreen r cx cy) + rtop)
     = (cx, cy).
Proof.
  intros H. unfold Camera.toWorld, Camera.toScreen. cbn [fst snd]. split; f_equal; field; exact H.
Qed.

Lemma toWorld_toScreen_witness :
  scale (ui (init_state 800 600)) <> 0
  /\ Camera.toScreen (ui (init_state 800 600))
       (fst (Camera.toWorld (ui (init_state 800 600)) (Some (5, 7)) 100 50))
       (snd (Camera.toWorld (ui (init_state 800 600)) (Some (5, 7)) 100 50))
     = (100 - 5, 50 - 7).
Proof.
  assert (H : scale (ui (init_state 800 600)) <> 0).
  { change (scale (ui (init_state 800 600))) with 1. lra. }
  split; [exact H|].
  exact (proj1 (toWorld_toScreen (ui (init_state 800 600)) 5 7 100 50 H)).
Defined.

(** [bringBoxIntoView] works with the pan and the scale of the closure
    [r] it is called in.  For a box that fits between the margins of the
    drawing surface at that scale: when the box lies between the margins
    for the camera of the closure, nothing changes; otherwise the pan is
    set, from the pan of the closure, so that the box lies between the
    margins at the scale of the closure.  So the box is in view afterwards
    when the camera of the closure is the current one. *)
Theorem bringBoxIntoView_shows (r : Render) (e : Env) (cx cy bw bh : R)
    (s : State) (width height : R) :
  svg e = Some (width, height) ->
  bw * scale r <= width - 48 ->
  bh * scale r <= height - 48 ->
  let s' := App.bringBoxIntoView r e cx cy bw bh s in
  (Camera.inside (pan r) (scale r) width height cx cy bw bh -> s' = s)
  /\ (~ Camera.inside (pan r) (scale r) width height cx cy bw bh ->
      Camera.inside (pan (ui s')) (scale r) width height cx cy bw bh)
  /\ (pan (ui s) = pan r -> scale (ui s) = scale r ->
      Camera.inside (pan (ui s')) (scale (ui s')) width height cx cy bw bh).
Proof.
  intros Hsvg Hw Hh. cbv zeta. unfold App.bringBoxIntoView. rewrite Hsvg. cbv zeta.
  unfold Camera.inside.
  destruct (Camera.Rltb_cases (px (pan r) + (cx - bw / 2) * scale r) 24) as [[-> A]|[-> A]];
  destruct (Camera.Rltb_cases (width - 24) (px (pan r) + (cx + bw / 2) * scale r)) as [[-> B]|[-> B]];
  destruct (Camera.Rltb_cases (py (pan r) + (cy - bh / 2) * scale r) 24) as [[-> C]|[-> C]];
  destruct (Camera.Rltb_cases (height - 24) (py (pan r) + (cy + bh / 2) * scale r)) as [[-> D]|[-> D]];
  try lra;
  match goal with
  | |- context [if negb (Reqb ?a ?b) || negb (Reqb ?c ?d) then _ else _] =>
      unfold Reqb; destruct (Req_dec_T a b); destruct (Req_dec_T c d);
      cbn [negb orb]
  end;
  try (change (pan (ui (setPan ?q s))) with q);
  try (change (scale (ui (setPan ?q s))) with (scale (ui s)));
  (split; [intros (I1 & I2 & I3 & I4); first [reflexivity|exfalso; lra]
          |split; [intros N; try (exfalso; apply N; repeat split; lra);
                   cbn [px py]; repeat split; lra
                  |intros Hp Hs; rewrite ?Hp, ?Hs; cbn [px py]; repeat split; lra]]).
Qed.

(** A node far to the right of the view, in the closure of the current
    render. *)
Lemma bringBoxIntoView_shows_witness :
  let r := ui (init_state 800 600) in
  let e := mkEnv 0 (Some (800, 600)) 0 in
  svg e = Some (800, 600)
  /\ 120 * scale r <= 800 - 48
  /\ 64 * scale r <= 600 - 48
  /\ Camera.inside
       (pan (ui (App.bringBoxIntoView r e 1000 0 120 64 (init_state 800 600))))
       (scale (ui (App.bringBoxIntoView r e 1000 0 120 64 (init_state 800 600))))
       800 600 1000 0 120 64.
Proof.
  cbv zeta.
  assert (H1 : 120 * scale (ui (init_state 800 600)) <= 800 - 48).
  { change (scale (ui (init_state 800 600))) with 1. lra. }
  assert (H2 : 64 * scale (ui (init_state 800 600)) <= 600 - 48).
  { change (scale (ui (init_state 800 600))) with 1. lra. }
  split; [reflexivity|]. split; [exact H1|]. split; [exact H2|].
  exact (proj2 (proj2 (bringBoxIntoView_shows (ui (init_state 800 600))
                         (mkEnv 0 (Some (800, 600)) 0) 1000 0 120 64
                         (init_state 800 600) 800 600 eq_refl H1 H2)) eq_refl eq_refl).
Defined.

(** The camera of an older closure: the handler holds the pan
    [(400, 300)] while the user has panned to [(5000, 5000)].  The box at
    the origin lies between the margins for the handler, which changes
    nothing; on the screen the box is far outside. *)
Lemma bringBoxIntoView_old_camera :
  let r := ui (init_state 800 600) in
  let e := mkEnv 0 (Some (800, 600)) 0 in
  let s := setPan (mkPoint 5000 5000) (init_state 800 600) in
  App.bringBoxIntoView r e 0 0 120 64 s = s
  /\ ~ Camera.inside (pan (ui s)) (scale (ui s)) 800 600 0 0 120 64.
Proof.
  cbv zeta. split.
  - unfold App.bringBoxIntoView. cbn [svg]. cbv zeta.
    cbn [pan scale ui px py init_state].
    rewrite !Placement.Rltb_false by lra.
    unfold Reqb. destruct (Req_dec_T (800 / 2) (800 / 2)) as [_|N]; [|now elim N].
    destruct (Req_dec_T (600 / 2) (600 / 2)) as [_|N]; [|now elim N]. reflexivity.
  - unfold Camera.inside. cbn [pan scale ui setPan on_ui with_pan px py init_state].
    intros (_ & H & _). lra.
Qed.

(** ** Touch points ([src/utils/math.ts] l.33-39, [src/App.tsx] l.351-358) *)

Module Touch.

Definition sum (l : list R) : R := fold_left Rplus l 0.

(** [Math.max(...l)] of a list that is not empty. *)
Definition max_of (l : list R) : R :=
  match l with
  | [] => 0
  | a :: t => fold_left Rmax t a
  end.

(** [getCentroidAndDistance] of [src/utils/math.ts]: [(cx, cy, d)]. *)
Definition getCentroidAndDistance (pts : list (R * R)) : R * R * R :=
  match pts with
  | [] => (0, 0, 0)
  | _ =>
      let n := INR (List.length pts) in
      let cx := sum (map fst pts) / n in
      let cy := sum (map snd pts) / n in
      let d := max_of (map (fun p => hypot (fst p - cx) (snd p - cy)) pts) in
      (cx, cy, d)
  end.

(** [getCentroidAndDistance] of [src/App.tsx], which reads the first two
    points. *)
Definition two_point (p0 p1 : R * R) : R * R * R :=
  ((fst p0 + fst p1) / 2, (snd p0 + snd p1) / 2,
   hypot (fst p1 - fst p0) (snd p1 - snd p0)).

Lemma fold_Rmax_ge (l : list R) : forall a, a <= fold_left Rmax l a.
Proof.
  induction l as [|b l IH]; intros a; simpl; [lra|].
  eapply Rle_trans; [apply Rmax_l|apply IH].
Qed.

Lemma fold_Rmax_upper (l : list R) :
  forall a v, In v (a :: l) -> v <= fold_left Rmax l a.
Proof.
  induction l as [|b l IH]; intros a v H.
  - destruct H as [<-|[]]. simpl. lra.
  - cbn [fold_left]. destruct H as [<-|[<-|H]].
    + eapply Rle_trans; [apply Rmax_l|apply fold_Rmax_ge].
    + eapply Rle_trans; [apply Rmax_r|apply fold_Rmax_ge].
    + apply IH. now right.
Qed.

Lemma fold_Rmax_in (l : list R) : forall a, In (fold_left Rmax l a) (a :: l).
Proof.
  induction l as [|b l IH]; intros a; simpl; [now left|].
  destruct (IH (Rmax a b)) as [H|H]; [|now right; right].
  rewrite <- H. unfold Rmax. destruct (Rle_dec a b); [right; now left|now left].
Qed.

Lemma sum_shift (l : list R) : forall a, fold_left Rplus l a = a + sum l.
Proof.
  unfold sum. induction l as [|b l IH]; intros a; simpl; [ring|].
  rewrite IH, (IH (0 + b)). ring.
Qed.

End Touch.

(** [getCentroidAndDistance] of [src/utils/math.ts] returns the mean of
    the points and the radius of the smallest circle around the mean that
    holds them all: every point is within [d] of the centroid and one of
    them is at [d]. *)
Theorem centroid_covers (pts : list (R * R)) :
  pts <> [] ->
  let '(cx, cy, d) := Touch.getCentroidAndDistance pts in
  cx * INR (List.length pts) = Touch.sum (map fst pts)
  /\ cy * INR (List.length pts) = Touch.sum (map snd pts)
  /\ (forall p, In p pts -> hypot (fst p - cx) (snd p - cy) <= d)
  /\ exists p, In p pts /\ hypot (fst p - cx) (snd p - cy) = d.
Proof.
  intros H.
  destruct pts as [|p0 rest]; [now elim H|].
  unfold Touch.getCentroidAndDistance.
  set (pts := p0 :: rest). cbv zeta.
  set (cx := Touch.sum (map fst pts) / INR (List.length pts)).
  set (cy := Touch.sum (map snd pts) / INR (List.length pts)).
  assert (N : INR (List.length pts) <> 0).
  { apply not_0_INR. discriminate. }
  split; [unfold cx; field; exact N|]. split; [unfold cy; field; exact N|].
  unfold Touch.max_of. unfold pts at 1 3. cbn [map]. split.
  - intros p Hp. apply Touch.fold_Rmax_upper.
    change (In (hypot (fst p - cx) (snd p - cy))
              (map (fun q => hypot (fst q - cx) (snd q - cy)) pts)).
    apply in_map_iff. now exists p.
  - pose proof (Touch.fold_Rmax_in
                  (map (fun q => hypot (fst q - cx) (snd q - cy)) rest)
                  (hypot (fst p0 - cx) (snd p0 - cy))) as M.
    change (In (fold_left Rmax (map (fun q => hypot (fst q - cx) (snd q - cy)) rest)
                  (hypot (fst p0 - cx) (snd p0 - cy)))
              (map (fun q => hypot (fst q - cx) (snd q - cy)) pts)) in M.
    apply in_map_iff in M as (p & E & Hp). now exists p.
Qed.

Lemma centroid_covers_witness :
  [(0, 0); (2, 0)] <> ([] : list (R * R))
  /\ let '(cx, cy, d) := Touch.getCentroidAndDistance [(0, 0); (2, 0)] in
     forall p, In p [(0, 0); (2, 0)] -> hypot (fst p - cx) (snd p - cy) <= d.
Proof.
  assert (N : [(0, 0); (2, 0)] <> ([] : list (R * R))) by discriminate.
  split; [exact N|].
  pose proof (centroid_covers [(0, 0); (2, 0)] N) as H.
  destruct (Touch.getCentroidAndDistance [(0, 0); (2, 0)]) as [[cx cy] d].
  exact (proj1 (proj2 (proj2 H))).
Defined.

(** For two touch points both versions agree on the centroid, and the
    distance of [src/utils/math.ts] (to the centroid) is half of the
    distance of [src/App.tsx] (between the points). *)
Theorem centroid_two_points (p0 p1 : R * R) :
  let '(cx, cy, d) := Touch.getCentroidAndDistance [p0; p1] in
  let '(cx', cy', d') := Touch.two_point p0 p1 in
  cx = cx' /\ cy = cy' /\ 2 * d = d'.
Proof.
  destruct p0 as [x0 y0], p1 as [x1 y1].
  unfold Touch.getCentroidAndDistance, Touch.two_point, Touch.sum, Touch.max_of.
  cbn [map fst snd fold_left List.length INR].
  replace ((0 + x0 + x1) / (1 + 1)) with ((x0 + x1) / 2) by field.
  replace ((0 + y0 + y1) / (1 + 1)) with ((y0 + y1) / 2) by field.
  split; [reflexivity|]. split; [reflexivity|].
  assert (H : forall a b c d, a * a + b * b = c * c + d * d -> hypot a b = hypot c d).
  { intros a b c d E. unfold hypot. now rewrite E. }
  rewrite (H (x1 - (x0 + x1) / 2) (y1 - (y0 + y1) / 2)
             (x0 - (x0 + x1) / 2) (y0 - (y0 + y1) / 2)) by field.
  rewrite Rmax_left by lra.
  assert (P : 0 <= hypot (x0 - (x0 + x1) / 2) (y0 - (y0 + y1) / 2)) by apply sqrt_pos.
  replace (2 * hypot (x0 - (x0 + x1) / 2) (y0 - (y0 + y1) / 2))
    with (sqrt (2 * 2) * hypot (x0 - (x0 + x1) / 2) (y0 - (y0 + y1) / 2))
    by (rewrite sqrt_square by lra; reflexivity).
  unfold hypot. rewrite <- sqrt_mult_alt by lra. f_equal. field.
Qed.

Module BoxFits.

Import Layout.
Local Open Scope Q_scope.

Lemma max_list_ge (l : list Q) : forall z, z <= max_list l z.
Proof.
  unfold max_list. induction l as [|a l IH]; intros z; simpl; [apply Qle_refl|].
  eapply Qle_trans; [apply JsNum.max_l|apply IH].
Qed.

Lemma max_list_upper (l : list Q) : forall z v, In v l -> v <= max_list l z.
Proof.
  unfold max_list. induction l as [|a l IH]; intros z v H; [destruct H|].
  simpl. destruct H as [<-|H].
  - eapply Qle_trans; [apply JsNum.max_r|apply (max_list_ge l)].
  - now apply IH.
Qed.

Lemma ceil_ge (v : Q) : v <= JsNum.ceil v.
Proof. unfold JsNum.ceil. apply Qle_ceiling. Qed.

(** The box of [layout_core] holds the lines it wrapped. *)
Lemma layout_core_fits (label : string) (baseFont minW : Q) :
  let '(ls, width, height, lineHeight) := layout_core label baseFont minW in
  (forall line, In line ls -> approxTextWidth line baseFont + paddingX * 2 <= width)
  /\ paddingX * 2 <= width
  /\ inject_Z (Z.of_nat (List.length ls)) * lineHeight + paddingY * 2 <= height.
Proof.
  unfold layout_core. cbv zeta.
  destruct (rebuild_loop 6 label baseFont [] (JsNum.max minW BASE_W)) as [ls width0].
  split; [|split].
  - intros line Hl.
    eapply Qle_trans; [|apply JsNum.max_r]. eapply Qle_trans; [|apply ceil_ge].
    apply Qplus_le_l. apply max_list_upper.
    apply in_map_iff. now exists line.
  - eapply Qle_trans; [|apply JsNum.max_r]. eapply Qle_trans; [|apply ceil_ge].
    rewrite <- (Qplus_0_l (paddingX * 2)) at 1. apply Qplus_le_l. apply max_list_ge.
  - eapply Qle_trans; [|apply JsNum.max_r]. apply ceil_ge.
Qed.

Lemma clamp_range (v a b : Q) : a <= b -> a <= JsNum.clamp v a b <= b.
Proof.
  intros H. unfold JsNum.clamp. split; [apply JsNum.max_l|].
  unfold JsNum.max. destruct (Qle_bool a (JsNum.min b v)); [|exact H].
  unfold JsNum.min. destruct (Qle_bool b v) eqn:E; [apply Qle_refl|].
  apply Qlt_le_weak, Qnot_le_lt. intro L. apply Qle_bool_iff in L. congruence.
Qed.

End BoxFits.

(** [clamp(v, a, b)] with [a <= b] lies between [a] and [b] and is [v]
    when [v] does. *)
Theorem clamp_between (v a b : Q) :
  (a <= b)%Q ->
  (a <= JsNum.clamp v a b <= b)%Q
  /\ ((a <= v <= b)%Q -> (JsNum.clamp v a b == v)%Q).
Proof.
  intros H. split; [now apply BoxFits.clamp_range|].
  intros [Ha Hb]. unfold JsNum.clamp, JsNum.min.
  destruct (Qle_bool b v) eqn:E.
  - apply Qle_bool_iff in E.
    assert (Ev : (b == v)%Q) by (apply Qle_antisym; assumption).
    unfold JsNum.max. destruct (Qle_bool a b) eqn:E2; [exact Ev|].
    apply Qle_bool_iff in H. congruence.
  - unfold JsNum.max. destruct (Qle_bool a v) eqn:E2; [apply Qeq_refl|].
    apply Qle_bool_iff in Ha. congruence.
Qed.

Lemma clamp_between_witness :
  (12 <= 20)%Q /\ (12 <= JsNum.clamp 35 12 20 <= 20)%Q.
Proof.
  assert (H : (12 <= 20)%Q) by discriminate.
  split; [exact H|]. exact (proj1 (clamp_between 35 12 20 H)).
Defined.

(** After [resizeNodeForLabel] the box holds the text as [layoutLabel]
    measures it: every line with its padding of 16 on both sides is not
    wider than the box, and the lines with the padding of 12 above and
    below are not higher.  The font size is between 12 and 20. *)
Theorem resized_box_holds_text (n : MindNode) :
  let f := Layout.resize_font n in
  let L := Layout.layoutLabel (label n) f BASE_W in
  let n' := Layout.resizeNodeForLabel n in
  (12 <= f <= 20)%Q
  /\ (forall line, In line (Layout.lines L) ->
        (Layout.approxTextWidth line f + 32 <= w n')%Q)
  /\ (inject_Z (Z.of_nat (List.length (Layout.lines L))) * Layout.lineHeight L + 24
      <= h n')%Q.
Proof.
  cbv zeta.
  assert (F : (12 <= Layout.resize_font n <= 20)%Q).
  { unfold Layout.resize_font. apply BoxFits.clamp_range. discriminate. }
  split; [exact F|].
  unfold Layout.resizeNodeForLabel, Layout.layoutLabel.
  pose proof (BoxFits.layout_core_fits (label n) (Layout.resize_font n) BASE_W) as H.
  assert (B : (64 <= snd (fst (Layout.layout_core (label n) (Layout.resize_font n) BASE_W)))%Q).
  { pose proof (LayoutFacts.layout_core_bounds (label n) (Layout.resize_font n) BASE_W) as K.
    destruct (Layout.layout_core _ _ _) as [[[ls width] height] lh]. apply K. }
  assert (LH : snd (Layout.layout_core (label n) (Layout.resize_font n) BASE_W)
               = JsNum.round (Layout.resize_font n * (115 # 100))).
  { unfold Layout.layout_core. cbv zeta. destruct (Layout.rebuild_loop _ _ _ _ _). reflexivity. }
  destruct (Layout.layout_core (label n) (Layout.resize_font n) BASE_W)
    as [[[ls width] height] lh].
  cbn [fst snd] in B, LH.
  destruct H as (Hw & Hp & Hh).
  cbn [Layout.lines Layout.lineHeight w h set_size Layout.width Layout.height].
  change (Layout.paddingX * 2)%Q with 32%Q in Hw, Hp.
  change (Layout.paddingY * 2)%Q with 24%Q in Hh.
  destruct ls as [|l0 ls].
  - split.
    + intros line [<-|[]]. unfold Layout.approxTextWidth, Layout.qlen. cbn [String.length].
      eapply Qle_trans; [|exact Hp].
      setoid_replace (inject_Z (Z.of_nat 0) * Layout.resize_font n * (6 # 10) + 32)%Q
        with 32%Q by ring. apply Qle_refl.
    + cbn [List.length]. eapply Qle_trans; [|exact B].
      assert (R : (lh <= 24)%Q).
      { rewrite LH. unfold JsNum.round. change 24%Q with (inject_Z 24).
        rewrite <- Zle_Qle. apply ResizeFacts.floor_half_le.
        destruct F as [_ F2].
        apply Qle_lt_trans with (20 * (115 # 100))%Q; [|reflexivity].
        apply Qmult_le_compat_r; [exact F2|discriminate]. }
      setoid_replace (inject_Z (Z.of_nat 1) * lh + 24)%Q with (lh + 24)%Q by ring.
      apply Qle_trans with (24 + 24)%Q; [|discriminate].
      now apply Qplus_le_l.
  - split; [exact Hw|exact Hh].
Qed.

(** ** The wrapped text and its box ([src/App.tsx] l.54-111) *)

Module TextBox.

Import Layout.
Local Open Scope Q_scope.

(** [ls] with the line in progress, when there is one. *)
Definition closed (st : list string * string) : list string :=
  if JsString.truthy (snd st) then fst st ++ [snd st] else fst st.

Definition join (l : list string) : string := String.concat " " l.

Lemma append_assoc (a b c : string) : ((a ++ b) ++ c = a ++ b ++ c)%string.
Proof. induction a as [|ch a IH]; simpl; [reflexivity|now rewrite IH]. Qed.

Lemma append_nil_r (a : string) : (a ++ "")%string = a.
Proof. induction a as [|ch a IH]; simpl; [reflexivity|now rewrite IH]. Qed.

Lemma snoc_cons (l : list string) (a : string) : exists y t, l ++ [a] = y :: t.
Proof. destruct l; simpl; eauto. Qed.

Lemma join_snoc (l : list string) (a b : string) :
  join ((l ++ [a]) ++ [b]) = (join (l ++ [a]) ++ " " ++ b)%string.
Proof.
  unfold join. induction l as [|c l IH]; [reflexivity|].
  change ((c :: l) ++ [a]) with (c :: (l ++ [a])).
  change ((c :: l ++ [a]) ++ [b]) with (c :: ((l ++ [a]) ++ [b])).
  destruct (snoc_cons l a) as (y1 & t1 & E1). destruct (snoc_cons (l ++ [a]) b) as (y2 & t2 & E2).
  cbn [String.concat]. rewrite E2, <- E2, IH, E1.
  now rewrite !append_assoc.
Qed.

Lemma join_snoc_merge (l : list string) (a b : string) :
  join (l ++ [(a ++ " " ++ b)%string]) = (join (l ++ [a]) ++ " " ++ b)%string.
Proof.
  unfold join. induction l as [|c l IH]; [reflexivity|].
  change ((c :: l) ++ [(a ++ " " ++ b)%string]) with (c :: (l ++ [(a ++ " " ++ b)%string])).
  change ((c :: l) ++ [a]) with (c :: (l ++ [a])).
  destruct (snoc_cons l (a ++ " " ++ b)%string) as (y1 & t1 & E1).
  destruct (snoc_cons l a) as (y2 & t2 & E2).
  cbn [String.concat]. rewrite E1, <- E1, IH, E2.
  now rewrite !append_assoc.
Qed.

(** One turn of the loop keeps the text: the lines so far, joined by
    spaces, are the words read so far, joined by spaces. *)
Lemma wrap_word_text (baseFont width : Q) (st : list string * string)
    (seen : list string) (wd : string) :
  JsString.truthy (snd st) = true -> JsString.truthy wd = true ->
  join (closed st) = join (seen) ->
  seen <> [] ->
  JsString.truthy (snd (wrap_word baseFont width st wd)) = true
  /\ join (closed (wrap_word baseFont width st wd)) = join (seen ++ [wd]).
Proof.
  destruct st as [ls current]. cbn [snd]. intros Tc Tw E Hs.
  assert (S : join (seen ++ [wd]) = (join seen ++ " " ++ wd)%string).
  { destruct (exists_last Hs) as (l' & a & ->). apply join_snoc. }
  unfold wrap_word. rewrite Tc.
  unfold closed in E. cbn [fst snd] in E. rewrite Tc in E.
  destruct (Qle_bool _ _).
  - unfold closed. cbn [fst snd].
    assert (T : JsString.truthy (current ++ " " ++ wd) = true)
      by (destruct current; [discriminate|reflexivity]).
    rewrite T. split; [reflexivity|]. rewrite join_snoc_merge, E, S. reflexivity.
  - unfold closed. cbn [fst snd]. rewrite Tw. split; [reflexivity|].
    rewrite join_snoc, E, S. reflexivity.
Qed.

Lemma wrap_fold_text (baseFont width : Q) (ws : list string) :
  forall st seen,
  JsString.truthy (snd st) = true ->
  Forall (fun wd => JsString.truthy wd = true) ws ->
  join (closed st) = join seen -> seen <> [] ->
  join (closed (fold_left (wrap_word baseFont width) ws st)) = join (seen ++ ws).
Proof.
  induction ws as [|wd ws IH]; intros st seen Tc Hw E Hs.
  - now rewrite app_nil_r.
  - inversion Hw as [|? ? Tw Hw']; subst.
    destruct (wrap_word_text baseFont width st seen wd Tc Tw E Hs) as [T' E'].
    cbn [fold_left]. rewrite (IH _ (seen ++ [wd]) T' Hw' E').
    + now rewrite <- app_assoc.
    + destruct seen; discriminate.
Qed.

Lemma split_ws_truthy (s : string) :
  forall cur, Forall (fun wd => JsString.truthy wd = true) (JsString.split_ws cur s).
Proof.
  induction s as [|c s IH]; intros cur; cbn [JsString.split_ws].
  - destruct (JsString.truthy cur) eqn:T; [constructor; [exact T|constructor]|constructor].
  - destruct (JsString.is_space c); [|apply IH].
    destruct (JsString.truthy cur) eqn:T; [constructor; [exact T|apply IH]|apply IH].
Qed.

(** A pass of [rebuild] keeps the text. *)
Lemma wrap_text (label : string) (baseFont width : Q) :
  join (wrap label baseFont width) = join (items label).
Proof.
  assert (C : wrap label baseFont width
              = closed (fold_left (wrap_word baseFont width) (items label) ([], ""%string))).
  { unfold wrap, closed. destruct (fold_left _ _ _) as [ls current]. reflexivity. }
  rewrite C. clear C. unfold items.
  pose proof (split_ws_truthy label ""%string) as T. fold (JsString.words label) in T.
  destruct (JsString.words label) as [|w0 ws].
  - cbn [fold_left]. unfold wrap_word. cbn [JsString.truthy].
    destruct (Qle_bool _ _); unfold closed; cbn [fst snd];
      destruct (JsString.truthy label) eqn:Tl; try reflexivity;
      destruct label; try discriminate; reflexivity.
  - inversion T as [|? ? T0 Tws]; subst.
    cbn [fold_left].
    assert (E0 : wrap_word baseFont width ([], ""%string) w0 = ([], w0)).
    { unfold wrap_word. cbn [JsString.truthy]. destruct (Qle_bool _ _); reflexivity. }
    rewrite E0.
    rewrite (wrap_fold_text baseFont width ws ([], w0) [w0]); try assumption; try reflexivity.
    + unfold closed. cbn [fst snd]. now rewrite T0.
    + discriminate.
Qed.

Lemma rebuild_loop_text (k : nat) (label : string) (baseFont : Q) :
  forall ls width,
  (0 < k)%nat ->
  join (fst (rebuild_loop k label baseFont ls width)) = join (items label).
Proof.
  induction k as [|k IH]; intros ls width Hk; [lia|].
  cbn [rebuild_loop]. destruct (_ <? _)%nat.
  - destruct k as [|k']; [cbn [rebuild_loop fst]; apply wrap_text|].
    apply IH. lia.
  - cbn [fst]. apply wrap_text.
Qed.

End TextBox.

(** [layoutLabel] wraps without losing, splitting or reordering a word:
    its lines joined by single spaces are the words of the label joined by
    single spaces (a label without a word counts as one item). *)
Theorem layoutLabel_keeps_words (label : string) (baseFont minW : Q) :
  String.concat " " (Layout.lines (Layout.layoutLabel label baseFont minW))
  = String.concat " " (Layout.items label)
  /\ String.concat " " (Layout.lines (Layout.Ts.layoutLabel label baseFont minW))
     = String.concat " " (Layout.items label).
Proof.
  unfold Layout.layoutLabel, Layout.Ts.layoutLabel, Layout.layout_core. cbv zeta.
  pose proof (TextBox.rebuild_loop_text 6 label baseFont []
                (JsNum.max minW BASE_W) ltac:(lia)) as H.
  destruct (Layout.rebuild_loop 6 label baseFont [] (JsNum.max minW BASE_W)) as [ls width0].
  cbn [fst] in H. cbn [Layout.lines]. unfold TextBox.join in H.
  split; [|exact H].
  destruct ls as [|l0 ls]; [|exact H]. rewrite <- H. reflexivity.
Qed.

(** ** The document as a graph *)

Module Graph.

(** A document is well formed when no two nodes share an identifier and
    both ends of every edge are nodes. *)
Definition well_formed (ns : list MindNode) (es : list Link) : Prop :=
  NoDup (map id ns)
  /\ forall ed, In ed es -> In (source ed) (map id ns) /\ In (target ed) (map id ns).

Lemma fold_max_ge (l : list Z) : forall a, (a <= fold_left Z.max l a)%Z.
Proof.
  induction l as [|b l IH]; intros a; simpl; [lia|].
  specialize (IH (Z.max a b)). lia.
Qed.

Lemma fold_max_upper (l : list Z) :
  forall a v, In v (a :: l) -> (v <= fold_left Z.max l a)%Z.
Proof.
  induction l as [|b l IH]; intros a v H.
  - destruct H as [<-|[]]. simpl. lia.
  - cbn [fold_left]. destruct H as [<-|[<-|H]].
    + pose proof (fold_max_ge l (Z.max a b)). lia.
    + pose proof (fold_max_ge l (Z.max a b)). lia.
    + apply IH. now right.
Qed.

Lemma max_id_upper (ns : list MindNode) (i : Z) :
  In i (map id ns) -> (i <= max_id ns)%Z.
Proof.
  unfold max_id. destruct (map id ns) as [|a t]; [intros []|]. apply fold_max_upper.
Qed.

(** The identifier of a new node is larger than every identifier in
    use. *)
Lemma next_id_fresh (ns : list MindNode) (i : Z) :
  In i (map id ns) -> (i < next_id ns)%Z.
Proof.
  intros H. unfold next_id. destruct ns as [|n ns]; [destruct H|].
  apply max_id_upper in H. lia.
Qed.

Lemma NoDup_snoc (l : list Z) (a : Z) : NoDup l -> ~ In a l -> NoDup (l ++ [a]).
Proof.
  intros Hl Ha. induction Hl as [|b l Hb Hl IH]; simpl.
  - constructor; [intros []|constructor].
  - constructor.
    + rewrite in_app_iff. simpl. intros [H|[H|[]]]; [contradiction|].
      apply Ha. left. symmetry. exact H.
    + apply IH. intros H. apply Ha. now right.
Qed.

Lemma getParentId_app (es extra : list Link) (c : Z) :
  (forall ed, In ed es -> target ed <> c) ->
  getParentId (es ++ extra) c = getParentId extra c.
Proof.
  intros H. unfold getParentId. induction es as [|ed es IH]; [reflexivity|].
  simpl. destruct (Z.eqb_spec (target ed) c) as [E|E].
  - exfalso. exact (H ed (or_introl eq_refl) E).
  - apply IH. intros ed' H'. apply H. now right.
Qed.

Lemma insert_sorted_In (a b : Z) (l : list Z) :
  In b (insert_sorted a l) <-> b = a \/ In b l.
Proof.
  induction l as [|c l IH]; simpl; [intuition|].
  destruct (a <=? c)%Z; simpl; [intuition|]. rewrite IH. intuition.
Qed.

Lemma sort_asc_In (b : Z) (l : list Z) : In b (sort_asc l) <-> In b l.
Proof.
  unfold sort_asc. induction l as [|a l IH]; simpl; [tauto|].
  rewrite insert_sorted_In, IH. intuition.
Qed.

Lemma getChildrenOf_In (es : list Link) (p c : Z) :
  In c (getChildrenOf es p) <-> exists ed, In ed es /\ source ed = p /\ target ed = c.
Proof.
  unfold getChildrenOf. rewrite sort_asc_In, in_map_iff. split.
  - intros (ed & <- & H). apply filter_In in H as [H E]. apply Z.eqb_eq in E. eauto.
  - intros (ed & H & E & <-). exists ed. split; [reflexivity|].
    apply filter_In. split; [exact H|]. now apply Z.eqb_eq.
Qed.

Lemma NoDup_filter_ids (f : MindNode -> bool) (ns : list MindNode) :
  NoDup (map id ns) -> NoDup (map id (filter f ns)).
Proof.
  induction ns as [|n ns IH]; intros Hn; [constructor|].
  cbn [map] in Hn. inversion Hn as [|? ? Hx Hr]; subst.
  cbn [filter]. destruct (f n); [|now apply IH].
  cbn [map]. constructor; [|now apply IH].
  intros H. apply Hx. apply in_map_iff in H as (m & E & Hm).
  apply filter_In in Hm as [Hm _]. rewrite <- E. now apply in_map.
Qed.

End Graph.

(** [getParentId] and [getChildrenOf] agree: the parent that
    [getParentId] gives for a node has the node among its children. *)
Theorem parent_has_child (es : list Link) (c p : Z) :
  getParentId es c = Some p -> In c (getChildrenOf es p).
Proof.
  unfold getParentId. intros H.
  destruct (find (fun ed => (target ed =? c)%Z) es) as [ed|] eqn:F; [|discriminate].
  injection H as <-. apply find_some in F as [Hin E]. apply Z.eqb_eq in E.
  apply Graph.getChildrenOf_In. now exists ed.
Qed.

Lemma parent_has_child_witness :
  getParentId [mkLink 9 1 2 None None None] 2 = Some 1%Z
  /\ In 2%Z (getChildrenOf [mkLink 9 1 2 None None None] 1).
Proof.
  split; [reflexivity|]. now apply parent_has_child.
Defined.

(** [addChild] takes the identifier of the child from the nodes of the
    closure [r] it is called in and appends to the document as it is.  On
    a well-formed document the result is well formed exactly when that
    identifier is not in use in the document and the parent is a node of
    it.  Called in the closure of the current render it keeps the document
    well formed: the identifier of the child is new, the child hangs under
    the parent ([getParentId] gives the parent) and is one of its
    children. *)
Theorem addChild_keeps_well_formed (r : Render) (e : Env) (parentId : Z) (s : State)
    (parent : MindNode) :
  Graph.well_formed (nodes (ui s)) (edges (ui s)) ->
  find_node (nodes r) parentId = Some parent ->
  let s' := fst (App.addChild r e parentId s) in
  let c := snd (App.addChild r e parentId s) in
  c = next_id (nodes r)
  /\ In c (map id (nodes (ui s')))
  /\ (Graph.well_formed (nodes (ui s')) (edges (ui s'))
      <-> ~ In c (map id (nodes (ui s))) /\ In parentId (map id (nodes (ui s))))
  /\ (nodes r = nodes (ui s) ->
      Graph.well_formed (nodes (ui s')) (edges (ui s'))
      /\ ~ In c (map id (nodes (ui s)))
      /\ getParentId (edges (ui s')) c = Some parentId
      /\ In c (getChildrenOf (edges (ui s')) parentId)).
Proof.
  intros [Hn He] Hp. cbv zeta. unfold App.addChild. rewrite Hp. cbv zeta.
  destruct (child_search _ _ _ _ _ _ _ _ _) as [cx cy].
  cbn [fst snd].
  set (c := next_id (nodes r)).
  assert (Hpar : In parentId (map id (nodes r))).
  { apply find_some in Hp as [Hin E]. apply Z.eqb_eq in E. rewrite <- E.
    now apply in_map. }
  assert (Hcp : parentId <> c).
  { apply Graph.next_id_fresh in Hpar. unfold c. lia. }
  match goal with
  | |- _ /\ In c (map id (nodes (ui ?t))) /\ _ =>
      change (nodes (ui t)) with (nodes (ui s) ++ [mkNode c "" cx cy BASE_W BASE_H
                                     (strokeColor parent) (fillColor parent) (Some false)]);
      change (edges (ui t)) with (edges (ui s) ++ [mkLink (now e) parentId c None None (Some false)])
  end.
  assert (Hin : In c (map id (nodes (ui s) ++ [mkNode c "" cx cy BASE_W BASE_H
                                (strokeColor parent) (fillColor parent) (Some false)])))
    by (rewrite map_app, in_app_iff; right; now left).
  assert (Hwf : ~ In c (map id (nodes (ui s))) -> In parentId (map id (nodes (ui s))) ->
                Graph.well_formed
                  (nodes (ui s) ++ [mkNode c "" cx cy BASE_W BASE_H
                                      (strokeColor parent) (fillColor parent) (Some false)])
                  (edges (ui s) ++ [mkLink (now e) parentId c None None (Some false)])).
  { intros Hc Hpl. split.
    - rewrite map_app. cbn [map id]. now apply Graph.NoDup_snoc.
    - intros ed Hed. rewrite map_app, !in_app_iff. cbn [map id In].
      apply in_app_iff in Hed as [Hed|[<-|[]]].
      + destruct (He ed Hed). tauto.
      + cbn [source target]. tauto. }
  split; [reflexivity|]. split; [exact Hin|]. split; [split|].
  - intros [Hn' He']. split.
    + rewrite map_app in Hn'. cbn [map id] in Hn'.
      apply NoDup_remove_2 in Hn'. now rewrite app_nil_r in Hn'.
    + destruct (He' (mkLink (now e) parentId c None None (Some false))) as [Hs _];
        [apply in_app_iff; right; now left|].
      cbn [source] in Hs. rewrite map_app, in_app_iff in Hs. cbn [map id In] in Hs.
      destruct Hs as [Hs|[Hs|[]]]; [exact Hs|]. now elim Hcp.
  - intros [Hc Hpl]. now apply Hwf.
  - intros Er.
    assert (Hc : ~ In c (map id (nodes (ui s)))).
    { intros H. rewrite <- Er in H. apply Graph.next_id_fresh in H. unfold c in H. lia. }
    assert (Hpl : In parentId (map id (nodes (ui s)))) by now rewrite <- Er.
    split; [now apply Hwf|]. split; [exact Hc|]. split.
    + rewrite Graph.getParentId_app.
      * unfold getParentId. cbn [find target source]. now rewrite Z.eqb_refl.
      * intros ed Hed E. apply Hc. rewrite <- E. now apply He.
    + now apply Graph.getChildrenOf_In; eexists; split;
        [apply in_app_iff; right; left; reflexivity|split; reflexivity].
Qed.

Lemma addChild_keeps_well_formed_witness :
  Graph.well_formed (nodes (ui (init_state 800 600))) (edges (ui (init_state 800 600)))
  /\ find_node (nodes (ui (init_state 800 600))) 1 = Some start_node
  /\ getParentId
       (edges (ui (fst (App.addChild (ui (init_state 800 600)) (mkEnv 7 None 0) 1
                         (init_state 800 600)))))
       (snd (App.addChild (ui (init_state 800 600)) (mkEnv 7 None 0) 1
               (init_state 800 600)))
     = Some 1%Z.
Proof.
  assert (W : Graph.well_formed (nodes (ui (init_state 800 600)))
                (edges (ui (init_state 800 600)))).
  { split.
    - cbn [init_state ui nodes map id start_node]. constructor; [intros []|constructor].
    - intros ed []. }
  split; [exact W|]. split; [reflexivity|].
  exact (proj1 (proj2 (proj2 (proj2 (proj2 (proj2
           (addChild_keeps_well_formed (ui (init_state 800 600)) (mkEnv 7 None 0) 1
              (init_state 800 600) start_node W eq_refl))) eq_refl)))).
Defined.

(** In a well-formed document [removeNodes] keeps the document well
    formed: the nodes of [ids] are gone, no edge that is left touches one
    of them, and the other nodes and the edges among them stay. *)
Theorem removeNodes_keeps_well_formed (ids : list Z) (s : State) :
  Graph.well_formed (nodes (ui s)) (edges (ui s)) ->
  let s' := App.removeNodes (ui s) ids s in
  Graph.well_formed (nodes (ui s')) (edges (ui s'))
  /\ (forall n, In n (nodes (ui s')) <-> In n (nodes (ui s)) /\ ~ In (id n) ids)
  /\ (forall ed, In ed (edges (ui s'))
                 <-> In ed (edges (ui s)) /\ ~ In (source ed) ids /\ ~ In (target ed) ids).
Proof.
  intros [Hn He]. cbv zeta.
  destruct (App_removeNodes_nodes (ui s) ids s) as [-> ->].
  split; [|split; [intros n; apply kept_nodes_spec|intros ed; apply kept_edges_spec]].
  split.
  - unfold kept_nodes. now apply Graph.NoDup_filter_ids.
  - intros ed Hed. apply kept_edges_spec in Hed as (Hed & Hs & Ht).
    destruct (He ed Hed) as [Is It].
    apply in_map_iff in Is as (a & Ea & Ia). apply in_map_iff in It as (b & Eb & Ib).
    split; apply in_map_iff.
    + exists a. split; [exact Ea|]. apply kept_nodes_spec. split; [exact Ia|now rewrite Ea].
    + exists b. split; [exact Eb|]. apply kept_nodes_spec. split; [exact Ib|now rewrite Eb].
Qed.

Lemma removeNodes_keeps_well_formed_witness :
  Graph.well_formed (nodes (ui (init_state 800 600))) (edges (ui (init_state 800 600)))
  /\ Graph.well_formed
       (nodes (ui (App.removeNodes (ui (init_state 800 600)) [1%Z] (init_state 800 600))))
       (edges (ui (App.removeNodes (ui (init_state 800 600)) [1%Z] (init_state 800 600)))).
Proof.
  assert (W : Graph.well_formed (nodes (ui (init_state 800 600)))
                (edges (ui (init_state 800 600)))).
  { split.
    - cbn [init_state ui nodes map id start_node]. constructor; [intros []|constructor].
    - intros ed []. }
  split; [exact W|].
  exact (proj1 (removeNodes_keeps_well_formed [1%Z] (init_state 800 600) W)).
Defined.

(** ** Copy and paste ([src/App.tsx] l.772-809) *)

Module Paste.

(** A pasted node: the copied node moved by 20 in both directions,
    under a new identifier. *)
Definition shifted (old new : MindNode) : Prop :=
  label new = label old
  /\ x new = (x old + 20)%R /\ y new = (y old + 20)%R
  /\ w new = w old /\ h new = h old
  /\ strokeColor new = strokeColor old /\ fillColor new = fillColor old
  /\ bold new = bold old.

Lemma paste_nodes_shape (ns : list MindNode) :
  forall m,
  Forall2 shifted ns (fst (App.paste_nodes m ns))
  /\ map fst (snd (App.paste_nodes m ns)) = map id ns
  /\ map snd (snd (App.paste_nodes m ns)) = map id (fst (App.paste_nodes m ns))
  /\ map id (fst (App.paste_nodes m ns))
     = map (fun k => (m + 1 + Z.of_nat k)%Z) (seq 0 (List.length ns)).
Proof.
  induction ns as [|n ns IH]; intros m.
  - cbn. repeat split; constructor.
  - cbn [App.paste_nodes]. specialize (IH (m + 1)%Z).
    destruct (App.paste_nodes (m + 1) ns) as [ns' idMap].
    cbn [fst snd] in IH |- *. destruct IH as (F & E1 & E2 & E3).
    split; [|split; [|split]].
    + constructor; [|exact F]. unfold shifted. cbn. repeat split; reflexivity.
    + cbn [map fst]. now rewrite E1.
    + cbn [map snd id]. now rewrite E2.
    + cbn [map id List.length seq]. rewrite E3. f_equal; [lia|].
      rewrite <- seq_shift, map_map. apply map_ext. intros k. lia.
Qed.

Lemma new_ids_range (m : Z) (k : nat) (i : Z) :
  In i (map (fun j => (m + 1 + Z.of_nat j)%Z) (seq 0 k)) -> (m < i)%Z.
Proof. intros H. apply in_map_iff in H as (j & <- & _). lia. Qed.

Lemma new_ids_nodup (m : Z) (k : nat) :
  NoDup (map (fun j => (m + 1 + Z.of_nat j)%Z) (seq 0 k)).
Proof.
  assert (G : forall l : list nat, NoDup l ->
              NoDup (map (fun j => (m + 1 + Z.of_nat j)%Z) l)).
  { induction 1 as [|a l Ha Hl IH]; cbn [map]; constructor; [|exact IH].
    intros H. apply in_map_iff in H as (b & E & Hb).
    assert (b = a) by lia. subst b. contradiction. }
  apply G, seq_NoDup.
Qed.

Lemma nodupb_of_NoDup (l : list Z) : NoDup l -> NumSet.nodupb l = true.
Proof.
  induction 1 as [|a l Ha Hl IH]; [reflexivity|].
  cbn [NumSet.nodupb]. rewrite IH, andb_true_r. apply negb_true_iff.
  destruct (NumSet.mem a l) eqn:E; [|reflexivity].
  apply mem_In in E. contradiction.
Qed.

(** The identifier map sends a copied identifier to a pasted one. *)
Lemma map_get_new (idMap : list (Z * Z)) (i : Z) :
  In i (map fst idMap) -> In (App.map_get idMap i) (map snd idMap).
Proof.
  intros H. unfold App.map_get.
  destruct (find (fun p => (fst p =? i)%Z) (rev idMap)) as [p|] eqn:F.
  - apply find_some in F as [Hin _]. apply in_rev in Hin. now apply in_map.
  - exfalso. apply in_map_iff in H as (p & E & Hp).
    apply in_rev in Hp. pose proof (find_none _ _ F p Hp) as N.
    cbv beta in N. rewrite E, Z.eqb_refl in N. discriminate.
Qed.

Lemma paste_edges_ends (stamp : nat -> Z) (idMap : list (Z * Z)) (es : list Link) :
  forall k ed,
  (forall ed', In ed' es -> In (source ed') (map fst idMap) /\ In (target ed') (map fst idMap)) ->
  In ed (App.paste_edges stamp k idMap es) ->
  In (source ed) (map snd idMap) /\ In (target ed) (map snd idMap).
Proof.
  induction es as [|e0 es IH]; intros k ed H Hin; [destruct Hin|].
  cbn [App.paste_edges] in Hin. destruct Hin as [<-|Hin].
  - cbn [source target]. destruct (H e0 (or_introl eq_refl)).
    split; now apply map_get_new.
  - apply (IH (S k)); [|exact Hin]. intros ed' H'. apply H. now right.
Qed.

Lemma paste_edges_length (stamp : nat -> Z) (idMap : list (Z * Z)) (es : list Link) :
  forall k, List.length (App.paste_edges stamp k idMap es) = List.length es.
Proof.
  induction es as [|e0 es IH]; intros k; [reflexivity|].
  cbn [App.paste_edges List.length]. now rewrite IH.
Qed.

(** A pasted edge: the copied edge between the copies of its ends;
    [pairs] relates the identifier of a copied node to that of its copy. *)
Definition copied (pairs : list (Z * Z)) (old new : Link) : Prop :=
  link_label new = link_label old
  /\ dashed new = dashed old /\ arrow new = arrow old
  /\ In (source old, source new) pairs
  /\ In (target old, target new) pairs.

Lemma combine_fst_snd (l : list (Z * Z)) : combine (map fst l) (map snd l) = l.
Proof.
  induction l as [|[a b] l IH]; [reflexivity|]. cbn [map combine fst snd]. now rewrite IH.
Qed.

Lemma map_get_pair (idMap : list (Z * Z)) (i : Z) :
  In i (map fst idMap) -> In (i, App.map_get idMap i) idMap.
Proof.
  intros H. unfold App.map_get.
  destruct (find (fun p => (fst p =? i)%Z) (rev idMap)) as [[j v]|] eqn:F.
  - apply find_some in F as [Hin E]. apply in_rev in Hin. cbn [fst] in E.
    apply Z.eqb_eq in E. subst j. exact Hin.
  - exfalso. apply in_map_iff in H as (q & E & Hq).
    apply in_rev in Hq. pose proof (find_none _ _ F q Hq) as N.
    cbv beta in N. rewrite E, Z.eqb_refl in N. discriminate.
Qed.

Lemma paste_edges_copied (stamp : nat -> Z) (idMap : list (Z * Z)) (es : list Link) :
  forall k,
  (forall ed, In ed es -> In (source ed) (map fst idMap) /\ In (target ed) (map fst idMap)) ->
  Forall2 (copied idMap) es (App.paste_edges stamp k idMap es).
Proof.
  induction es as [|e0 es IH]; intros k H; [constructor|].
  cbn [App.paste_edges]. destruct (H e0 (or_introl eq_refl)) as [Hs Ht].
  constructor.
  - unfold copied. cbn [link_label dashed arrow source target].
    split; [reflexivity|]. split; [reflexivity|]. split; [reflexivity|].
    split; now apply map_get_pair.
  - apply IH. intros ed Hed. apply H. now right.
Qed.

End Paste.

(** Copy followed by paste.  [Ctrl+C] takes the selected nodes and the
    edges between them from the closure [r] of the [keydown] handler, and
    sets the clipboard, which the effect of the handler depends on: the
    [Ctrl+V] that follows runs in the closure of the render after the copy.
    It appends the copies to the document: under new identifiers that count
    up from the largest one in use, moved by 20 in both directions; every
    copied edge, with its label and flags, between the copies of its ends;
    the copies become the selection; the document stays well formed. *)
Theorem copy_paste_duplicates (stamp : nat -> Z) (r : Render) (s : State) :
  Graph.well_formed (nodes (ui s)) (edges (ui s)) ->
  Graph.well_formed (nodes r) (edges r) ->
  (0 < NumSet.size (selectedIds r))%nat ->
  let picked := filter (fun n => NumSet.has (id n) (selectedIds r)) (nodes r) in
  let between := filter (fun ed => NumSet.has (source ed) (selectedIds r)
                                   && NumSet.has (target ed) (selectedIds r))
                   (edges r) in
  let s1 := App.copy r s in
  let s2 := App.paste (ui s1) stamp s1 in
  exists newNodes newEdges,
    clipboard (ui s1) = Some (mkClipboard picked between)
    /\ nodes (ui s2) = nodes (ui s) ++ newNodes
    /\ edges (ui s2) = edges (ui s) ++ newEdges
    /\ Forall2 Paste.shifted picked newNodes
    /\ map id newNodes
       = map (fun k => (max_id (nodes (ui s)) + 1 + Z.of_nat k)%Z)
           (seq 0 (List.length picked))
    /\ Forall2 (Paste.copied (combine (map id picked) (map id newNodes))) between newEdges
    /\ NumSet.elems (selectedIds (ui s2)) = map id newNodes
    /\ NumSet.elems (selectedEdgeIds (ui s2)) = []
    /\ Graph.well_formed (nodes (ui s2)) (edges (ui s2)).
Proof.
  intros [Hn He] [_ Her] Hsel. cbv zeta.
  set (picked := filter (fun n => NumSet.has (id n) (selectedIds r)) (nodes r)).
  set (between := filter (fun ed => NumSet.has (source ed) (selectedIds r)
                                    && NumSet.has (target ed) (selectedIds r))
                    (edges r)).
  assert (E1 : App.copy r s
               = setClipboard (Some (mkClipboard picked between)) s).
  { unfold App.copy. apply Nat.ltb_lt in Hsel. now rewrite Hsel. }
  rewrite E1. unfold App.paste.
  change (clipboard (ui (setClipboard (Some (mkClipboard picked between)) s)))
    with (Some (mkClipboard picked between)).
  change (nodes (ui (setClipboard (Some (mkClipboard picked between)) s)))
    with (nodes (ui s)).
  cbv zeta. cbn [clip_nodes clip_edges].
  assert (M : match nodes (ui s) with [] => 0%Z | _ :: _ => max_id (nodes (ui s)) end
              = max_id (nodes (ui s))).
  { destruct (nodes (ui s)); reflexivity. }
  rewrite M. clear M.
  pose proof (Paste.paste_nodes_shape picked (max_id (nodes (ui s)))) as (F & M1 & M2 & M3).
  destruct (App.paste_nodes (max_id (nodes (ui s))) picked) as [newNodes idMap].
  cbn [fst snd] in F, M1, M2, M3.
  exists newNodes, (App.paste_edges stamp 0 idMap between).
  assert (Hnew : NoDup (map id newNodes)) by (rewrite M3; apply Paste.new_ids_nodup).
  assert (Hends : forall ed, In ed between ->
                    In (source ed) (map fst idMap) /\ In (target ed) (map fst idMap)).
  { intros ed' H'. unfold between in H'. apply filter_In in H' as [Hin Hb].
    apply andb_true_iff in Hb as [Hs Ht]. destruct (Her ed' Hin) as [Is It].
    rewrite M1. unfold picked.
    apply in_map_iff in Is as (a & Ea & Ia). apply in_map_iff in It as (b & Eb & Ib).
    split; apply in_map_iff.
    - exists a. split; [exact Ea|]. apply filter_In. split; [exact Ia|now rewrite Ea].
    - exists b. split; [exact Eb|]. apply filter_In. split; [exact Ib|now rewrite Eb]. }
  split; [reflexivity|].
  split; [reflexivity|]. split; [reflexivity|]. split; [exact F|]. split; [exact M3|].
  split; [rewrite <- M1, <- M2, Paste.combine_fst_snd; now apply Paste.paste_edges_copied|].
  split; [apply NumSet.elems_of_list_nodup, Paste.nodupb_of_NoDup, Hnew|].
  split; [reflexivity|].
  match goal with
  | |- Graph.well_formed (nodes (ui ?t)) (edges (ui ?t)) =>
      change (nodes (ui t)) with (nodes (ui s) ++ newNodes);
      change (edges (ui t)) with (edges (ui s) ++ App.paste_edges stamp 0 idMap between)
  end.
  split.
  - rewrite map_app. apply NoDup_app; [exact Hn|exact Hnew|].
    intros i Hi Hi'. rewrite M3 in Hi'. apply Paste.new_ids_range in Hi'.
    apply Graph.max_id_upper in Hi. lia.
  - intros ed Hed. rewrite map_app, !in_app_iff.
    apply in_app_iff in Hed as [Hed|Hed].
    + destruct (He ed Hed). tauto.
    + apply Paste.paste_edges_ends in Hed; [|exact Hends].
      rewrite M2 in Hed. tauto.
Qed.

Lemma copy_paste_duplicates_witness :
  let s := init_state 800 600 in
  let s1 := App.copy (ui s) s in
  let s2 := App.paste (ui s1) (fun k => Z.of_nat k) s1 in
  Graph.well_formed (nodes (ui s)) (edges (ui s))
  /\ (0 < NumSet.size (selectedIds (ui s)))%nat
  /\ Graph.well_formed (nodes (ui s2)) (edges (ui s2)).
Proof.
  cbv zeta.
  assert (W : Graph.well_formed (nodes (ui (init_state 800 600)))
                (edges (ui (init_state 800 600)))).
  { split.
    - cbn [init_state ui nodes map id start_node]. constructor; [intros []|constructor].
    - intros ed []. }
  assert (S : (0 < NumSet.size (selectedIds (ui (init_state 800 600))))%nat).
  { apply Nat.ltb_lt. reflexivity. }
  split; [exact W|]. split; [exact S|].
  destruct (copy_paste_duplicates (fun k => Z.of_nat k) (ui (init_state 800 600))
              (init_state 800 600) W W S)
    as (newNodes & newEdges & _ & _ & _ & _ & _ & _ & _ & _ & H).
  exact H.
Defined.

(** The copy is taken from the closure.  The letter [a] typed into the
    start node leaves the [keydown] handler as it was; [Ctrl+C] then copies
    the node with the label of the closure, and [Ctrl+V] puts a node
    labelled [Start] next to the node labelled [a]. *)
Lemma copy_takes_closure_labels :
  let e := mkEnv 0 (Some (800, 600)) 0 in
  let stamp := fun _ : nat => 0%Z in
  let s0 := init_state 800 600 in
  let r0 := ui s0 in
  exists s1 s2 s3,
    App.onKeyDown r0 e stamp (App.mkKey (App.KChar "a") no_mods) s0 = Some s1
    /\ App.key_closure s1 r0
    /\ App.onKeyDown r0 e stamp
         (App.mkKey (App.KChar "c") (App.mkMods false true false)) s1 = Some s2
    /\ App.onKeyDown (ui s2) e stamp
         (App.mkKey (App.KChar "v") (App.mkMods false true false)) s2 = Some s3
    /\ map label (nodes (ui s3)) = ["a"%string; "Start"%string].
Proof.
  cbv zeta. eexists. eexists. eexists.
  split; [lazy; reflexivity|].
  split; [unfold App.key_closure; repeat split; lazy; reflexivity|].
  split; [lazy; reflexivity|]. split; lazy; reflexivity.
Qed.

(** ** Connecting nodes ([src/App.tsx] l.403-412 and l.724-737) *)

Module Connect.

Definition connected (es : list Link) (a b : Z) : bool := existsb (between a b) es.

Lemma between_sym (a b : Z) (ed : Link) : between a b ed = between b a ed.
Proof. unfold between. apply orb_comm. Qed.

Lemma connected_sym (es : list Link) (a b : Z) : connected es a b = connected es b a.
Proof.
  unfold connected. induction es as [|ed es IH]; [reflexivity|].
  cbn [existsb]. now rewrite IH, between_sym.
Qed.

End Connect.

(** [ensureEdge(a, b)] leaves [a] and [b] connected when they differ,
    adds at most one edge, adds none between a node and itself or between
    nodes that are connected in either direction, and so changes nothing
    when it is called again, in either direction. *)
Theorem ensureEdge_connects_once (e e' : Env) (a b : Z) (isArrow isArrow' : bool)
    (s : State) :
  let s' := App.ensureEdge (ui s) e a b isArrow s in
  (a <> b -> Connect.connected (edges (ui s')) a b = true)
  /\ (a = b -> s' = s)
  /\ (Connect.connected (edges (ui s)) a b = true -> s' = s)
  /\ (a <> b -> Connect.connected (edges (ui s)) a b = false ->
      edges (ui s') = edges (ui s) ++ [mkLink (now e) a b None None (Some isArrow)])
  /\ App.ensureEdge (ui s') e' a b isArrow' s' = s'
  /\ App.ensureEdge (ui s') e' b a isArrow' s' = s'.
Proof.
  cbv zeta.
  assert (K : forall t, (a =? b)%Z = false -> Connect.connected (edges (ui t)) a b = true ->
              App.ensureEdge (ui t) e' a b isArrow' t = t
              /\ App.ensureEdge (ui t) e' b a isArrow' t = t).
  { intros t Hab Hc. unfold App.ensureEdge. split.
    - rewrite Hab. unfold Connect.connected in Hc. now rewrite Hc.
    - rewrite Z.eqb_sym, Hab. rewrite Connect.connected_sym in Hc.
      unfold Connect.connected in Hc. now rewrite Hc. }
  assert (E : App.ensureEdge (ui s) e a b isArrow s
              = if (a =? b)%Z then s
                else if Connect.connected (edges (ui s)) a b then s
                else setEdges (fun es => es ++ [mkLink (now e) a b None None (Some isArrow)]) s)
    by reflexivity.
  rewrite E. clear E.
  destruct (Z.eq_dec a b) as [Eab|Nab].
  - subst b. rewrite Z.eqb_refl.
    assert (R : forall ar, App.ensureEdge (ui s) e' a a ar s = s).
    { intros ar. unfold App.ensureEdge. now rewrite Z.eqb_refl. }
    split; [intros H; now elim H|]. split; [reflexivity|]. split; [reflexivity|].
    split; [intros H; now elim H|]. split; apply R.
  - assert (Hab : (a =? b)%Z = false) by now apply Z.eqb_neq.
    rewrite Hab.
    destruct (Connect.connected (edges (ui s)) a b) eqn:C.
    + destruct (K s Hab C) as [K1 K2].
      split; [intros _; exact C|]. split; [reflexivity|]. split; [reflexivity|].
      split; [discriminate|]. split; assumption.
    + assert (C' : Connect.connected
                     (edges (ui (setEdges (fun es => es ++ [mkLink (now e) a b None None (Some isArrow)]) s)))
                     a b = true).
      { change (edges (ui (setEdges (fun es => es ++ [mkLink (now e) a b None None (Some isArrow)]) s)))
          with (edges (ui s) ++ [mkLink (now e) a b None None (Some isArrow)]).
        unfold Connect.connected. rewrite existsb_app. cbn [existsb].
        unfold between at 2. cbn [source target]. rewrite !Z.eqb_refl.
        cbn. apply orb_true_r. }
      destruct (K _ Hab C') as [K1 K2].
      split; [intros _; exact C'|]. split; [intros H; now elim Nab|].
      split; [discriminate|]. split; [reflexivity|]. split; assumption.
Qed.

(** ** Pointer gestures ([src/App.tsx] l.596-744) *)

Module Gestures.

Lemma Rleb_iff (a b : R) : Rleb a b = true <-> a <= b.
Proof. unfold Rleb. destruct (Rle_dec a b); split; intros; (assumption || reflexivity || discriminate || contradiction). Qed.

Lemma in_marquee_iff (m : Marquee) (n : MindNode) :
  App.in_marquee m n = true
  <-> Rmin (x1 m) (x2 m) <= x n <= Rmax (x1 m) (x2 m)
      /\ Rmin (y1 m) (y2 m) <= y n <= Rmax (y1 m) (y2 m).
Proof.
  unfold App.in_marquee. cbv zeta. rewrite !andb_true_iff, !Rleb_iff. tauto.
Qed.

Lemma elems_of_list (i : Z) (l : list Z) :
  In i (NumSet.elems (NumSet.of_list l)) <-> In i l.
Proof.
  rewrite <- (has_of_list i l). unfold NumSet.has. rewrite mem_In. reflexivity.
Qed.

(** What [selectOnly] leaves alone and what it sets. *)
Lemma selectOnly_spec (r : Render) (i : Z) (s : State) :
  nodes (ui (selectOnly r i s)) = nodes (ui s)
  /\ edges (ui (selectOnly r i s)) = edges (ui s)
  /\ selectedId (ui (selectOnly r i s)) = Some i
  /\ NumSet.elems (selectedIds (ui (selectOnly r i s))) = [i]
  /\ NumSet.elems (selectedEdgeIds (ui (selectOnly r i s))) = []
  /\ linking (ui (selectOnly r i s)) = linking (ui s)
  /\ marquee (ui (selectOnly r i s)) = marquee (ui s)
  /\ undoStack (refs (selectOnly r i s)) = undoStack (refs s)
  /\ somethingMoved (refs (selectOnly r i s)) = somethingMoved (refs s)
  /\ groupDragging (refs (selectOnly r i s)) = groupDragging (refs s)
  /\ prevSelectedId (refs (selectOnly r i s))
     = match selectedId r with
       | Some old => if (old =? i)%Z then prevSelectedId (refs s) else Some old
       | None => prevSelectedId (refs s)
       end.
Proof.
  unfold selectOnly. destruct (selectedId r) as [old|]; [destruct (old =? i)%Z|];
    repeat split; reflexivity.
Qed.

(** The toggle of a click with ctrl or shift. *)
Definition toggle (i : Z) (t : NumSet.t) : NumSet.t :=
  if NumSet.has i t then NumSet.delete i t else NumSet.add i t.

Lemma delete_In (i j : Z) (t : NumSet.t) :
  In j (NumSet.elems (NumSet.delete i t)) <-> In j (NumSet.elems t) /\ j <> i.
Proof.
  unfold NumSet.delete. cbn [NumSet.elems].
  rewrite filter_In, negb_true_iff, Z.eqb_neq. tauto.
Qed.

Lemma add_In (i j : Z) (t : NumSet.t) :
  In j (NumSet.elems (NumSet.add i t)) <-> In j (NumSet.elems t) \/ j = i.
Proof. unfold NumSet.add. cbn [NumSet.elems]. rewrite add_list_In. tauto. Qed.

Lemma has_In (i : Z) (t : NumSet.t) : NumSet.has i t = true <-> In i (NumSet.elems t).
Proof. unfold NumSet.has. apply mem_In. Qed.

Lemma toggle_In (i j : Z) (t : NumSet.t) :
  In j (NumSet.elems (toggle i t))
  <-> (if NumSet.has i t then In j (NumSet.elems t) /\ j <> i
       else In j (NumSet.elems t) \/ j = i).
Proof. unfold toggle. destruct (NumSet.has i t); [apply delete_In|apply add_In]. Qed.

Lemma toggle_twice_In (i j : Z) (t : NumSet.t) :
  In j (NumSet.elems (toggle i (toggle i t))) <-> In j (NumSet.elems t).
Proof.
  rewrite toggle_In.
  destruct (NumSet.has i (toggle i t)) eqn:E1.
  - apply has_In in E1. rewrite toggle_In in E1 |- *.
    destruct (NumSet.has i t) eqn:E; [tauto|].
    split; [tauto|]. intros H. split; [now left|]. intros ->.
    apply has_In in H. congruence.
  - rewrite toggle_In. destruct (NumSet.has i t) eqn:E.
    + apply has_In in E. split; [|destruct (Z.eq_dec j i); tauto].
      intros [[H _]| ->]; assumption.
    + exfalso. assert (H : In i (NumSet.elems (toggle i t))).
      { apply toggle_In. rewrite E. now right. }
      apply has_In in H. congruence.
Qed.

Definition plain : App.Mods := App.mkMods false false false.
Definition with_ctrl : App.Mods := App.mkMods false true false.

End Gestures.

(** Releasing the pointer ends a marquee: the nodes whose centre lies in
    the rectangle, whichever way it was drawn, become the selection, in the
    order of the document; no edge stays selected and the document is not
    changed. *)
Theorem marquee_selects_inside (e : Env) (s : State) :
  marquee_active (marquee (ui s)) = true ->
  phase (linking (ui s)) = idle ->
  let m := marquee (ui s) in
  let s' := App.onPointerUpSvg (ui s) e s in
  (forall i, In i (NumSet.elems (selectedIds (ui s')))
             <-> exists n, In n (nodes (ui s)) /\ id n = i
                   /\ Rmin (x1 m) (x2 m) <= x n <= Rmax (x1 m) (x2 m)
                   /\ Rmin (y1 m) (y2 m) <= y n <= Rmax (y1 m) (y2 m))
  /\ NumSet.elems (selectedEdgeIds (ui s')) = []
  /\ selectedId (ui s')
     = hd_error (map id (filter (App.in_marquee m) (nodes (ui s))))
  /\ marquee_active (marquee (ui s')) = false
  /\ nodes (ui s') = nodes (ui s) /\ edges (ui s') = edges (ui s).
Proof.
  intros Hm Hl. cbv zeta. unfold App.onPointerUpSvg. rewrite Hm, Hl. cbv zeta.
  assert (K : forall i l,
            In i (NumSet.elems (NumSet.of_list (map id (filter (App.in_marquee (marquee (ui s))) l))))
            <-> exists n, In n l /\ id n = i
                  /\ Rmin (x1 (marquee (ui s))) (x2 (marquee (ui s))) <= x n
                     <= Rmax (x1 (marquee (ui s))) (x2 (marquee (ui s)))
                  /\ Rmin (y1 (marquee (ui s))) (y2 (marquee (ui s))) <= y n
                     <= Rmax (y1 (marquee (ui s))) (y2 (marquee (ui s)))).
  { intros i l. rewrite Gestures.elems_of_list, in_map_iff. split.
    - intros (n & E & H). apply filter_In in H as [H1 H2].
      apply Gestures.in_marquee_iff in H2. exists n. tauto.
    - intros (n & H1 & E & H2). exists n. split; [exact E|].
      apply filter_In. split; [exact H1|]. now apply Gestures.in_marquee_iff. }
  destruct (somethingMoved (refs _));
    (split; [intros i; apply K|repeat split; reflexivity]).
Qed.

Lemma marquee_selects_inside_witness :
  let s := App.onPointerDownBg (ui (init_state 800 600)) (App.mkMods true false false)
             (-10) (-10) (init_state 800 600) in
  marquee_active (marquee (ui s)) = true
  /\ phase (linking (ui s)) = idle
  /\ marquee_active (marquee (ui (App.onPointerUpSvg (ui s) (mkEnv 0 None 0) s))) = false.
Proof.
  cbv zeta. split; [reflexivity|]. split; [reflexivity|].
  exact (proj1 (proj2 (proj2 (proj2
    (marquee_selects_inside (mkEnv 0 None 0)
       (App.onPointerDownBg (ui (init_state 800 600)) (App.mkMods true false false)
          (-10) (-10) (init_state 800 600)) eq_refl eq_refl))))).
Defined.

(** Releasing a link over a node that is not yet connected to the
    source adds one edge from the source to that node, after a snapshot for
    undo; the edge is an arrow when the pointer was dragged and a plain
    line otherwise.  The target becomes the selection and the link ends. *)
Theorem link_release_connects (e : Env) (s : State) (src tgt : Z) :
  marquee_active (marquee (ui s)) = false ->
  phase (linking (ui s)) <> idle ->
  sourceId (linking (ui s)) = Some src ->
  App.findNodeAt (nodes (ui s)) (link_x (linking (ui s))) (link_y (linking (ui s)))
    (Some src) = Some tgt ->
  tgt <> 0%Z ->
  existsb (between src tgt) (edges (ui s)) = false ->
  somethingMoved (refs s) = false ->
  let s' := App.onPointerUpSvg (ui s) e s in
  edges (ui s')
  = edges (ui s)
    ++ [mkLink (now e) src tgt None None
          (Some (match phase (linking (ui s)) with active => true | _ => false end))]
  /\ nodes (ui s') = nodes (ui s)
  /\ selectedId (ui s') = Some tgt
  /\ NumSet.elems (selectedIds (ui s')) = [tgt]
  /\ NumSet.elems (selectedEdgeIds (ui s')) = []
  /\ phase (linking (ui s')) = idle
  /\ undoStack (refs s') = snapshot (ui s) :: undoStack (refs s).
Proof.
  intros Hm Hp Hs Hf Ht He Hmv. cbv zeta. unfold App.onPointerUpSvg.
  rewrite Hm, Hs, Hf, He.
  assert (T : truthy_id tgt = true).
  { unfold truthy_id. apply negb_true_iff. now apply Z.eqb_neq. }
  rewrite T. cbv zeta.
  destruct (phase (linking (ui s))) eqn:P; [now elim Hp| |].
  - pose proof (Gestures.selectOnly_spec (ui s) tgt
                  (setEdges (fun es => es ++ [mkLink (now e) src tgt None None (Some false)])
                     (pushHistory (ui s) s)))
      as (Sn & Se & Si & Sis & Ses & _ & _ & Su & Sm & _).
    assert (M : somethingMoved (refs (setLinking (fun _ => idle_linking)
                  (selectOnly (ui s) tgt
                     (setEdges (fun es => es ++ [mkLink (now e) src tgt None None (Some false)])
                        (pushHistory (ui s) s))))) = false).
    { etransitivity; [exact Sm|exact Hmv]. }
    rewrite M.
    split; [exact Se|]. split; [exact Sn|]. split; [exact Si|]. split; [exact Sis|].
    split; [exact Ses|]. split; [reflexivity|exact Su].
  - pose proof (Gestures.selectOnly_spec (ui s) tgt
                  (setEdges (fun es => es ++ [mkLink (now e) src tgt None None (Some true)])
                     (pushHistory (ui s) s)))
      as (Sn & Se & Si & Sis & Ses & _ & _ & Su & Sm & _).
    assert (M : somethingMoved (refs (setLinking (fun _ => idle_linking)
                  (selectOnly (ui s) tgt
                     (setEdges (fun es => es ++ [mkLink (now e) src tgt None None (Some true)])
                        (pushHistory (ui s) s))))) = false).
    { etransitivity; [exact Sm|exact Hmv]. }
    rewrite M.
    split; [exact Se|]. split; [exact Sn|]. split; [exact Si|]. split; [exact Sis|].
    split; [exact Ses|]. split; [reflexivity|exact Su].
Qed.

Module LinkExample.

Definition second : MindNode := mkNode 2 "" 300 0 BASE_W BASE_H "#333" None (Some false).

(** A link dragged from node 1 to the centre of node 2. *)
Definition dragged : State :=
  mkState
    (mkRender [start_node; second] [] (Some 1%Z) (NumSet.singleton 1) NumSet.empty None
       (mkPoint 400 300) 1 no_marquee None "" (mkLinking active (Some 1%Z) 300 0 0 0))
    (refs (init_state 800 600)) [].

Lemma over_second :
  App.findNodeAt (nodes (ui dragged)) (link_x (linking (ui dragged)))
    (link_y (linking (ui dragged))) (Some 1%Z) = Some 2%Z.
Proof.
  unfold App.findNodeAt, dragged. cbn [ui nodes linking link_x link_y find].
  replace (App.isPointInNode second 300 0) with true.
  - reflexivity.
  - symmetry. unfold App.isPointInNode, second. cbn [x y w h].
    apply andb_true_iff. split; apply Gestures.Rleb_iff;
      unfold BASE_W, BASE_H, Q2R; cbn [Qnum Qden];
      [replace (300 - 300) with 0 by ring|replace (0 - 0) with 0 by ring];
      rewrite Rabs_R0; lra.
Qed.

End LinkExample.

Lemma link_release_connects_witness :
  let s := LinkExample.dragged in
  marquee_active (marquee (ui s)) = false
  /\ phase (linking (ui s)) <> idle
  /\ sourceId (linking (ui s)) = Some 1%Z
  /\ App.findNodeAt (nodes (ui s)) (link_x (linking (ui s))) (link_y (linking (ui s)))
       (Some 1%Z) = Some 2%Z
  /\ 2%Z <> 0%Z
  /\ existsb (between 1 2) (edges (ui s)) = false
  /\ somethingMoved (refs s) = false
  /\ edges (ui (App.onPointerUpSvg (ui s) (mkEnv 5 None 0) s))
     = [mkLink 5 1 2 None None (Some true)].
Proof.
  cbv zeta.
  assert (P : phase (linking (ui LinkExample.dragged)) <> idle) by discriminate.
  assert (N : 2%Z <> 0%Z) by discriminate.
  split; [reflexivity|]. split; [exact P|]. split; [reflexivity|].
  split; [exact LinkExample.over_second|]. split; [exact N|].
  split; [reflexivity|]. split; [reflexivity|].
  exact (proj1 (link_release_connects (mkEnv 5 None 0) LinkExample.dragged 1 2
                  eq_refl P eq_refl LinkExample.over_second N eq_refl eq_refl)).
Defined.

(** A click with ctrl toggles the node in the selection: a second click
    brings back the same set of selected nodes.  The set is kept in
    insertion order, so the node moves to its end, and [selectedId] is
    always the first member in that order. *)
Theorem ctrl_click_twice (r r' : Render) (e e' : Env) (wx wy wx' wy' : R)
    (i : Z) (s : State) :
  editingId r = None -> phase (linking r) = idle ->
  editingId r' = None -> phase (linking r') = idle ->
  let s1 := App.onPointerDownNode r e Gestures.with_ctrl wx wy i s in
  let s2 := App.onPointerDownNode r' e' Gestures.with_ctrl wx' wy' i s1 in
  (forall j, In j (NumSet.elems (selectedIds (ui s1)))
             <-> (if NumSet.has i (selectedIds (ui s))
                  then In j (NumSet.elems (selectedIds (ui s))) /\ j <> i
                  else In j (NumSet.elems (selectedIds (ui s))) \/ j = i))
  /\ (forall j, In j (NumSet.elems (selectedIds (ui s2)))
                <-> In j (NumSet.elems (selectedIds (ui s))))
  /\ selectedId (ui s1) = hd_error (NumSet.elems (selectedIds (ui s1)))
  /\ selectedId (ui s2) = hd_error (NumSet.elems (selectedIds (ui s2)))
  /\ NumSet.elems (selectedEdgeIds (ui s2)) = []
  /\ nodes (ui s2) = nodes (ui s) /\ edges (ui s2) = edges (ui s).
Proof.
  intros He Hl He' Hl'. cbv zeta.
  assert (T : forall (q : Render) (en : Env) (a b : R) (t : State),
            editingId q = None -> phase (linking q) = idle ->
            App.onPointerDownNode q en Gestures.with_ctrl a b i t
            = setSelectedIds (Gestures.toggle i (selectedIds (ui t)))
                (set_freshTyping true
                   (setSelectedEdgeIds NumSet.empty
                      (setSelectedId
                         (hd_error (NumSet.to_list (Gestures.toggle i (selectedIds (ui t)))))
                         t)))).
  { intros q en a b t H1 H2. unfold App.onPointerDownNode. rewrite H1, H2. reflexivity. }
  rewrite (T r' e' wx' wy' _ He' Hl'), (T r e wx wy s He Hl).
  split; [intros j; apply Gestures.toggle_In|].
  split; [intros j; apply Gestures.toggle_twice_In|].
  repeat split; reflexivity.
Qed.

Lemma ctrl_click_twice_witness :
  let r := ui (init_state 800 600) in
  editingId r = None /\ phase (linking r) = idle
  /\ forall j,
       In j (NumSet.elems (selectedIds (ui
              (App.onPointerDownNode r (mkEnv 0 None 0) Gestures.with_ctrl 0 0 1
                 (App.onPointerDownNode r (mkEnv 0 None 0) Gestures.with_ctrl 0 0 1
                    (init_state 800 600))))))
       <-> In j (NumSet.elems (selectedIds (ui (init_state 800 600)))).
Proof.
  cbv zeta. split; [reflexivity|]. split; [reflexivity|].
  exact (proj1 (proj2 (ctrl_click_twice (ui (init_state 800 600)) (ui (init_state 800 600))
                         (mkEnv 0 None 0) (mkEnv 0 None 0) 0 0 0 0 1 (init_state 800 600)
                         eq_refl eq_refl eq_refl eq_refl))).
Defined.

(** ** Typing ([src/App.tsx] l.893-935) *)

Module Typing.

Definition press (c : ascii) : App.KeyEvent := App.mkKey (App.KChar c) Gestures.plain.

(** The keys of [cs] pressed one after the other, all handled by the
    [keydown] handler of the render [r]: typing changes none of the
    values the handler is renewed for. *)
Fixpoint type_keys (r : Render) (e : Env) (stamp : nat -> Z) (cs : list ascii)
    (s : State) : option State :=
  match cs with
  | [] => Some s
  | c :: rest =>
      match App.onKeyDown r e stamp (press c) s with
      | Some s' => type_keys r e stamp rest s'
      | None => None
      end
  end.

(** What one printable key does to the nodes while nodes are selected
    and no edge is. *)
Definition typed_node (r : Render) (fresh : bool) (c : ascii) (n : MindNode)
    : MindNode :=
  if NumSet.mem (id n) (NumSet.to_list (selectedIds r))
  then Layout.resizeNodeForLabel
         (set_label n (if fresh then String c "" else (label n ++ String c "")%string))
  else n.

Lemma press_char (r : Render) (e : Env) (stamp : nat -> Z) (c : ascii) (s : State) :
  editingId r = None ->
  NumSet.size (selectedEdgeIds r) = 0%nat ->
  (0 < NumSet.size (selectedIds r))%nat ->
  App.onKeyDown r e stamp (press c) s
  = Some (set_freshTyping false
            (setNodes (map (typed_node r (freshTyping (refs s)) c)) (pushHistory r s))).
Proof.
  intros He Hes Hns. unfold App.onKeyDown, press, Gestures.plain.
  cbn [App.key App.mods App.ctrl App.shift App.alt andb negb App.is_arrow App.is_key
       App.is_char orb]. cbv zeta.
  rewrite He, Hes. apply Nat.ltb_lt in Hns. rewrite Hns.
  cbn [App.some Nat.ltb Nat.leb andb negb]. reflexivity.
Qed.

(** The label after the keys [cs], from the label [l]. *)
Lemma typed_labels (r : Render) (e : Env) (stamp : nat -> Z) (cs : list ascii) :
  editingId r = None ->
  NumSet.size (selectedEdgeIds r) = 0%nat ->
  (0 < NumSet.size (selectedIds r))%nat ->
  forall s, freshTyping (refs s) = false ->
  exists s',
    type_keys r e stamp cs s = Some s'
    /\ map (fun n => (id n, label n, (x n, y n))) (nodes (ui s'))
       = map (fun n => (id n,
                        if NumSet.mem (id n) (NumSet.to_list (selectedIds r))
                        then (label n ++ string_of_list_ascii cs)%string else label n,
                        (x n, y n)))
           (nodes (ui s))
    /\ edges (ui s') = edges (ui s)
    /\ (cs <> [] -> freshTyping (refs s') = false)
    /\ List.length (undoStack (refs s'))
       = (List.length (undoStack (refs s)) + List.length cs)%nat.
Proof.
  intros He Hes Hns. induction cs as [|c cs IH]; intros s Hf.
  - exists s. split; [reflexivity|]. split.
    + apply map_ext. intros n. cbn [string_of_list_ascii].
      destruct (NumSet.mem _ _); [|reflexivity].
      now rewrite TextBox.append_nil_r.
    + split; [reflexivity|]. split; [intros H; now elim H|]. cbn [List.length]. lia.
  - cbn [type_keys]. rewrite (press_char r e stamp c s He Hes Hns), Hf.
    destruct (IH (set_freshTyping false
                    (setNodes (map (typed_node r false c)) (pushHistory r s))) eq_refl)
      as (s' & E & Hl & Hed & _ & Hu).
    exists s'. split; [exact E|]. split; [|split; [exact Hed|split]].
    + rewrite Hl.
      change (nodes (ui (set_freshTyping false
                (setNodes (map (typed_node r false c)) (pushHistory r s)))))
        with (map (typed_node r false c) (nodes (ui s))).
      rewrite map_map. apply map_ext. intros n. unfold typed_node.
      destruct (NumSet.mem (id n) (NumSet.to_list (selectedIds r))) eqn:M.
      * cbn [Layout.resizeNodeForLabel set_size set_label id label x y]. rewrite M.
        cbn [string_of_list_ascii]. now rewrite TextBox.append_assoc.
      * now rewrite M.
    + intros _.
      destruct cs as [|c' cs'].
      * cbn [type_keys] in E. injection E as <-. reflexivity.
      * destruct (IH (set_freshTyping false
                    (setNodes (map (typed_node r false c)) (pushHistory r s))) eq_refl)
          as (s'' & E' & _ & _ & F' & _).
        rewrite E in E'. injection E' as <-. apply F'. discriminate.
    + rewrite Hu. cbn [List.length]. 
      change (undoStack (refs (set_freshTyping false
                (setNodes (map (typed_node r false c)) (pushHistory r s)))))
        with (snapshot r :: undoStack (refs s)).
      cbn [List.length]. lia.
Qed.

End Typing.

(** Typing into a fresh selection writes the label: the first key
    replaces the label of every selected node, each further key appends
    to it, and every key pushes one snapshot.  Nodes keep their place and
    their identifier; edges are not touched. *)
Theorem typing_writes_label (r : Render) (e : Env) (stamp : nat -> Z)
    (c : ascii) (cs : list ascii) (s : State) :
  editingId r = None ->
  NumSet.size (selectedEdgeIds r) = 0%nat ->
  (0 < NumSet.size (selectedIds r))%nat ->
  freshTyping (refs s) = true ->
  exists s',
    Typing.type_keys r e stamp (c :: cs) s = Some s'
    /\ map (fun n => (id n, label n, (x n, y n))) (nodes (ui s'))
       = map (fun n => (id n,
                        if NumSet.mem (id n) (NumSet.to_list (selectedIds r))
                        then string_of_list_ascii (c :: cs) else label n,
                        (x n, y n)))
           (nodes (ui s))
    /\ edges (ui s') = edges (ui s)
    /\ freshTyping (refs s') = false
    /\ List.length (undoStack (refs s'))
       = (List.length (undoStack (refs s)) + List.length (c :: cs))%nat.
Proof.
  intros He Hes Hns Hf. cbn [Typing.type_keys].
  rewrite (Typing.press_char r e stamp c s He Hes Hns), Hf.
  destruct (Typing.typed_labels r e stamp cs He Hes Hns
              (set_freshTyping false
                 (setNodes (map (Typing.typed_node r true c)) (pushHistory r s))) eq_refl)
    as (s' & E & Hl & Hed & Hfr & Hu).
  exists s'. split; [exact E|]. split; [|split; [exact Hed|split]].
  - rewrite Hl.
    change (nodes (ui (set_freshTyping false
              (setNodes (map (Typing.typed_node r true c)) (pushHistory r s)))))
      with (map (Typing.typed_node r true c) (nodes (ui s))).
    rewrite map_map. apply map_ext. intros n. unfold Typing.typed_node.
    destruct (NumSet.mem (id n) (NumSet.to_list (selectedIds r))) eqn:M.
    + cbn [Layout.resizeNodeForLabel set_size set_label id label x y]. rewrite M.
      reflexivity.
    + now rewrite M.
  - destruct cs as [|c' cs'].
    + cbn [Typing.type_keys] in E. injection E as <-. reflexivity.
    + apply Hfr. discriminate.
  - rewrite Hu.
    change (undoStack (refs (set_freshTyping false
              (setNodes (map (Typing.typed_node r true c)) (pushHistory r s)))))
      with (snapshot r :: undoStack (refs s)).
    cbn [List.length]. lia.
Qed.

Lemma typing_writes_label_witness :
  let r := ui (init_state 800 600) in
  editingId r = None
  /\ NumSet.size (selectedEdgeIds r) = 0%nat
  /\ (0 < NumSet.size (selectedIds r))%nat
  /\ freshTyping (refs (init_state 800 600)) = true
  /\ exists s',
       Typing.type_keys r (mkEnv 0 None 0) (fun k => Z.of_nat k) ["a"%char; "b"%char]
         (init_state 800 600) = Some s'
       /\ freshTyping (refs s') = false.
Proof.
  cbv zeta.
  assert (P : (0 < NumSet.size (selectedIds (ui (init_state 800 600))))%nat).
  { apply Nat.ltb_lt. reflexivity. }
  split; [reflexivity|]. split; [reflexivity|]. split; [exact P|]. split; [reflexivity|].
  destruct (typing_writes_label (ui (init_state 800 600)) (mkEnv 0 None 0)
              (fun k => Z.of_nat k) "a"%char ["b"%char] (init_state 800 600)
              eq_refl eq_refl P eq_refl) as (s' & E & _ & _ & F & _).
  exists s'. split; [exact E|exact F].
Defined.

Module Erase.

Lemma drop_last_snoc (l : string) (c : ascii) :
  App.drop_last (l ++ String c "") = l.
Proof.
  unfold App.drop_last.
  assert (L : forall t : string, String.length (t ++ String c "") = S (String.length t)).
  { induction t as [|ch t IH]; simpl; [reflexivity|now rewrite IH]. }
  rewrite L. replace (S (String.length l) - 1)%nat with (String.length l) by lia.
  induction l as [|ch l IH]; [reflexivity|].
  cbn [String.append String.length substring]. now rewrite IH.
Qed.

Definition backspace : App.KeyEvent := App.mkKey App.Backspace Gestures.plain.

Lemma press_backspace (r : Render) (e : Env) (stamp : nat -> Z) (s : State) :
  editingId r = None ->
  NumSet.size (selectedEdgeIds r) = 0%nat ->
  NumSet.size (selectedIds r) = 1%nat ->
  App.onKeyDown r e stamp backspace s
  = Some (setNodes
            (map (fun n =>
                    if (id n =? hd 0%Z (NumSet.to_list (selectedIds r)))%Z
                    then Layout.resizeNodeForLabel (set_label n (App.drop_last (label n)))
                    else n))
            (pushHistory r s)).
Proof.
  intros He Hes Hns. unfold App.onKeyDown, backspace, Gestures.plain.
  cbn [App.key App.mods App.ctrl App.shift App.alt andb negb App.is_arrow App.is_key
       App.is_char orb]. cbv zeta.
  rewrite He, Hes, Hns. reflexivity.
Qed.

Lemma single_mem (t : NumSet.t) (i : Z) :
  NumSet.size t = 1%nat ->
  NumSet.mem i (NumSet.to_list t) = (i =? hd 0%Z (NumSet.to_list t))%Z.
Proof.
  unfold NumSet.size, NumSet.to_list. destruct (NumSet.elems t) as [|a [|b l]]; try discriminate.
  intros _. unfold NumSet.mem. cbn. now rewrite orb_false_r.
Qed.

End Erase.

(** With one node selected, Backspace takes back the key typed before
    it: the label is what it was, and so are the identifiers and the
    places of all nodes.  Both keys push a snapshot. *)
Theorem backspace_takes_back_key (r : Render) (e : Env) (stamp : nat -> Z)
    (c : ascii) (s : State) :
  editingId r = None ->
  NumSet.size (selectedEdgeIds r) = 0%nat ->
  NumSet.size (selectedIds r) = 1%nat ->
  freshTyping (refs s) = false ->
  exists s1 s2,
    App.onKeyDown r e stamp (Typing.press c) s = Some s1
    /\ App.onKeyDown r e stamp Erase.backspace s1 = Some s2
    /\ map (fun n => (id n, label n, (x n, y n))) (nodes (ui s2))
       = map (fun n => (id n, label n, (x n, y n))) (nodes (ui s))
    /\ edges (ui s2) = edges (ui s)
    /\ undoStack (refs s2) = snapshot r :: snapshot r :: undoStack (refs s).
Proof.
  intros He Hes Hns Hf.
  assert (P : (0 < NumSet.size (selectedIds r))%nat) by lia.
  rewrite (Typing.press_char r e stamp c s He Hes P), Hf.
  eexists. eexists. split; [reflexivity|].
  split; [apply (Erase.press_backspace r e stamp _ He Hes Hns)|].
  split; [|split; reflexivity].
  change (nodes (ui (setNodes
            (map (fun n =>
                    if (id n =? hd 0%Z (NumSet.to_list (selectedIds r)))%Z
                    then Layout.resizeNodeForLabel (set_label n (App.drop_last (label n)))
                    else n))
            (pushHistory r (set_freshTyping false
               (setNodes (map (Typing.typed_node r false c)) (pushHistory r s)))))))
    with (map (fun n =>
                 if (id n =? hd 0%Z (NumSet.to_list (selectedIds r)))%Z
                 then Layout.resizeNodeForLabel (set_label n (App.drop_last (label n)))
                 else n)
            (map (Typing.typed_node r false c) (nodes (ui s)))).
  rewrite !map_map. apply map_ext. intros n. unfold Typing.typed_node.
  rewrite (Erase.single_mem (selectedIds r) (id n) Hns).
  destruct (id n =? hd 0%Z (NumSet.to_list (selectedIds r)))%Z eqn:E.
  - cbn [Layout.resizeNodeForLabel set_size set_label id label x y]. rewrite E.
    cbn [Layout.resizeNodeForLabel set_size set_label id label x y].
    now rewrite Erase.drop_last_snoc.
  - now rewrite E.
Qed.

Lemma backspace_takes_back_key_witness :
  let r := ui (init_state 800 600) in
  let s := set_freshTyping false (init_state 800 600) in
  editingId r = None
  /\ NumSet.size (selectedEdgeIds r) = 0%nat
  /\ NumSet.size (selectedIds r) = 1%nat
  /\ freshTyping (refs s) = false
  /\ exists s1 s2,
       App.onKeyDown r (mkEnv 0 None 0) (fun k => Z.of_nat k) (Typing.press "a"%char) s
       = Some s1
       /\ App.onKeyDown r (mkEnv 0 None 0) (fun k => Z.of_nat k) Erase.backspace s1
          = Some s2
       /\ edges (ui s2) = edges (ui s).
Proof.
  cbv zeta.
  split; [reflexivity|]. split; [reflexivity|]. split; [reflexivity|]. split; [reflexivity|].
  destruct (backspace_takes_back_key (ui (init_state 800 600)) (mkEnv 0 None 0)
              (fun k => Z.of_nat k) "a"%char (set_freshTyping false (init_state 800 600))
              eq_refl eq_refl eq_refl eq_refl) as (s1 & s2 & E1 & E2 & _ & Ed & _).
  exists s1, s2. split; [exact E1|]. split; [exact E2|exact Ed].
Defined.

(** ** Tab and Shift+Tab ([src/App.tsx] l.854-881) *)

Module Hierarchy.

(** [bringBoxIntoView] and [show_node] move the camera and nothing
    else. *)
Lemma show_node_frame (r : Render) (e : Env) (i : Z) (s : State) :
  nodes (ui (App.show_node r e i s)) = nodes (ui s)
  /\ edges (ui (App.show_node r e i s)) = edges (ui s)
  /\ selectedId (ui (App.show_node r e i s)) = selectedId (ui s)
  /\ selectedIds (ui (App.show_node r e i s)) = selectedIds (ui s)
  /\ selectedEdgeIds (ui (App.show_node r e i s)) = selectedEdgeIds (ui s)
  /\ editingId (ui (App.show_node r e i s)) = editingId (ui s)
  /\ refs (App.show_node r e i s) = refs s.
Proof.
  unfold App.show_node, App.bringBoxIntoView.
  destruct (find_node (nodes r) i); [|repeat split; reflexivity].
  destruct (svg e) as [[width height]|]; [|repeat split; reflexivity].
  cbv zeta. destruct (_ || _); repeat split; reflexivity.
Qed.

Lemma selectOnly_frame (r : Render) (i : Z) (s : State) :
  nodes (ui (selectOnly r i s)) = nodes (ui s)
  /\ edges (ui (selectOnly r i s)) = edges (ui s)
  /\ selectedId (ui (selectOnly r i s)) = Some i
  /\ NumSet.elems (selectedIds (ui (selectOnly r i s))) = [i]
  /\ NumSet.elems (selectedEdgeIds (ui (selectOnly r i s))) = []
  /\ shiftTabPath (refs (selectOnly r i s)) = None
  /\ editingId (ui (selectOnly r i s)) = editingId (ui s)
  /\ prevSelectedId (refs (selectOnly r i s))
     = match selectedId r with
       | Some old => if (old =? i)%Z then prevSelectedId (refs s) else Some old
       | None => prevSelectedId (refs s)
       end.
Proof.
  unfold selectOnly. destruct (selectedId r) as [old|]; [destruct (old =? i)%Z|];
    repeat split; reflexivity.
Qed.

(** What Tab does when it acts. *)
Lemma tab_moves (r : Render) (e : Env) (sel prev : Z) (s : State) :
  prevSelectedId (refs s) = Some prev -> prev <> sel ->
  In prev (map id (nodes r)) ->
  selectedId r = Some sel ->
  let s' := App.tab r e sel s in
  selectedId (ui s') = Some prev
  /\ NumSet.elems (selectedIds (ui s')) = [prev]
  /\ NumSet.elems (selectedEdgeIds (ui s')) = []
  /\ prevSelectedId (refs s') = Some sel
  /\ editingId (ui s') = editingId (ui s)
  /\ nodes (ui s') = nodes (ui s) /\ edges (ui s') = edges (ui s).
Proof.
  intros Hp Hne Hin Hsel. cbv zeta. unfold App.tab. rewrite Hp.
  replace (prev =? sel)%Z with false by (symmetry; now apply Z.eqb_neq).
  replace (existsb (fun n => (id n =? prev)%Z) (nodes r)) with true.
  - cbn [negb].
    destruct (show_node_frame r e prev (selectOnly r prev s)) as (A & B & C & D & E & I & F).
    destruct (selectOnly_frame r prev s) as (A' & B' & C' & D' & E' & _ & I' & G').
    rewrite A, B, C, D, E, I, F, A', B', C', D', E', I', G', Hsel.
    replace (sel =? prev)%Z with false by (symmetry; apply Z.eqb_neq; congruence).
    repeat split; reflexivity.
  - symmetry. apply existsb_exists. apply in_map_iff in Hin as (n & E & Hn).
    exists n. split; [exact Hn|]. now apply Z.eqb_eq.
Qed.

Definition tab_key : App.KeyEvent := App.mkKey App.Tab (App.mkMods false false false).
Definition shift_tab_key : App.KeyEvent := App.mkKey App.Tab (App.mkMods true false false).

Lemma press_tab (r : Render) (e : Env) (stamp : nat -> Z) (sel : Z) (s : State) :
  editingId r = None -> selectedId r = Some sel ->
  NumSet.elems (selectedIds r) = [sel] ->
  App.onKeyDown r e stamp tab_key s = Some (App.tab r e sel s).
Proof.
  intros He Hs Hone. unfold App.onKeyDown, tab_key.
  cbn [App.key App.mods App.ctrl App.shift App.alt andb negb App.is_arrow App.is_key
       App.is_char orb]. cbv zeta.
  unfold NumSet.size. rewrite He, Hs, Hone. reflexivity.
Qed.

Lemma press_shift_tab (r : Render) (e : Env) (stamp : nat -> Z) (sel : Z) (s : State) :
  editingId r = None -> selectedId r = Some sel ->
  NumSet.elems (selectedIds r) = [sel] ->
  App.onKeyDown r e stamp shift_tab_key s = App.shift_tab r e sel s.
Proof.
  intros He Hs Hone. unfold App.onKeyDown, shift_tab_key.
  cbn [App.key App.mods App.ctrl App.shift App.alt andb negb App.is_arrow App.is_key
       App.is_char orb]. cbv zeta.
  unfold NumSet.size. rewrite He, Hs, Hone. reflexivity.
Qed.

(** Two nodes, 1 above 2; node 2 is selected and node 1 was selected
    before. *)
Definition after_two_clicks : State :=
  on_refs (fun f => with_prevSelectedId f (Some 1%Z))
    (setSelectedIds (NumSet.of_list [2%Z])
       (setSelectedId (Some 2%Z)
          (setEdges (fun es => es ++ [mkLink 9 1 2 None None (Some false)])
             (setNodes (fun ns => ns ++ [mkNode 2 "" 300 0 BASE_W BASE_H "#333" None (Some false)])
                (init_state 800 600))))).

Lemma loop_prefix (fuel : nat) (es : list Link) :
  forall cur up res,
  rootPath_loop fuel es cur up = Some res -> exists rest, res = up ++ rest.
Proof.
  induction fuel as [|fuel IH]; intros cur up res H.
  - destruct cur; [discriminate|]. injection H as <-. exists []. now rewrite app_nil_r.
  - destruct cur as [c|]; [|injection H as <-; exists []; now rewrite app_nil_r].
    cbn [rootPath_loop] in H. apply IH in H as (rest & ->).
    exists (c :: rest). now rewrite <- app_assoc.
Qed.

(** The path of a node with a parent ends in the parent and the node. *)
Lemma path_ends_in_parent (fuel : nat) (es : list Link) (c p : Z) (path : list Z) :
  getParentId es c = Some p ->
  buildRootPath fuel es c = Some path ->
  exists front, path = front ++ [p; c].
Proof.
  intros Hp H. unfold buildRootPath in H.
  destruct (rootPath_loop fuel es (Some c) []) as [res|] eqn:E; [|discriminate].
  injection H as <-.
  destruct fuel as [|fuel]; [discriminate|].
  cbn [rootPath_loop] in E. rewrite Hp in E. cbn [app] in E.
  destruct fuel as [|fuel]; [discriminate|].
  cbn [rootPath_loop] in E. apply loop_prefix in E as (rest & ->).
  exists (rev rest). rewrite rev_app_distr. reflexivity.
Qed.

End Hierarchy.

(** Tab goes back to the node that was selected before, and Tab again
    returns: the key switches between the last two selected nodes, and
    changes neither nodes nor edges. *)
Theorem tab_switches_back_and_forth (e e' : Env) (stamp stamp' : nat -> Z)
    (a b : Z) (s : State) :
  editingId (ui s) = None ->
  selectedId (ui s) = Some b ->
  NumSet.elems (selectedIds (ui s)) = [b] ->
  prevSelectedId (refs s) = Some a ->
  a <> b ->
  In a (map id (nodes (ui s))) -> In b (map id (nodes (ui s))) ->
  exists s1 s2,
    App.onKeyDown (ui s) e stamp Hierarchy.tab_key s = Some s1
    /\ App.onKeyDown (ui s1) e' stamp' Hierarchy.tab_key s1 = Some s2
    /\ selectedId (ui s1) = Some a /\ NumSet.elems (selectedIds (ui s1)) = [a]
    /\ selectedId (ui s2) = Some b /\ NumSet.elems (selectedIds (ui s2)) = [b]
    /\ nodes (ui s2) = nodes (ui s) /\ edges (ui s2) = edges (ui s).
Proof.
  intros He Hs Hone Hp Hne Ha Hb.
  destruct (Hierarchy.tab_moves (ui s) e b a s Hp Hne Ha Hs)
    as (A1 & A2 & _ & A4 & A7 & A5 & A6).
  assert (Hb' : In b (map id (nodes (ui (App.tab (ui s) e b s))))) by now rewrite A5.
  destruct (Hierarchy.tab_moves (ui (App.tab (ui s) e b s)) e' a b (App.tab (ui s) e b s)
              A4 (not_eq_sym Hne) Hb' A1) as (B1 & B2 & _ & _ & _ & B5 & B6).
  exists (App.tab (ui s) e b s), (App.tab (ui (App.tab (ui s) e b s)) e' a (App.tab (ui s) e b s)).
  split; [apply Hierarchy.press_tab; assumption|].
  split; [apply Hierarchy.press_tab; [now rewrite A7|exact A1|exact A2]|].
  split; [exact A1|]. split; [exact A2|]. split; [exact B1|]. split; [exact B2|].
  split; [now rewrite B5|now rewrite B6].
Qed.

Lemma tab_switches_back_and_forth_witness :
  let s := Hierarchy.after_two_clicks in
  editingId (ui s) = None /\ selectedId (ui s) = Some 2%Z
  /\ NumSet.elems (selectedIds (ui s)) = [2%Z]
  /\ prevSelectedId (refs s) = Some 1%Z
  /\ 1%Z <> 2%Z
  /\ In 1%Z (map id (nodes (ui s))) /\ In 2%Z (map id (nodes (ui s)))
  /\ exists s1, App.onKeyDown (ui s) (mkEnv 0 None 0) (fun k => Z.of_nat k)
                   Hierarchy.tab_key s = Some s1
                /\ selectedId (ui s1) = Some 1%Z.
Proof.
  cbv zeta.
  assert (N : 1%Z <> 2%Z) by discriminate.
  assert (I1 : In 1%Z (map id (nodes (ui Hierarchy.after_two_clicks))))
    by (left; reflexivity).
  assert (I2 : In 2%Z (map id (nodes (ui Hierarchy.after_two_clicks))))
    by (right; left; reflexivity).
  split; [reflexivity|]. split; [reflexivity|]. split; [reflexivity|]. split; [reflexivity|].
  split; [exact N|]. split; [exact I1|]. split; [exact I2|].
  destruct (tab_switches_back_and_forth (mkEnv 0 None 0) (mkEnv 0 None 0)
              (fun k => Z.of_nat k) (fun k => Z.of_nat k) 1 2 Hierarchy.after_two_clicks
              eq_refl eq_refl eq_refl eq_refl N I1 I2)
    as (s1 & s2 & E1 & _ & A & _).
  exists s1. split; [exact E1|exact A].
Defined.

(** Shift+Tab climbs along the edges that the closure [r] of the
    [keydown] handler holds: with one node selected and no path
    remembered, the key selects the parent that [getParentId] gives on
    those edges, provided the walk to the root ends; on a node without
    parent there it changes nothing on screen. *)
Theorem shift_tab_selects_parent (r : Render) (e : Env) (stamp : nat -> Z) (c : Z)
    (s : State) :
  editingId r = None ->
  selectedId r = Some c ->
  NumSet.elems (selectedIds r) = [c] ->
  shiftTabPath (refs s) = None ->
  (forall p path,
     getParentId (edges r) c = Some p ->
     buildRootPath (fuel e) (edges r) c = Some path ->
     exists s',
       App.onKeyDown r e stamp Hierarchy.shift_tab_key s = Some s'
       /\ selectedId (ui s') = Some p
       /\ NumSet.elems (selectedIds (ui s')) = [p]
       /\ NumSet.elems (selectedEdgeIds (ui s')) = []
       /\ nodes (ui s') = nodes (ui s) /\ edges (ui s') = edges (ui s))
  /\ (getParentId (edges r) c = None -> (0 < fuel e)%nat ->
      exists s',
        App.onKeyDown r e stamp Hierarchy.shift_tab_key s = Some s'
        /\ ui s' = ui s).
Proof.
  intros He Hs Hone Hpath.
  rewrite (Hierarchy.press_shift_tab r e stamp c s He Hs Hone).
  unfold App.shift_tab. rewrite Hpath. split.
  - intros p path Hp Hb.
    destruct (Hierarchy.path_ends_in_parent _ _ _ _ _ Hp Hb) as (front & ->).
    rewrite Hb. cbv zeta.
    cbn [refs on_refs shiftTabPath shiftTabIndex with_shiftTabIndex with_shiftTabPath].
    rewrite length_app. cbn [List.length].
    replace (0 <? Z.of_nat (List.length front + 2) - 1)%Z with true
      by (symmetry; apply Z.ltb_lt; lia).
    replace (Z.to_nat (Z.of_nat (List.length front + 2) - 1 - 1)) with (List.length front)
      by lia.
    rewrite nth_error_app2 by lia. rewrite Nat.sub_diag. cbn [nth_error].
    eexists. split; [reflexivity|].
    match goal with
    | |- context [App.show_node ?r ?en ?i ?t] =>
        destruct (Hierarchy.show_node_frame r en i t) as (A & B & C & D & E & _ & _);
        rewrite A, B, C, D, E
    end.
    match goal with
    | |- context [selectOnly ?r ?i ?t] =>
        destruct (Hierarchy.selectOnly_frame r i t) as (A' & B' & C' & D' & E' & _);
        rewrite A', B', C', D', E'
    end.
    repeat split; reflexivity.
  - intros Hp Hf. unfold buildRootPath.
    destruct (fuel e) as [|k]; [lia|].
    cbn [rootPath_loop]. rewrite Hp, RootPath.loop_done. cbn [option_map rev app].
    cbv zeta.
    cbn [refs on_refs shiftTabPath shiftTabIndex with_shiftTabIndex with_shiftTabPath
         List.length].
    cbn. eexists. split; reflexivity.
Qed.

Lemma shift_tab_selects_parent_witness :
  let s := Hierarchy.after_two_clicks in
  let e := mkEnv 0 None 5 in
  editingId (ui s) = None /\ selectedId (ui s) = Some 2%Z
  /\ NumSet.elems (selectedIds (ui s)) = [2%Z]
  /\ shiftTabPath (refs s) = None
  /\ getParentId (edges (ui s)) 2 = Some 1%Z
  /\ buildRootPath (fuel e) (edges (ui s)) 2 = Some [1%Z; 2%Z]
  /\ exists s', App.onKeyDown (ui s) e (fun k => Z.of_nat k) Hierarchy.shift_tab_key s
                = Some s'
               /\ selectedId (ui s') = Some 1%Z.
Proof.
  cbv zeta.
  split; [reflexivity|]. split; [reflexivity|]. split; [reflexivity|]. split; [reflexivity|].
  split; [reflexivity|]. split; [reflexivity|].
  destruct (proj1 (shift_tab_selects_parent (ui Hierarchy.after_two_clicks)
                     (mkEnv 0 None 5) (fun k => Z.of_nat k) 2
                     Hierarchy.after_two_clicks eq_refl eq_refl eq_refl eq_refl)
              1%Z [1%Z; 2%Z] eq_refl eq_refl) as (s' & E & A & _).
  exists s'. split; [exact E|exact A].
Defined.

Module Keys.

Definition enter : App.KeyEvent := App.mkKey App.Enter (App.mkMods false false false).
Definition shift_enter : App.KeyEvent := App.mkKey App.Enter (App.mkMods true false false).

Lemma press_enter (r : Render) (e : Env) (stamp : nat -> Z) (sel : Z) (s : State) :
  editingId r = None -> selectedId r = Some sel ->
  NumSet.elems (selectedIds r) = [sel] ->
  App.onKeyDown r e stamp enter s
  = Some (set_freshTyping true
            (selectOnly r (snd (App.addChild r e sel s)) (fst (App.addChild r e sel s)))).
Proof.
  intros He Hs Hone. unfold App.onKeyDown, enter.
  cbn [App.key App.mods App.ctrl App.shift App.alt andb negb App.is_arrow App.is_key
       App.is_char orb]. cbv zeta.
  unfold NumSet.size. rewrite He, Hs, Hone.
  cbn [App.some List.length Nat.eqb Nat.ltb Nat.leb andb negb].
  destruct (App.addChild r e sel s) as [s' newId]. reflexivity.
Qed.

Lemma selectOnly_keeps (r : Render) (i : Z) (s : State) :
  nodes (ui (selectOnly r i s)) = nodes (ui s)
  /\ edges (ui (selectOnly r i s)) = edges (ui s)
  /\ selectedId (ui (selectOnly r i s)) = Some i
  /\ NumSet.elems (selectedIds (ui (selectOnly r i s))) = [i]
  /\ NumSet.elems (selectedEdgeIds (ui (selectOnly r i s))) = []
  /\ undoStack (refs (selectOnly r i s)) = undoStack (refs s).
Proof.
  unfold selectOnly. destruct (selectedId r) as [old|]; [destruct (old =? i)%Z|];
    repeat split; reflexivity.
Qed.

(** What [Enter] does to the document when the selected node is a node
    of the closure. *)
Lemma enter_appends (r : Render) (e : Env) (sel : Z) (s : State) (parent : MindNode) :
  find_node (nodes r) sel = Some parent ->
  let s' := set_freshTyping true
              (selectOnly r (snd (App.addChild r e sel s)) (fst (App.addChild r e sel s))) in
  exists child,
    nodes (ui s') = nodes (ui s) ++ [child]
    /\ id child = next_id (nodes r)
    /\ edges (ui s')
       = edges (ui s) ++ [mkLink (now e) sel (id child) None None (Some false)]
    /\ selectedId (ui s') = Some (id child)
    /\ NumSet.elems (selectedIds (ui s')) = [id child]
    /\ undoStack (refs s') = snapshot r :: undoStack (refs s).
Proof.
  intros Hp. cbv zeta. unfold App.addChild. rewrite Hp.
  cbv zeta. destruct (child_search _ _ _ _ _ _ _ _ _) as [cx cy]. cbn [fst snd].
  eexists.
  match goal with
  | |- context [selectOnly ?r ?i ?t] =>
      destruct (selectOnly_keeps r i t) as (A & B & C & D & _ & F)
  end.
  split; [exact A|]. split; [reflexivity|]. split; [exact B|].
  split; [exact C|]. split; [exact D|exact F].
Qed.

(** A stored document with the nodes 1, 2 and 3 and an edge from node 2
    to node 1, and the state after the effect of l.292-302 has read it into
    the initial state.  The effect sets no selection, so the [keydown]
    handler is still the one of the first render. *)
Definition stored : json :=
  JObj [("nodes"%string,
         JArr [JObj [("id"%string, JNum 1)]; JObj [("id"%string, JNum 2)];
               JObj [("id"%string, JNum 3)]]);
        ("edges"%string,
         JArr [JObj [("id"%string, JNum 9); ("source"%string, JNum 2);
                     ("target"%string, JNum 1)]])].

Definition loaded : State := App.loadStored (Some stored) (init_state 800 600).

Lemma loaded_closure : App.key_closure loaded (ui (init_state 800 600)).
Proof. unfold App.key_closure. repeat split. Qed.

End Keys.

(** Enter on a selected node adds a child to it and moves the selection
    to the child.  The key works in the closure [r] of the [keydown]
    handler: when the selected identifier has a node there, the document
    gets one more node, under the identifier that follows the largest one
    of the closure, and one more edge, from the selected node to the new
    one; the snapshot that is pushed for undo is the one of the closure.
    When the selected identifier has no node in the closure the key adds
    nothing and pushes nothing. *)
Theorem enter_adds_selected_child (r : Render) (e : Env) (stamp : nat -> Z) (sel : Z)
    (s : State) :
  editingId r = None -> selectedId r = Some sel ->
  NumSet.elems (selectedIds r) = [sel] ->
  exists s',
    App.onKeyDown r e stamp Keys.enter s = Some s'
    /\ match find_node (nodes r) sel with
       | Some parent =>
           exists child,
             nodes (ui s') = nodes (ui s) ++ [child]
             /\ id child = next_id (nodes r)
             /\ edges (ui s')
                = edges (ui s) ++ [mkLink (now e) sel (id child) None None (Some false)]
             /\ selectedId (ui s') = Some (id child)
             /\ NumSet.elems (selectedIds (ui s')) = [id child]
             /\ undoStack (refs s') = snapshot r :: undoStack (refs s)
       | None =>
           nodes (ui s') = nodes (ui s) /\ edges (ui s') = edges (ui s)
           /\ selectedId (ui s') = Some sel
           /\ undoStack (refs s') = undoStack (refs s)
       end.
Proof.
  intros He Hs Hone.
  rewrite (Keys.press_enter r e stamp sel s He Hs Hone).
  eexists. split; [reflexivity|].
  destruct (find_node (nodes r) sel) as [parent|] eqn:Hp.
  - exact (Keys.enter_appends r e sel s parent Hp).
  - unfold App.addChild. rewrite Hp. cbn [fst snd].
    destruct (Keys.selectOnly_keeps r sel s) as (A & B & C & _ & _ & F).
    split; [exact A|]. split; [exact B|]. split; [exact C|exact F].
Qed.

Lemma enter_adds_selected_child_witness :
  let s := init_state 800 600 in
  editingId (ui s) = None /\ selectedId (ui s) = Some 1%Z
  /\ NumSet.elems (selectedIds (ui s)) = [1%Z]
  /\ exists s', App.onKeyDown (ui s) (mkEnv 7 None 0) (fun k => Z.of_nat k) Keys.enter s
                = Some s'
               /\ map id (nodes (ui s')) = [1%Z; 2%Z].
Proof.
  cbv zeta. split; [reflexivity|]. split; [reflexivity|]. split; [reflexivity|].
  destruct (enter_adds_selected_child (ui (init_state 800 600)) (mkEnv 7 None 0)
              (fun k => Z.of_nat k) 1 (init_state 800 600) eq_refl eq_refl eq_refl)
    as (s' & E & H).
  exists s'. split; [exact E|].
  change (find_node (nodes (ui (init_state 800 600))) 1) with (Some start_node) in H.
  destruct H as (child & Hn & Hid & _). rewrite Hn, map_app. cbn [map]. now rewrite Hid.
Defined.

(** The closure after the stored document was read.  The handler of the
    first render holds the start node alone and no edge: Enter gives the
    child the identifier 2, which the document has already, and Shift+Tab
    on node 1 finds no parent, while the document has the edge from node 2
    to node 1. *)
Lemma keys_after_stored_document :
  let e := mkEnv 7 None 5 in
  let stamp := fun k => Z.of_nat k in
  let r0 := ui (init_state 800 600) in
  (exists s',
     App.onKeyDown r0 e stamp Keys.enter Keys.loaded = Some s'
     /\ map id (nodes (ui Keys.loaded)) = [1%Z; 2%Z; 3%Z]
     /\ map id (nodes (ui s')) = [1%Z; 2%Z; 3%Z; 2%Z])
  /\ (exists s',
        App.onKeyDown r0 e stamp Hierarchy.shift_tab_key Keys.loaded = Some s'
        /\ getParentId (edges (ui Keys.loaded)) 1 = Some 2%Z
        /\ ui s' = ui Keys.loaded).
Proof.
  cbv zeta. split.
  - rewrite (Keys.press_enter (ui (init_state 800 600)) (mkEnv 7 None 5)
               (fun k => Z.of_nat k) 1 Keys.loaded eq_refl eq_refl eq_refl).
    eexists. split; [reflexivity|]. split; [reflexivity|].
    destruct (Keys.enter_appends (ui (init_state 800 600)) (mkEnv 7 None 5) 1 Keys.loaded
                start_node eq_refl) as (child & Hn & Hid & _).
    rewrite Hn, map_app. cbn [map]. rewrite Hid. reflexivity.
  - eexists. split; [lazy; reflexivity|]. split; reflexivity.
Qed.

Module Pick.

(** The node is not the excluded one; an excluded identifier [0] excludes
    nothing. *)
Definition counts (excludeId : option Z) (n : MindNode) : Prop :=
  match excludeId with
  | Some ex => ex = 0%Z \/ id n <> ex
  | None => True
  end.

Definition inside (n : MindNode) (p_x p_y : R) : Prop :=
  Rabs (p_x - x n) <= Q2R (w n) / 2 /\ Rabs (p_y - y n) <= Q2R (h n) / 2.

Lemma test_iff (excludeId : option Z) (p_x p_y : R) (n : MindNode) :
  negb (match excludeId with
        | Some ex => truthy_id ex && (id n =? ex)%Z
        | None => false
        end) && App.isPointInNode n p_x p_y = true
  <-> counts excludeId n /\ inside n p_x p_y.
Proof.
  unfold counts, inside, App.isPointInNode, truthy_id.
  rewrite !andb_true_iff, negb_true_iff, !Gestures.Rleb_iff.
  destruct excludeId as [ex|]; [|tauto].
  rewrite andb_false_iff, negb_false_iff, Z.eqb_eq, Z.eqb_neq. tauto.
Qed.

End Pick.

(** [findNodeAt] gives the first node of the document, in its order,
    whose box holds the point (the border counts) and that is not the
    excluded one, and [null] when there is none. *)
Theorem findNodeAt_first_hit (ns : list MindNode) (p_x p_y : R)
    (excludeId : option Z) :
  match App.findNodeAt ns p_x p_y excludeId with
  | Some i =>
      exists before n after,
        ns = before ++ n :: after /\ id n = i
        /\ Pick.counts excludeId n /\ Pick.inside n p_x p_y
        /\ forall m, In m before ->
             ~ (Pick.counts excludeId m /\ Pick.inside m p_x p_y)
  | None =>
      forall m, In m ns -> ~ (Pick.counts excludeId m /\ Pick.inside m p_x p_y)
  end.
Proof.
  unfold App.findNodeAt. cbv zeta.
  induction ns as [|n ns IH]; [intros m []|].
  cbn [find].
  destruct (negb _ && App.isPointInNode n p_x p_y) eqn:T.
  - apply Pick.test_iff in T as [T1 T2].
    exists [], n, ns. split; [reflexivity|]. split; [reflexivity|].
    split; [exact T1|]. split; [exact T2|]. intros m [].
  - assert (N : ~ (Pick.counts excludeId n /\ Pick.inside n p_x p_y)).
    { intros H. apply Pick.test_iff in H. congruence. }
    destruct (find _ ns) as [n'|].
    + destruct IH as (before & m & after & -> & Ei & Hc & Hi & Hb).
      exists (n :: before), m, after. split; [reflexivity|]. split; [exact Ei|].
      split; [exact Hc|]. split; [exact Hi|].
      intros m' [<-|Hm]; [exact N|now apply Hb].
    + intros m [<-|Hm]; [exact N|now apply IH].
Qed.

(** ** Toggles of the context menu ([src/App.tsx] l.1110-1129) *)

Module Toggles.

(** What the flags of an edge show: an absent flag shows as [false]. *)
Definition shown (ed : Link) : Z * Z * Z * option string * bool * bool :=
  (link_id ed, source ed, target ed, link_label ed, App.flag (dashed ed), App.flag (arrow ed)).

(** The node with its flag written out: an absent [bold] becomes
    [false], a flag that is there stays. *)
Definition settled (n : MindNode) : MindNode := set_bold n (Some (App.flag (bold n))).

(** The node with its flag turned over. *)
Definition turned (n : MindNode) : MindNode :=
  set_bold n (Some (negb (App.flag (bold n)))).

Lemma settled_present (n : MindNode) : bold n <> None -> settled n = n.
Proof.
  destruct n as [i l a b c d sc fc [bo|]]; intros H; [reflexivity|now elim H].
Qed.

Lemma toggle_bold_twice (ids : list Z) (n : MindNode) :
  App.toggle_bold ids (App.toggle_bold ids n)
  = if NumSet.mem (id n) ids then settled n else n.
Proof.
  unfold App.toggle_bold. destruct (NumSet.mem (id n) ids) eqn:M.
  - cbn [set_bold id]. rewrite M. unfold settled. cbn [set_bold id label x y w h
      strokeColor fillColor bold App.flag]. now rewrite negb_involutive.
  - now rewrite M.
Qed.

(** One toggle of the flag [dashed] of the edges called [edgeId], seen
    from an edge [ed] before and the edge [ed'] in its place after. *)
Definition dashed_flipped (edgeId : Z) (ed ed' : Link) : Prop :=
  if (link_id ed =? edgeId)%Z
  then ed' = mkLink (link_id ed) (source ed) (target ed) (link_label ed)
               (Some (negb (App.flag (dashed ed)))) (arrow ed)
  else ed' = ed.

Definition arrow_flipped (edgeId : Z) (ed ed' : Link) : Prop :=
  if (link_id ed =? edgeId)%Z
  then ed' = mkLink (link_id ed) (source ed) (target ed) (link_label ed)
               (dashed ed) (Some (negb (App.flag (arrow ed))))
  else ed' = ed.

Lemma Forall2_map_rel (A : Type) (R : A -> A -> Prop) (f : A -> A) (l : list A) :
  (forall a, R a (f a)) -> Forall2 R l (map f l).
Proof.
  intros H. induction l as [|a l IH]; [constructor|]. constructor; [apply H|exact IH].
Qed.

End Toggles.

(** Highlight turns the flag [bold] of the selected nodes over and
    leaves every other node alone.  Twice with the same selection, every
    node is as it was, except that a selected node that came without the
    flag now holds it as [false]; so the nodes are the same whenever the
    selected ones had the flag, as every node has that the application
    made.  The edges stay and each call pushes a snapshot. *)
Theorem highlight_twice_restores (r r' : Render) (s : State) :
  selectedIds r' = selectedIds r ->
  let s1 := App.menuHighlight r s in
  let s2 := App.menuHighlight r' s1 in
  nodes (ui s1)
  = map (fun n => if NumSet.has (id n) (selectedIds r) then Toggles.turned n else n)
      (nodes (ui s))
  /\ nodes (ui s2)
     = map (fun n => if NumSet.has (id n) (selectedIds r) then Toggles.settled n else n)
         (nodes (ui s))
  /\ ((forall n, In n (nodes (ui s)) -> NumSet.has (id n) (selectedIds r) = true ->
         bold n <> None) ->
      nodes (ui s2) = nodes (ui s))
  /\ map (fun n => App.flag (bold n)) (nodes (ui s2))
     = map (fun n => App.flag (bold n)) (nodes (ui s))
  /\ edges (ui s2) = edges (ui s)
  /\ undoStack (refs s2) = snapshot r' :: snapshot r :: undoStack (refs s).
Proof.
  intros Hsel. cbv zeta.
  assert (E2 : nodes (ui (App.menuHighlight r' (App.menuHighlight r s)))
               = map (fun n => if NumSet.has (id n) (selectedIds r)
                               then Toggles.settled n else n) (nodes (ui s))).
  { change (map (App.toggle_bold (NumSet.to_list (selectedIds r')))
              (map (App.toggle_bold (NumSet.to_list (selectedIds r))) (nodes (ui s)))
            = map (fun n => if NumSet.has (id n) (selectedIds r)
                            then Toggles.settled n else n) (nodes (ui s))).
    rewrite Hsel, map_map. apply map_ext. intros n. apply Toggles.toggle_bold_twice. }
  split; [reflexivity|]. split; [exact E2|]. split; [|split; [|split; reflexivity]].
  - intros Hb. rewrite E2. rewrite <- (map_id (nodes (ui s))) at 2.
    apply map_ext_in. intros n Hn.
    destruct (NumSet.has (id n) (selectedIds r)) eqn:M; [|reflexivity].
    apply Toggles.settled_present. now apply Hb.
  - rewrite E2, map_map. apply map_ext. intros n.
    destruct (NumSet.has (id n) (selectedIds r)); reflexivity.
Qed.

(** The toggles "dashed" and "arrow" of an edge: one toggle turns that
    flag of the edges with the given identifier over, an absent flag
    counting as [false], and leaves their other fields, every other edge
    and the nodes as they are; a second toggle shows every edge as it
    was. *)
Theorem edge_toggle_twice_restores (r r' : Render) (edgeId : Z) (s : State) :
  let d1 := App.menuToggleDashed r edgeId s in
  let a1 := App.menuToggleArrow r edgeId s in
  Forall2 (Toggles.dashed_flipped edgeId) (edges (ui s)) (edges (ui d1))
  /\ Forall2 (Toggles.arrow_flipped edgeId) (edges (ui s)) (edges (ui a1))
  /\ nodes (ui d1) = nodes (ui s) /\ nodes (ui a1) = nodes (ui s)
  /\ map Toggles.shown (edges (ui (App.menuToggleDashed r' edgeId d1)))
     = map Toggles.shown (edges (ui s))
  /\ map Toggles.shown (edges (ui (App.menuToggleArrow r' edgeId a1)))
     = map Toggles.shown (edges (ui s)).
Proof.
  cbv zeta. split; [|split; [|split; [reflexivity|split; [reflexivity|split]]]].
  - apply (Toggles.Forall2_map_rel Link (Toggles.dashed_flipped edgeId)).
    intros ed. unfold Toggles.dashed_flipped.
    destruct (link_id ed =? edgeId)%Z; reflexivity.
  - apply (Toggles.Forall2_map_rel Link (Toggles.arrow_flipped edgeId)).
    intros ed. unfold Toggles.arrow_flipped.
    destruct (link_id ed =? edgeId)%Z; reflexivity.
  - change (map Toggles.shown
              (map (fun ed => if (link_id ed =? edgeId)%Z
                              then mkLink (link_id ed) (source ed) (target ed) (link_label ed)
                                     (Some (negb (App.flag (dashed ed)))) (arrow ed)
                              else ed)
                 (map (fun ed => if (link_id ed =? edgeId)%Z
                                 then mkLink (link_id ed) (source ed) (target ed) (link_label ed)
                                        (Some (negb (App.flag (dashed ed)))) (arrow ed)
                                 else ed) (edges (ui s))))
            = map Toggles.shown (edges (ui s))).
    rewrite !map_map. apply map_ext. intros ed.
    destruct (link_id ed =? edgeId)%Z eqn:E; [|now rewrite E].
    cbn [link_id]. rewrite E. unfold Toggles.shown. cbn. now rewrite negb_involutive.
  - change (map Toggles.shown
              (map (fun ed => if (link_id ed =? edgeId)%Z
                              then mkLink (link_id ed) (source ed) (target ed) (link_label ed)
                                     (dashed ed) (Some (negb (App.flag (arrow ed))))
                              else ed)
                 (map (fun ed => if (link_id ed =? edgeId)%Z
                                 then mkLink (link_id ed) (source ed) (target ed) (link_label ed)
                                        (dashed ed) (Some (negb (App.flag (arrow ed))))
                                 else ed) (edges (ui s))))
            = map Toggles.shown (edges (ui s))).
    rewrite !map_map. apply map_ext. intros ed.
    destruct (link_id ed =? edgeId)%Z eqn:E; [|now rewrite E].
    cbn [link_id]. rewrite E. unfold Toggles.shown. cbn. now rewrite negb_involutive.
Qed.

(** The start node highlighted twice; a node read without the flag ends
    with the flag [false]. *)
Lemma highlight_twice_restores_witness :
  selectedIds (ui (init_state 800 600)) = selectedIds (ui (init_state 800 600))
  /\ nodes (ui (App.menuHighlight (ui (init_state 800 600))
                  (App.menuHighlight (ui (init_state 800 600)) (init_state 800 600))))
     = nodes (ui (init_state 800 600)).
Proof.
  split; [reflexivity|].
  destruct (highlight_twice_restores (ui (init_state 800 600)) (ui (init_state 800 600))
              (init_state 800 600) eq_refl) as (_ & _ & H & _).
  apply H. intros n [<-|[]] _. discriminate.
Defined.

Module GroupDrag.

Lemma NoDup_of_nodupb (l : list Z) : NumSet.nodupb l = true -> NoDup l.
Proof.
  induction l as [|a l IH]; intros H; [constructor|].
  cbn [NumSet.nodupb] in H. apply andb_true_iff in H as [H1 H2].
  constructor; [|now apply IH].
  intros Hin. apply mem_In in Hin. rewrite Hin in H1. discriminate.
Qed.

Lemma fst_unique (ps : list (Z * (R * R))) (i : Z) (v v' : R * R) :
  NoDup (map fst ps) -> In (i, v) ps -> In (i, v') ps -> v = v'.
Proof.
  induction ps as [|p ps IH]; intros Hn H1 H2; [destruct H1|].
  cbn [map] in Hn. inversion Hn as [|? ? Hx Hr]; subst.
  destruct H1 as [->|H1], H2 as [E|H2].
  - now injection E.
  - exfalso. apply Hx. cbn [fst]. change i with (fst (i, v')). now apply in_map.
  - exfalso. apply Hx. rewrite E. cbn [fst]. change i with (fst (i, v)). now apply in_map.
  - now apply IH.
Qed.

Lemma lookup_unique (ps : list (Z * (R * R))) (i : Z) (v : R * R) :
  NoDup (map fst ps) -> In (i, v) ps -> App.lookup_position ps i = Some v.
Proof.
  intros Hn Hin. unfold App.lookup_position.
  destruct (find (fun p => (fst p =? i)%Z) (rev ps)) as [[j v']|] eqn:F.
  - apply find_some in F as [H E]. apply in_rev in H. cbn [fst] in E.
    apply Z.eqb_eq in E. subst j. f_equal. cbn [snd].
    exact (fst_unique ps i v' v Hn H Hin).
  - exfalso. apply in_rev in Hin.
    pose proof (find_none _ _ F (i, v) Hin) as N. cbn [fst] in N.
    rewrite Z.eqb_refl in N. discriminate.
Qed.

(** The start positions are those of the selected nodes, in the order of
    the selection. *)
Lemma start_positions_spec (ns : list MindNode) (ids : list Z) :
  (forall j, In j ids -> find_node ns j <> None) ->
  exists ps,
    App.start_positions ns ids = Some ps
    /\ map fst ps = ids
    /\ forall j n, In j ids -> find_node ns j = Some n -> In (j, (x n, y n)) ps.
Proof.
  induction ids as [|a ids IH]; intros H.
  - exists []. split; [reflexivity|]. split; [reflexivity|]. intros j n [].
  - destruct IH as (ps & E & Ef & Hin); [intros j Hj; apply H; now right|].
    cbn [App.start_positions]. rewrite E.
    destruct (find_node ns a) as [na|] eqn:Fa; [|now elim (H a (or_introl eq_refl))].
    exists ((a, (x na, y na)) :: ps). split; [reflexivity|]. split; [cbn; now rewrite Ef|].
    intros j n [<-|Hj] Fj.
    + left. rewrite Fa in Fj. now injection Fj as <-.
    + right. now apply Hin.
Qed.

Lemma lookup_absent (ps : list (Z * (R * R))) (i : Z) :
  ~ In i (map fst ps) -> App.lookup_position ps i = None.
Proof.
  intros H. unfold App.lookup_position.
  destruct (find (fun p => (fst p =? i)%Z) (rev ps)) as [p|] eqn:F; [|reflexivity].
  exfalso. apply find_some in F as [Hp E]. apply in_rev in Hp.
  apply Z.eqb_eq in E. apply H. rewrite <- E. now apply in_map.
Qed.

(** The updater of the group drag moves every selected node when each
    has a start position, and throws when one has none. *)
Lemma move_group_moves (sel : NumSet.t) (ps : list (Z * (R * R))) (dx dy : R)
    (ns : list MindNode) :
  (forall n, In n ns -> NumSet.has (id n) sel = true ->
     App.lookup_position ps (id n) <> None) ->
  App.move_group sel ps dx dy ns
  = Some (map (fun n =>
                 if NumSet.has (id n) sel then
                   match App.lookup_position ps (id n) with
                   | Some (x0, y0) => set_pos n (x0 + dx) (y0 + dy)
                   | None => n
                   end
                 else n) ns).
Proof.
  induction ns as [|n ns IH]; intros H; [reflexivity|].
  cbn [App.move_group map]. cbv zeta.
  rewrite IH by (intros m Hm; apply H; now right).
  destruct (NumSet.has (id n) sel) eqn:M; [|reflexivity].
  destruct (App.lookup_position ps (id n)) as [[x0 y0]|] eqn:L; [reflexivity|].
  now elim (H n (or_introl eq_refl) M).
Qed.

Lemma move_group_throws (sel : NumSet.t) (ps : list (Z * (R * R))) (dx dy : R)
    (ns : list MindNode) (n : MindNode) :
  In n ns -> NumSet.has (id n) sel = true -> App.lookup_position ps (id n) = None ->
  App.move_group sel ps dx dy ns = None.
Proof.
  induction ns as [|m ns IH]; intros Hin M L; [destruct Hin|].
  cbn [App.move_group]. cbv zeta. destruct Hin as [->|Hin].
  - rewrite M, L. reflexivity.
  - rewrite (IH Hin M L).
    destruct (if NumSet.has (id m) sel then _ else _); reflexivity.
Qed.

End GroupDrag.

(** Dragging a group: after a plain press on a node of a selection of
    two or more, a move of the pointer puts every selected node where it
    was at the press plus the way the pointer went, so the group keeps its
    shape; the other nodes and the edges stay. *)
Theorem group_drag_keeps_shape (r r' : Render) (e : Env) (wx wy wx' wy' : R)
    (i : Z) (s : State) :
  editingId r = None -> phase (linking r) = idle ->
  NumSet.has i (selectedIds r) = true ->
  (1 < NumSet.size (selectedIds r))%nat ->
  (forall j, In j (NumSet.elems (selectedIds r)) -> find_node (nodes r) j <> None) ->
  marquee_active (marquee r') = false -> phase (linking r') = idle ->
  selectedIds r' = selectedIds r ->
  let s1 := App.onPointerDownNode r e Gestures.plain wx wy i s in
  exists s2,
    App.onPointerMoveSvg r' wx' wy' s1 = Some s2
    /\ nodes (ui s2)
       = map (fun n =>
                if NumSet.has (id n) (selectedIds r) then
                  match find_node (nodes r) (id n) with
                  | Some n0 => set_pos n (x n0 + (wx' - wx)) (y n0 + (wy' - wy))
                  | None => n
                  end
                else n) (nodes (ui s))
    /\ edges (ui s2) = edges (ui s)
    /\ somethingMoved (refs s2) = true.
Proof.
  intros He Hl Hin Hsz Hall Hm' Hl' Hsel. cbv zeta.
  destruct (GroupDrag.start_positions_spec (nodes r) (NumSet.to_list (selectedIds r)) Hall)
    as (ps & Eps & Efst & Hps).
  assert (U : NoDup (map fst ps)).
  { rewrite Efst. apply GroupDrag.NoDup_of_nodupb. apply NumSet.elems_nodup. }
  assert (K : forall n, NumSet.has (id n) (selectedIds r) = true ->
              exists n0, find_node (nodes r) (id n) = Some n0
                         /\ App.lookup_position ps (id n) = Some (x n0, y n0)).
  { intros n Hn.
    assert (Hj : In (id n) (NumSet.to_list (selectedIds r))).
    { unfold NumSet.has in Hn. now apply mem_In in Hn. }
    destruct (find_node (nodes r) (id n)) as [n0|] eqn:F; [|now elim (Hall (id n) Hj)].
    exists n0. split; [reflexivity|].
    apply GroupDrag.lookup_unique; [exact U|now apply Hps]. }
  unfold App.onPointerDownNode. rewrite He, Hl, Hin.
  cbn [App.some Gestures.plain App.shift App.ctrl negb andb App.is_idle]. cbv zeta.
  apply Nat.ltb_lt in Hsz. rewrite Hsz, Eps.
  unfold App.onPointerMoveSvg. rewrite Hm', Hl', Hsel. cbn [negb App.is_idle].
  cbn [groupDragging refs on_refs with_groupDragging with_groupStart
       with_groupStartPositions with_somethingMoved groupStart groupStartPositions px py
       ui set_freshTyping with_freshTyping].
  rewrite GroupDrag.move_group_moves.
  2:{ intros n _ Hn. destruct (K n Hn) as (n0 & _ & L). rewrite L. discriminate. }
  eexists. split; [reflexivity|]. split; [|split; reflexivity].
  cbn [setNodes on_ui ui nodes with_nodes].
  apply map_ext. intros n.
  destruct (NumSet.has (id n) (selectedIds r)) eqn:Hn; [|reflexivity].
  destruct (K n Hn) as (n0 & F & L). rewrite F, L. reflexivity.
Qed.

Lemma group_drag_keeps_shape_witness :
  let s := setSelectedIds (NumSet.of_list [1%Z; 2%Z])
             (setNodes (fun ns => ns ++ [LinkExample.second]) (init_state 800 600)) in
  let r := ui s in
  editingId r = None /\ phase (linking r) = idle
  /\ NumSet.has 1 (selectedIds r) = true
  /\ (1 < NumSet.size (selectedIds r))%nat
  /\ marquee_active (marquee r) = false
  /\ exists s2,
       App.onPointerMoveSvg r 30 40
         (App.onPointerDownNode r (mkEnv 0 None 0) Gestures.plain 10 10 1 s) = Some s2
       /\ somethingMoved (refs s2) = true.
Proof.
  cbv zeta.
  set (s := setSelectedIds (NumSet.of_list [1%Z; 2%Z])
              (setNodes (fun ns => ns ++ [LinkExample.second]) (init_state 800 600))).
  assert (Z1 : (1 < NumSet.size (selectedIds (ui s)))%nat).
  { apply Nat.ltb_lt. reflexivity. }
  assert (A : forall j, In j (NumSet.elems (selectedIds (ui s))) ->
                        find_node (nodes (ui s)) j <> None).
  { intros j Hj. change (In j [1%Z; 2%Z]) in Hj.
    destruct Hj as [<-|[<-|[]]].
    - change (find_node (nodes (ui s)) 1) with (Some start_node). discriminate.
    - change (find_node (nodes (ui s)) 2) with (Some LinkExample.second). discriminate. }
  split; [reflexivity|]. split; [reflexivity|]. split; [reflexivity|].
  split; [exact Z1|]. split; [reflexivity|].
  destruct (group_drag_keeps_shape (ui s) (ui s) (mkEnv 0 None 0) 10 10 30 40 1 s
              eq_refl eq_refl eq_refl Z1 A eq_refl eq_refl eq_refl)
    as (s2 & E & _ & _ & M).
  exists s2. split; [exact E|exact M].
Defined.

(** Dragging one node.  After a plain press on a node while at most one
    node is selected, a move of the pointer puts the node where it was plus
    the way the pointer went and leaves every other node alone.  After a
    plain press on a node outside a selection of two or more, the press
    selects the node alone but starts a drag of the group with the start
    positions of the old selection; the updater of the first move finds no
    start position for the pressed node and throws. *)
Theorem drag_follows_pointer (r r' : Render) (e : Env) (wx wy wx' wy' : R)
    (i : Z) (node : MindNode) (s : State) :
  editingId r = None -> phase (linking r) = idle ->
  find_node (nodes r) i = Some node ->
  marquee_active (marquee r') = false -> phase (linking r') = idle ->
  let s1 := App.onPointerDownNode r e Gestures.plain wx wy i s in
  ((NumSet.size (selectedIds r) <= 1)%nat -> groupDragging (refs s) = false ->
   exists s2,
     App.onPointerMoveSvg r' wx' wy' s1 = Some s2
     /\ nodes (ui s2)
        = map (fun n => if (id n =? i)%Z
                        then set_pos n (x node + (wx' - wx)) (y node + (wy' - wy))
                        else n) (nodes (ui s))
     /\ edges (ui s2) = edges (ui s)
     /\ somethingMoved (refs s2) = true)
  /\ ((1 < NumSet.size (selectedIds r))%nat ->
      NumSet.has i (selectedIds r) = false ->
      (forall j, In j (NumSet.elems (selectedIds r)) -> find_node (nodes r) j <> None) ->
      selectedIds r' = selectedIds (ui s1) ->
      (exists n, In n (nodes (ui s)) /\ id n = i) ->
      NumSet.elems (selectedIds (ui s1)) = [i]
      /\ groupDragging (refs s1) = true
      /\ App.onPointerMoveSvg r' wx' wy' s1 = None).
Proof.
  intros He Hl Hn Hm' Hl'. cbv zeta. split.
  - intros Hsz Hg.
    unfold App.onPointerDownNode. rewrite He, Hl, Hn.
    cbn [App.some Gestures.plain App.shift App.ctrl negb andb App.is_idle].
    cbv zeta.
    replace (1 <? NumSet.size (selectedIds r))%nat with false
      by (symmetry; apply Nat.ltb_ge; exact Hsz).
    set (s0 := if NumSet.has i (selectedIds r) then set_freshTyping true s
               else selectOnly r i (set_freshTyping true s)).
    assert (F : nodes (ui s0) = nodes (ui s) /\ edges (ui s0) = edges (ui s)
                /\ groupDragging (refs s0) = false).
    { unfold s0. destruct (NumSet.has i (selectedIds r)).
      - repeat split; try reflexivity. exact Hg.
      - unfold selectOnly. destruct (selectedId r) as [old|]; [destruct (old =? i)%Z|];
          repeat split; try reflexivity; exact Hg. }
    destruct F as (Fn & Fe & Fg).
    unfold App.onPointerMoveSvg. rewrite Hm', Hl'. cbn [negb App.is_idle].
    match goal with
    | |- context [if groupDragging (refs ?t) then _ else _] =>
        replace (groupDragging (refs t)) with false by (symmetry; exact Fg)
    end.
    cbn [draggingNodeId refs on_refs with_somethingMoved with_dragOffset with_draggingNodeId
         dragOffset fst snd].
    eexists. split; [reflexivity|].
    split; [|split; [exact Fe|reflexivity]].
    change (map (fun n => if (id n =? i)%Z
                          then set_pos n (wx' + (x node - wx)) (wy' + (y node - wy)) else n)
              (nodes (ui s0))
            = map (fun n => if (id n =? i)%Z
                            then set_pos n (x node + (wx' - wx)) (y node + (wy' - wy))
                            else n) (nodes (ui s))).
    rewrite Fn. apply map_ext. intros n. destruct (id n =? i)%Z; [|reflexivity].
    f_equal; ring.
  - intros Hsz Hout Hall Hsel (n & Hin & Hid).
    destruct (GroupDrag.start_positions_spec (nodes r) (NumSet.to_list (selectedIds r)) Hall)
      as (ps & Eps & Efst & _).
    assert (P : App.onPointerDownNode r e Gestures.plain wx wy i s
                = on_refs (fun f => with_groupStartPositions f ps)
                    (on_refs (fun f => with_groupStart f (mkPoint wx wy))
                       (on_refs (fun f => with_groupDragging f true)
                          (selectOnly r i (set_freshTyping true s))))).
    { unfold App.onPointerDownNode. rewrite He, Hl, Hout.
      cbn [App.some Gestures.plain App.shift App.ctrl negb andb App.is_idle]. cbv zeta.
      apply Nat.ltb_lt in Hsz. rewrite Hsz, Eps. reflexivity. }
    rewrite P in Hsel |- *.
    assert (S1 : selectedIds (ui (selectOnly r i (set_freshTyping true s)))
                 = NumSet.of_list [i]).
    { unfold selectOnly. destruct (selectedId r) as [old|]; [destruct (old =? i)%Z|];
        reflexivity. }
    assert (N1 : nodes (ui (selectOnly r i (set_freshTyping true s))) = nodes (ui s)).
    { unfold selectOnly. destruct (selectedId r) as [old|]; [destruct (old =? i)%Z|];
        reflexivity. }
    cbn [ui on_refs] in Hsel |- *. rewrite S1 in Hsel |- *.
    split; [reflexivity|]. split; [reflexivity|].
    unfold App.onPointerMoveSvg. rewrite Hm', Hl', Hsel. cbn [negb App.is_idle].
    cbn [groupDragging refs on_refs with_groupDragging with_groupStart
         with_groupStartPositions with_somethingMoved groupStart groupStartPositions
         px py ui].
    rewrite N1.
    rewrite (GroupDrag.move_group_throws (NumSet.of_list [i]) ps _ _ (nodes (ui s)) n Hin);
      [reflexivity| |].
    + rewrite Hid. unfold NumSet.has. cbn. now rewrite Z.eqb_refl.
    + rewrite Hid. apply GroupDrag.lookup_absent. rewrite Efst. intros Hi.
      apply mem_In in Hi. unfold NumSet.has in Hout. unfold NumSet.to_list in Hi.
      congruence.
Qed.

Lemma drag_follows_pointer_witness :
  let r := ui (init_state 800 600) in
  editingId r = None /\ phase (linking r) = idle
  /\ find_node (nodes r) 1 = Some start_node
  /\ marquee_active (marquee r) = false
  /\ exists s2,
       App.onPointerMoveSvg r 30 40
         (App.onPointerDownNode r (mkEnv 0 None 0) Gestures.plain 10 10 1
            (init_state 800 600)) = Some s2
       /\ somethingMoved (refs s2) = true.
Proof.
  cbv zeta.
  assert (Z1 : (NumSet.size (selectedIds (ui (init_state 800 600))) <= 1)%nat).
  { apply Nat.leb_le. reflexivity. }
  split; [reflexivity|]. split; [reflexivity|]. split; [reflexivity|].
  split; [reflexivity|].
  destruct (proj1 (drag_follows_pointer (ui (init_state 800 600))
                     (ui (init_state 800 600)) (mkEnv 0 None 0) 10 10 30 40 1
                     start_node (init_state 800 600)
                     eq_refl eq_refl eq_refl eq_refl eq_refl) Z1 eq_refl)
    as (s2 & E & _ & _ & M).
  exists s2. split; [exact E|exact M].
Defined.

(** ** Colours ([src/App.tsx] l.113-123, [src/types/index.ts] l.176-186) *)

Module Colour.

Local Open Scope string_scope.
Local Open Scope Z_scope.

(** [s.replace("#", "")]: the first ["#"] goes. *)
Fixpoint remove_hash (s : string) : string :=
  match s with
  | EmptyString => EmptyString
  | String c s' => if Ascii.eqb c "#"%char then s' else String c (remove_hash s')
  end.

(** [m.split("").map((c) => c + c).join("")]. *)
Fixpoint double_chars (s : string) : string :=
  match s with
  | EmptyString => EmptyString
  | String c s' => String c (String c (double_chars s'))
  end.

(** The value of a digit of radix 16. *)
Definition hex_value (c : ascii) : option Z :=
  let n := Z.of_nat (nat_of_ascii c) in
  if (48 <=? n) && (n <=? 57) then Some (n - 48)
  else if (97 <=? n) && (n <=? 102) then Some (n - 87)
  else if (65 <=? n) && (n <=? 70) then Some (n - 55)
  else None.

(** The longest run of digits at the start of [s], read in radix 16;
    [None] when there is no digit. *)
Fixpoint digits_value (acc : Z) (seen : bool) (s : string) : option Z :=
  match s with
  | EmptyString => if seen then Some acc else None
  | String c s' =>
      match hex_value c with
      | Some d => digits_value (16 * acc + d) true s'
      | None => if seen then Some acc else None
      end
  end.

Definition strip_sign (s : string) : Z * string :=
  match s with
  | String "-"%char s' => (-1, s')
  | String "+"%char s' => (1, s')
  | _ => (1, s)
  end.

Definition strip_prefix (s : string) : string :=
  match s with
  | String "0"%char (String c s') =>
      if Ascii.eqb c "x"%char || Ascii.eqb c "X"%char then s' else s
  | _ => s
  end.

(** The nearest number that a JavaScript number holds (53 significant
    bits, ties to even); [None] is [Infinity]. *)
Definition to_double (n : Z) : option Z :=
  let a := Z.abs n in
  if a <? 2 ^ 53 then Some n
  else
    let e := Z.log2 a - 52 in
    let q := a / 2 ^ e in
    let rem := a mod 2 ^ e in
    let half := 2 ^ (e - 1) in
    let q' := if (half <? rem) || ((rem =? half) && Z.odd q) then q + 1 else q in
    if 2 ^ 1024 <=? q' * 2 ^ e then None else Some (Z.sgn n * (q' * 2 ^ e)).

(** [parseInt(s, 16)]; [None] is [NaN] or an infinity, which the shifts
    below read as [0] alike. *)
Definition parseInt16 (s : string) : option Z :=
  let (sign, s1) := strip_sign (JsString.trim_start s) in
  match digits_value 0 false (strip_prefix s1) with
  | Some mathInt => to_double (sign * mathInt)
  | None => None
  end.

(** [ToInt32], which [>>] and [&] apply to their operands. *)
Definition to_int32 (v : option Z) : Z :=
  match v with
  | None => 0
  | Some n =>
      let m := n mod 2 ^ 32 in
      if 2 ^ 31 <=? m then m - 2 ^ 32 else m
  end.

Definition channels (hex : string) : Z * Z * Z :=
  let m := remove_hash hex in
  let bigint :=
    to_int32 (parseInt16 (if (String.length m =? 3)%nat then double_chars m else m)) in
  (Z.land (Z.shiftr bigint 16) 255, Z.land (Z.shiftr bigint 8) 255, Z.land bigint 255).

(** A number in a template string. *)
Definition dec (n : Z) : string := NilZero.string_of_int (Z.to_int n).

Definition rgba60 (c : Z * Z * Z) : string :=
  let '(r, g, b) := c in
  "rgba(" ++ dec r ++ "," ++ dec g ++ "," ++ dec b ++ ",0.6)".

Definition hexToRgba60 (hex : string) : string := rgba60 (channels hex).

(** The digit of radix 16 for [d], in small letters, and the two digits
    of a byte. *)
Definition hex_digit (d : Z) : ascii :=
  ascii_of_nat (Z.to_nat (if d <? 10 then 48 + d else 87 + d)).

Definition hex_byte (v : Z) : string :=
  String (hex_digit (v / 16)) (String (hex_digit (v mod 16)) "").

Lemma sixteen (d : Z) :
  0 <= d < 16 ->
  d = 0 \/ d = 1 \/ d = 2 \/ d = 3 \/ d = 4 \/ d = 5 \/ d = 6 \/ d = 7
  \/ d = 8 \/ d = 9 \/ d = 10 \/ d = 11 \/ d = 12 \/ d = 13 \/ d = 14 \/ d = 15.
Proof. lia. Qed.

Ltac each_digit H :=
  apply sixteen in H;
  repeat (destruct H as [H|H]; [subst; reflexivity|]); subst; reflexivity.

Lemma hex_value_digit (d : Z) : 0 <= d < 16 -> hex_value (hex_digit d) = Some d.
Proof. intros H. each_digit H. Qed.

Lemma hex_digit_plain (d : Z) (s : string) :
  0 <= d < 16 ->
  JsString.trim_start (String (hex_digit d) s) = String (hex_digit d) s
  /\ strip_sign (String (hex_digit d) s) = (1, String (hex_digit d) s)
  /\ Ascii.eqb (hex_digit d) "x"%char || Ascii.eqb (hex_digit d) "X"%char = false
  /\ Ascii.eqb (hex_digit d) "#"%char = false.
Proof.
  intros H. apply sixteen in H.
  repeat (destruct H as [H|H]; [subst; repeat split; reflexivity|]);
    subst; repeat split; reflexivity.
Qed.

Lemma digits_byte (acc v : Z) (seen : bool) (s : string) :
  0 <= v < 256 ->
  digits_value acc seen (hex_byte v ++ s) = digits_value (256 * acc + v) true s.
Proof.
  intros H. unfold hex_byte. cbn [String.append digits_value].
  assert (H1 : 0 <= v / 16 < 16).
  { split; [apply Z.div_pos; lia|apply Z.div_lt_upper_bound; lia]. }
  assert (H2 : 0 <= v mod 16 < 16) by (apply Z.mod_pos_bound; lia).
  rewrite (hex_value_digit _ H1), (hex_value_digit _ H2). f_equal.
  pose proof (Z.div_mod v 16). lia.
Qed.

Lemma channel_range (n : Z) : 0 <= Z.land n 255 <= 255.
Proof.
  assert (E : Z.land n 255 = n mod 256).
  { change 255 with (Z.ones 8). now rewrite Z.land_ones by lia. }
  rewrite E. pose proof (Z.mod_pos_bound n 256 eq_refl). lia.
Qed.

Lemma byte_digits (v : Z) : 0 <= v < 256 -> 0 <= v / 16 < 16 /\ 0 <= v mod 16 < 16.
Proof.
  intros H. split.
  - split; [apply Z.div_pos; lia|apply Z.div_lt_upper_bound; lia].
  - apply Z.mod_pos_bound; lia.
Qed.

(** Six digits are read as the number of their three bytes. *)
Lemma parse_bytes (r g b : Z) :
  0 <= r < 256 -> 0 <= g < 256 -> 0 <= b < 256 ->
  to_int32 (parseInt16 (hex_byte r ++ hex_byte g ++ hex_byte b))
  = 256 * (256 * r + g) + b.
Proof.
  intros Hr Hg Hb. unfold parseInt16.
  destruct (byte_digits r Hr) as [H1 H2].
  destruct (hex_digit_plain (r / 16)
              (String (hex_digit (r mod 16)) (hex_byte g ++ hex_byte b)) H1)
    as (T & S & _ & _).
  destruct (hex_digit_plain (r mod 16) (hex_byte g ++ hex_byte b) H2)
    as (_ & _ & X & _).
  change (hex_byte r ++ hex_byte g ++ hex_byte b)%string
    with (String (hex_digit (r / 16))
            (String (hex_digit (r mod 16)) (hex_byte g ++ hex_byte b))).
  rewrite T, S.
  assert (P : strip_prefix
                (String (hex_digit (r / 16))
                   (String (hex_digit (r mod 16)) (hex_byte g ++ hex_byte b)))
              = String (hex_digit (r / 16))
                   (String (hex_digit (r mod 16)) (hex_byte g ++ hex_byte b))).
  { unfold strip_prefix. rewrite X.
    destruct (hex_digit (r / 16)) as [[] [] [] [] [] [] [] []]; reflexivity. }
  rewrite P.
  change (String (hex_digit (r / 16))
            (String (hex_digit (r mod 16)) (hex_byte g ++ hex_byte b)))
    with (hex_byte r ++ hex_byte g ++ hex_byte b)%string.
  rewrite (digits_byte 0 r false _ Hr), (digits_byte _ g true _ Hg).
  replace (hex_byte b) with (hex_byte b ++ "")%string
    by (unfold hex_byte; reflexivity).
  rewrite (digits_byte _ b true _ Hb). cbn [digits_value].
  set (n := 256 * (256 * (256 * 0 + r) + g) + b).
  assert (Hn : 0 <= n < 2 ^ 24) by (unfold n; change (2 ^ 24) with 16777216; lia).
  assert (D : to_double (1 * n) = Some n).
  { unfold to_double. rewrite Z.mul_1_l. cbv zeta.
    replace (Z.abs n <? 2 ^ 53) with true; [reflexivity|].
    symmetry. apply Z.ltb_lt. rewrite Z.abs_eq by lia.
    apply Z.lt_trans with (2 ^ 24); [lia|reflexivity]. }
  rewrite D. unfold to_int32. cbv zeta.
  rewrite (Z.mod_small n (2 ^ 32))
    by (split; [lia|]; apply Z.lt_trans with (2 ^ 24); [lia|reflexivity]).
  replace (2 ^ 31 <=? n) with false
    by (symmetry; apply Z.leb_gt; apply Z.lt_trans with (2 ^ 24); [lia|reflexivity]).
  unfold n. ring.
Qed.

(** The shifts and masks take the three bytes apart again. *)
Lemma split_bytes (r g b : Z) :
  0 <= r < 256 -> 0 <= g < 256 -> 0 <= b < 256 ->
  let n := 256 * (256 * r + g) + b in
  (Z.land (Z.shiftr n 16) 255, Z.land (Z.shiftr n 8) 255, Z.land n 255) = (r, g, b).
Proof.
  intros Hr Hg Hb n. unfold n.
  change 255 with (Z.ones 8). rewrite !Z.land_ones, !Z.shiftr_div_pow2 by lia.
  change (2 ^ 16) with 65536. change (2 ^ 8) with 256.
  f_equal; [f_equal|].
  - replace (256 * (256 * r + g) + b) with (b + 256 * g + r * 65536) by ring.
    rewrite Z.div_add by lia. rewrite (Z.div_small (b + 256 * g)) by lia.
    rewrite Z.add_0_l. apply Z.mod_small. lia.
  - replace (256 * (256 * r + g) + b) with (b + (256 * r + g) * 256) by ring.
    rewrite Z.div_add by lia. rewrite (Z.div_small b) by lia. rewrite Z.add_0_l.
    replace (256 * r + g) with (g + r * 256) by ring.
    rewrite Z.mod_add by lia. apply Z.mod_small. lia.
  - replace (256 * (256 * r + g) + b) with (b + (256 * r + g) * 256) by ring.
    rewrite Z.mod_add by lia. apply Z.mod_small. lia.
Qed.

(** A digit written twice is the byte [17 * d]. *)
Lemma doubled_digit (d : Z) :
  0 <= d < 16 ->
  String (hex_digit d) (String (hex_digit d) "") = hex_byte (17 * d).
Proof.
  intros H. unfold hex_byte.
  replace (17 * d / 16) with d
    by (apply Z.div_unique with (r := d); lia).
  replace ((17 * d) mod 16) with d
    by (apply Z.mod_unique with (q := d); lia).
  reflexivity.
Qed.

Lemma channels_six (r g b : Z) :
  0 <= r < 256 -> 0 <= g < 256 -> 0 <= b < 256 ->
  channels (String "#" (hex_byte r ++ hex_byte g ++ hex_byte b)) = (r, g, b).
Proof.
  intros Hr Hg Hb.
  unfold channels. cbn [remove_hash Ascii.eqb Bool.eqb]. cbv zeta.
  assert (L : (String.length (hex_byte r ++ hex_byte g ++ hex_byte b) =? 3)%nat = false)
    by reflexivity.
  rewrite L, (parse_bytes r g b Hr Hg Hb).
  exact (split_bytes r g b Hr Hg Hb).
Qed.

End Colour.

(** [hexToRgba60] reads a colour: on ["#rrggbb"], written with the two
    digits of radix 16 of each of three bytes, the channels are the three
    bytes and the result is ["rgba(r,g,b,0.6)"] with the bytes in decimal. *)
Theorem hexToRgba60_reads_bytes (r g b : Z) :
  (0 <= r < 256)%Z -> (0 <= g < 256)%Z -> (0 <= b < 256)%Z ->
  Colour.channels
    (String "#" (Colour.hex_byte r ++ Colour.hex_byte g ++ Colour.hex_byte b))
  = (r, g, b)
  /\ Colour.hexToRgba60
       (String "#" (Colour.hex_byte r ++ Colour.hex_byte g ++ Colour.hex_byte b))
     = ("rgba(" ++ Colour.dec r ++ "," ++ Colour.dec g ++ "," ++ Colour.dec b ++ ",0.6)")%string.
Proof.
  intros Hr Hg Hb.
  pose proof (Colour.channels_six r g b Hr Hg Hb) as C.
  split; [exact C|]. unfold Colour.hexToRgba60. rewrite C. reflexivity.
Qed.

Lemma hexToRgba60_reads_bytes_witness :
  Colour.channels "#a5d6a7" = (165, 214, 167)%Z
  /\ Colour.hexToRgba60 "#a5d6a7" = "rgba(165,214,167,0.6)"%string.
Proof.
  exact (hexToRgba60_reads_bytes 165 214 167
           ltac:(lia) ltac:(lia) ltac:(lia)).
Defined.

(** The short form: ["#rgb"] with three digits of radix 16 is read as
    ["#rrggbb"], so each channel is seventeen times its digit. *)
Theorem hexToRgba60_short_form (r g b : Z) :
  (0 <= r < 16)%Z -> (0 <= g < 16)%Z -> (0 <= b < 16)%Z ->
  let short :=
    String "#" (String (Colour.hex_digit r) (String (Colour.hex_digit g)
                  (String (Colour.hex_digit b) ""))) in
  Colour.channels short = (17 * r, 17 * g, 17 * b)%Z
  /\ Colour.hexToRgba60 short
     = Colour.hexToRgba60
         (String "#" (Colour.hex_byte (17 * r) ++ Colour.hex_byte (17 * g)
                      ++ Colour.hex_byte (17 * b))).
Proof.
  intros Hr Hg Hb short.
  assert (C : Colour.channels short = (17 * r, 17 * g, 17 * b)%Z).
  { assert (M : Colour.remove_hash short
                = String (Colour.hex_digit r) (String (Colour.hex_digit g)
                    (String (Colour.hex_digit b) ""))) by reflexivity.
    unfold Colour.channels. rewrite M. cbv zeta.
    cbn [String.length Nat.eqb Colour.double_chars].
    assert (E : String (Colour.hex_digit r) (String (Colour.hex_digit r)
                  (String (Colour.hex_digit g) (String (Colour.hex_digit g)
                     (String (Colour.hex_digit b) (String (Colour.hex_digit b) "")))))
                = (Colour.hex_byte (17 * r) ++ Colour.hex_byte (17 * g)
                   ++ Colour.hex_byte (17 * b))%string).
    { rewrite <- !Colour.doubled_digit by assumption. reflexivity. }
    rewrite E.
    rewrite Colour.parse_bytes by lia.
    apply Colour.split_bytes; lia. }
  split; [exact C|].
  unfold Colour.hexToRgba60. rewrite C.
  rewrite Colour.channels_six by lia. reflexivity.
Qed.

Lemma hexToRgba60_short_form_witness :
  Colour.channels "#fa0" = (255, 170, 0)%Z
  /\ Colour.hexToRgba60 "#fa0" = Colour.hexToRgba60 "#ffaa00".
Proof.
  exact (hexToRgba60_short_form 15 10 0 ltac:(lia) ltac:(lia) ltac:(lia)).
Defined.
